(** * Command gateway of ha-wyoming-realtime-shim

    A shallow embedding of the command gateway and of what drives it:

    - [SecurityController] (src/security.ts): domain and entity allow-lists,
      risk classification, the confirmation gate, entity sanitisation and
      the bounded audit log;
    - [HABridge] (src/ha-bridge.ts): the WebSocket client with its
      correlation table of pending requests;
    - the function-call dispatcher of [WyomingRealtimeShim] (src/index.ts)
      with the voice responses of src/prompt.ts;
    - the route handlers of the control API (src/control-api.ts);
    - the configuration checks of [ConfigManager] (src/config.ts);
    - the correlation ids of src/logging.ts.

    JavaScript values are modelled by the data the code really inspects:
    strings as [string], the JS number [temperature] as a binary64 float,
    [entity_id?: string | string[]] as an optional tagged union, the array
    of audit entries as a list, the [Map] of pending requests as a [gmap].
    Exceptions raised inside [try] are an explicit completion, promises and
    timers are explicit tables of the event loop. *)

From Stdlib Require Import ZArith Ascii String DecimalString PrimFloat Lia.
From stdpp Require Import base option list strings gmap.

Local Open Scope string_scope.
Local Open Scope list_scope.
Local Open Scope Z_scope.

(** ** JavaScript helpers *)

Module JS.

(** A thrown value, reduced to what the handlers read: [error.message]. *)
Record Error := mkError { message : string }.

(** The result of evaluating code that may throw. *)
Inductive Completion (A : Type) : Type :=
| Normal (a : A)
| Throw (e : Error).
Arguments Normal {A} a.
Arguments Throw {A} e.

(** The double-quote character, for template literals that contain it. *)
Definition dquote : string := String "034"%char EmptyString.

(** [ToBoolean] on a number: false exactly for [+0], [-0] and [NaN]. *)
Definition number_truthy (x : float) : bool :=
  negb (PrimFloat.eqb x 0%float) && PrimFloat.eqb x x.

(** [ToBoolean] on a string: false exactly for the empty string. *)
Definition string_truthy (s : string) : bool :=
  match s with EmptyString => false | String _ _ => true end.

(** [Array.prototype.includes] on an array of strings. *)
Definition includes (l : list string) (x : string) : bool :=
  bool_decide (x ∈ l).

(** [Array.prototype.slice(start)] for an integral [start]: a negative
    start counts from the end, and both ends are clamped. *)
Definition slice_from {A : Type} (start : Z) (l : list A) : list A :=
  let len := Z.of_nat (length l) in
  let k := if start <? 0 then Z.max (len + start) 0 else Z.min start len in
  drop (Z.to_nat k) l.

(** [s.replace(c, d)] with a one-character string pattern: only the first
    occurrence is replaced. *)
Fixpoint replace_first (c d : ascii) (s : string) : string :=
  match s with
  | EmptyString => EmptyString
  | String a s' =>
      if Ascii.eqb a c then String d s' else String a (replace_first c d s')
  end.

(** [s.replace(/c/g, d)]: every occurrence is replaced. *)
Fixpoint replace_all (c d : ascii) (s : string) : string :=
  match s with
  | EmptyString => EmptyString
  | String a s' =>
      String (if Ascii.eqb a c then d else a) (replace_all c d s')
  end.

(** The suffix after the first dot, when at least one character precedes
    that dot: what is left of [s] once a match of [/^[^.]+\./] is removed. *)
Fixpoint after_first_dot (seen : bool) (s : string) : option string :=
  match s with
  | EmptyString => None
  | String a s' =>
      if Ascii.eqb a "."%char
      then (if seen then Some s' else None)
      else after_first_dot true s'
  end.

(** [s.replace(/^[^.]+\./, '')]. *)
Definition strip_domain_prefix (s : string) : string :=
  match after_first_dot false s with
  | Some rest => rest
  | None => s
  end.

(** A non-negative integer in a template literal. *)
Definition nat_to_string (n : nat) : string :=
  NilZero.string_of_uint (Nat.to_uint n).

End JS.

(** ** Types (src/types.ts) *)

(** [entity_id?: string | string[]]; the TypeScript casts to [string] are
    erased at run time, so the value keeps its tag. *)
Inductive EntityId :=
| EntityString (s : string)
| EntityArray (l : list string).

(** [data?: Record<string, unknown>], read only through the assertion
    [as { temperature?: number }]. *)
Record ServiceData := { temperature : option float }.

(** [HAServiceCallRequest & { confirmed?: boolean }].  The [target] field of
    the interface is never read by the gateway and is left out. *)
Record HAServiceCallRequest := {
  domain : string;
  service : string;
  entity_id : option EntityId;
  data : option ServiceData;
  confirmed : option bool
}.

Record SecurityValidation := {
  allowed : bool;
  reason : option string;
  requiresConfirmation : bool;
  confirmationPrompt : option string;
  sanitizedEntityId : option string
}.

Record SecurityConfig := {
  allowedDomains : list string;
  entityWhitelist : list string;
  confirmHighRiskActions : bool
}.

(** [Omit<AuditLogEntry, 'timestamp'>]: what the callers of [addAuditEntry]
    pass.  [session_id] and [user_context] are never set by the gateway. *)
Record AuditInput := {
  in_action : string;
  in_domain : option string;
  in_service : option string;
  in_entity_id : option EntityId;
  in_allowed : bool;
  in_violation_type : option string;
  in_confirmed : option bool
}.

Record AuditLogEntry := {
  timestamp : Z;
  entry : AuditInput
}.

(** [ToBoolean(serviceCall.entity_id)]: an absent id and the empty string are
    falsy, every array (the empty one too) is truthy. *)
Definition entity_id_truthy (e : option EntityId) : bool :=
  match e with
  | None => false
  | Some (EntityString s) => JS.string_truthy s
  | Some (EntityArray _) => true
  end.

(** [ToBoolean(serviceCall.confirmed)]. *)
Definition confirmed_truthy (c : option bool) : bool :=
  match c with Some true => true | _ => false end.

(** The same request with the caller's [confirmed] flag set to [b]. *)
Definition with_confirmed (b : bool) (c : HAServiceCallRequest) : HAServiceCallRequest :=
  {| domain := domain c; service := service c; entity_id := entity_id c;
     data := data c; confirmed := Some b |}.

(** ** The system clock read by [new Date()] *)

Record Clock := { now_at : nat -> Z; reads : nat }.

Definition Date_new (c : Clock) : Z * Clock :=
  (now_at c (reads c), {| now_at := now_at c; reads := S (reads c) |}).

(** ** SecurityController (src/security.ts) *)

Record SecurityController := {
  config : SecurityConfig;
  auditEntries : list AuditLogEntry
}.

(** The controller together with the clock its methods read.  Calls to
    [logger] only write to the log sink and are not part of the state. *)
Record Env := { controller : SecurityController; clock : Clock }.

(** [new SecurityController(config)]. *)
Definition SecurityController_new (cfg : SecurityConfig) : SecurityController :=
  {| config := cfg; auditEntries := [] |}.

(** The audit log keeps the last [1000] entries. *)
Definition audit_capacity : Z := 1000.

(** [addAuditEntry(entry)]: stamp, push, and keep only the last 1000. *)
Definition addAuditEntry (e : AuditInput) (env : Env) : Env :=
  let '(t, clk) := Date_new (clock env) in
  let pushed := auditEntries (controller env) ++ [{| timestamp := t; entry := e |}] in
  let kept :=
    if (audit_capacity <? Z.of_nat (length pushed))%Z
    then JS.slice_from (- audit_capacity) pushed
    else pushed in
  {| controller := {| config := config (controller env); auditEntries := kept |};
     clock := clk |}.

(** [getAuditLog(limit)]: [this.auditEntries.slice(-limit)]. *)
Definition getAuditLog (limit : Z) (sc : SecurityController) : list AuditLogEntry :=
  JS.slice_from (- limit) (auditEntries sc).

(** [getAuditLog()] with the default [limit = 100]. *)
Definition getAuditLog_default (sc : SecurityController) : list AuditLogEntry :=
  getAuditLog 100 sc.

Definition highRiskDomains : list string :=
  ["alarm_control_panel"; "lock"; "cover"; "climate"; "vacuum"].

Definition highRiskActions : list string :=
  ["turn_off"; "unlock"; "open_cover"; "alarm_disarm"].

(** [entity_id === 'all' || (Array.isArray(entity_id) && entity_id.length > 5)] *)
Definition affects_all_or_many (e : option EntityId) : bool :=
  match e with
  | Some (EntityString s) => String.eqb s "all"
  | Some (EntityArray l) => (5 <? Z.of_nat (length l))%Z
  | None => false
  end.

(** [tempData.temperature && (tempData.temperature < 10 || tempData.temperature > 30)] *)
Definition significant_temperature (d : ServiceData) : bool :=
  match temperature d with
  | Some t => JS.number_truthy t && (PrimFloat.ltb t 10%float || PrimFloat.ltb 30%float t)
  | None => false
  end.

(** [isHighRiskAction(serviceCall)]. *)
Definition isHighRiskAction (c : HAServiceCallRequest) : bool :=
  if JS.includes highRiskDomains (domain c) then true
  else if JS.includes highRiskActions (service c) then true
  else if affects_all_or_many (entity_id c) then true
  else
    match data c with
    | Some d =>
        if String.eqb (service c) "set_temperature" && significant_temperature d
        then true else false
    | None => false
    end.

(** The [entityName] of [generateConfirmationPrompt]. *)
Definition entityName (e : option EntityId) : string :=
  match e with
  | Some (EntityString s) =>
      if JS.string_truthy s
      then JS.replace_all "_"%char " "%char (JS.strip_domain_prefix s)
      else "device"
  | _ => "device"
  end.

Definition are_you_sure : string := ". Are you sure?".

(** [generateConfirmationPrompt(serviceCall)]. *)
Definition generateConfirmationPrompt (c : HAServiceCallRequest) : string :=
  let spoken := JS.replace_first "_"%char " "%char (service c) in
  let single :=
    let name := entityName (entity_id c) in
    if String.eqb (service c) "unlock" then
      "This will unlock the " +:+ name +:+ are_you_sure
    else if String.eqb (service c) "alarm_disarm" then
      "This will disarm the " +:+ name +:+ are_you_sure
    else if String.eqb (service c) "open_cover" then
      "This will open the " +:+ name +:+ are_you_sure
    else
      "This will " +:+ spoken +:+ " the " +:+ name +:+ are_you_sure in
  match entity_id c with
  | Some (EntityString s) =>
      if String.eqb s "all"
      then "This will " +:+ spoken +:+ " ALL " +:+ domain c +:+ " devices" +:+ are_you_sure
      else single
  | Some (EntityArray l) =>
      if (1 <? Z.of_nat (length l))%Z
      then "This will " +:+ spoken +:+ " " +:+ JS.nat_to_string (length l) +:+ " "
             +:+ domain c +:+ " devices" +:+ are_you_sure
      else single
  | None => single
  end.

(** The characters of the class [[;&|`$(){}[\]\\]]; the backtick is code 96
    and the backslash code 92. *)
Definition dangerous_characters : list ascii :=
  [";"; "&"; "|"; "096"; "$"; "("; ")"; "{"; "}"; "["; "]"; "092"]%char.

Fixpoint remove_characters (bad : list ascii) (s : string) : string :=
  match s with
  | EmptyString => EmptyString
  | String a s' =>
      if bool_decide (a ∈ bad) then remove_characters bad s'
      else String a (remove_characters bad s')
  end.

(** [sanitizeEntityId(entityId)], on the value it receives at run time:
    [serviceCall.entity_id as string] passes an array through unchanged, an
    array has no [replace] method, and calling it throws a [TypeError]
    (message as V8 words it). *)
Definition sanitizeEntityId (entityId : EntityId) : JS.Completion string :=
  match entityId with
  | EntityString s => JS.Normal (remove_characters dangerous_characters s)
  | EntityArray _ => JS.Throw (JS.mkError "entityId.replace is not a function")
  end.

(** *** validateServiceCall *)

(** The state of one run of the [try] block: the local [validation] object,
    mutated as the checks proceed, and the controller with its clock. *)
Record Frame := { validation : SecurityValidation; env : Env }.

Definition set_reason (r : string) (v : SecurityValidation) : SecurityValidation :=
  {| allowed := allowed v; reason := Some r;
     requiresConfirmation := requiresConfirmation v;
     confirmationPrompt := confirmationPrompt v;
     sanitizedEntityId := sanitizedEntityId v |}.

Definition set_allowed (b : bool) (v : SecurityValidation) : SecurityValidation :=
  {| allowed := b; reason := reason v;
     requiresConfirmation := requiresConfirmation v;
     confirmationPrompt := confirmationPrompt v;
     sanitizedEntityId := sanitizedEntityId v |}.

Definition set_requiresConfirmation (b : bool) (v : SecurityValidation) : SecurityValidation :=
  {| allowed := allowed v; reason := reason v;
     requiresConfirmation := b;
     confirmationPrompt := confirmationPrompt v;
     sanitizedEntityId := sanitizedEntityId v |}.

Definition set_confirmationPrompt (p : string) (v : SecurityValidation) : SecurityValidation :=
  {| allowed := allowed v; reason := reason v;
     requiresConfirmation := requiresConfirmation v;
     confirmationPrompt := Some p;
     sanitizedEntityId := sanitizedEntityId v |}.

Definition set_sanitizedEntityId (s : string) (v : SecurityValidation) : SecurityValidation :=
  {| allowed := allowed v; reason := reason v;
     requiresConfirmation := requiresConfirmation v;
     confirmationPrompt := confirmationPrompt v;
     sanitizedEntityId := Some s |}.

(** The object [validation] is initialised with. *)
Definition initial_validation : SecurityValidation :=
  {| allowed := false; reason := None; requiresConfirmation := false;
     confirmationPrompt := None; sanitizedEntityId := None |}.

Definition update_validation (f : SecurityValidation -> SecurityValidation) (fr : Frame) : Frame :=
  {| validation := f (validation fr); env := env fr |}.

Definition audit (e : AuditInput) (fr : Frame) : Frame :=
  {| validation := validation fr; env := addAuditEntry e (env fr) |}.

(** The audit entries the four call sites build. *)
Definition domain_not_allowed_entry (c : HAServiceCallRequest) : AuditInput :=
  {| in_action := "security_violation"; in_domain := Some (domain c);
     in_service := Some (service c); in_entity_id := entity_id c;
     in_allowed := false; in_violation_type := Some "domain_not_allowed";
     in_confirmed := None |}.

Definition entity_not_allowed_entry (c : HAServiceCallRequest) (entityId : string) : AuditInput :=
  {| in_action := "security_violation"; in_domain := Some (domain c);
     in_service := Some (service c); in_entity_id := Some (EntityString entityId);
     in_allowed := false; in_violation_type := Some "entity_not_allowed";
     in_confirmed := None |}.

Definition high_risk_confirmed_entry (c : HAServiceCallRequest) : AuditInput :=
  {| in_action := "high_risk_confirmed"; in_domain := Some (domain c);
     in_service := Some (service c); in_entity_id := entity_id c;
     in_allowed := true; in_violation_type := None;
     in_confirmed := Some true |}.

Definition service_call_validation_entry (c : HAServiceCallRequest) : AuditInput :=
  {| in_action := "service_call_validation"; in_domain := Some (domain c);
     in_service := Some (service c); in_entity_id := entity_id c;
     in_allowed := true; in_violation_type := None;
     in_confirmed := None |}.

(** [Array.isArray(entity_id) ? entity_id : [entity_id]] *)
Definition entityIds (e : EntityId) : list string :=
  match e with
  | EntityString s => [s]
  | EntityArray l => l
  end.

(** The first entity of the [for] loop that the allow-list does not
    include, if the entity check runs at all. *)
Definition first_entity_not_allowed (cfg : SecurityConfig) (c : HAServiceCallRequest) : option string :=
  if (0 <? Z.of_nat (length (entityWhitelist cfg)))%Z && entity_id_truthy (entity_id c) then
    match entity_id c with
    | Some e => List.find (fun entityId => negb (JS.includes (entityWhitelist cfg) entityId)) (entityIds e)
    | None => None
    end
  else None.

(** Lines 88-103: sanitise, allow, audit, return. *)
Definition sanitize_and_allow (c : HAServiceCallRequest) (fr : Frame) : JS.Completion SecurityValidation * Frame :=
  let sanitized :=
    match entity_id c with
    | Some e =>
        if entity_id_truthy (entity_id c) then
          match sanitizeEntityId e with
          | JS.Normal s => JS.Normal (update_validation (set_sanitizedEntityId s) fr)
          | JS.Throw err => JS.Throw err
          end
        else JS.Normal fr
    | None => JS.Normal fr
    end in
  match sanitized with
  | JS.Throw err => (JS.Throw err, fr)
  | JS.Normal fr1 =>
      let fr2 := update_validation (set_allowed true) fr1 in
      let fr3 := audit (service_call_validation_entry c) fr2 in
      (JS.Normal (validation fr3), fr3)
  end.

(** The body of the [try] block, lines 32-103. *)
Definition validateServiceCall_try (c : HAServiceCallRequest) (fr : Frame) : JS.Completion SecurityValidation * Frame :=
  let cfg := config (controller (env fr)) in
  if negb (JS.includes (allowedDomains cfg) (domain c)) then
    let fr1 := update_validation
                 (set_reason ("Domain " +:+ JS.dquote +:+ domain c +:+ JS.dquote +:+ " not allowed")) fr in
    let fr2 := audit (domain_not_allowed_entry c) fr1 in
    (JS.Normal (validation fr2), fr2)
  else
    match first_entity_not_allowed cfg c with
    | Some entityId =>
        let fr1 := update_validation
                     (set_reason ("Entity " +:+ JS.dquote +:+ entityId +:+ JS.dquote +:+ " not allowed")) fr in
        let fr2 := audit (entity_not_allowed_entry c entityId) fr1 in
        (JS.Normal (validation fr2), fr2)
    | None =>
        let requiresConfirmation := isHighRiskAction c in
        if requiresConfirmation && confirmHighRiskActions cfg then
          if negb (confirmed_truthy (confirmed c)) then
            let fr1 := update_validation (set_requiresConfirmation true) fr in
            let fr2 := update_validation (set_confirmationPrompt (generateConfirmationPrompt c)) fr1 in
            let fr3 := update_validation (set_allowed false) fr2 in
            let fr4 := update_validation (set_reason "Confirmation required for high-risk action") fr3 in
            (JS.Normal (validation fr4), fr4)
          else
            sanitize_and_allow c (audit (high_risk_confirmed_entry c) fr)
        else
          sanitize_and_allow c fr
    end.

(** [validateServiceCall(serviceCall)]: the [try] block and its [catch],
    which turns any thrown error into a denial built on the [validation]
    object as it stood when the error was raised.  The method is [async]
    without an [await] inside: it runs to completion, and the value here is
    the one its promise is fulfilled with. *)
Definition validateServiceCall (c : HAServiceCallRequest) (e : Env) : SecurityValidation * Env :=
  match validateServiceCall_try c {| validation := initial_validation; env := e |} with
  | (JS.Normal v, fr) => (v, env fr)
  | (JS.Throw error, fr) =>
      (set_reason ("Validation error: " +:+ JS.message error) (validation fr), env fr)
  end.

(** [Partial<SecurityConfig>]; [None] is a key the object does not have. *)
Record PartialSecurityConfig := {
  new_allowedDomains : option (list string);
  new_entityWhitelist : option (list string);
  new_confirmHighRiskActions : option bool
}.

(** [updateConfig(newConfig)]: merge, then audit the update. *)
Definition updateConfig (n : PartialSecurityConfig) (e : Env) : Env :=
  let old := config (controller e) in
  let merged :=
    {| allowedDomains := default (allowedDomains old) (new_allowedDomains n);
       entityWhitelist := default (entityWhitelist old) (new_entityWhitelist n);
       confirmHighRiskActions := default (confirmHighRiskActions old) (new_confirmHighRiskActions n) |} in
  addAuditEntry
    {| in_action := "security_config_updated"; in_domain := None; in_service := None;
       in_entity_id := None; in_allowed := true; in_violation_type := None;
       in_confirmed := None |}
    {| controller := {| config := merged; auditEntries := auditEntries (controller e) |};
       clock := clock e |}.

(** ** HABridge (src/ha-bridge.ts) *)

(** A JSON payload the bridge passes through without looking inside. *)
Definition Payload := string.

(** The body of a request frame, after its [id]. *)
Inductive RequestBody :=
| call_service (domain service : string) (target : option EntityId) (service_data : option ServiceData)
| get_states
| subscribe_events (event_type : option string)
| unsubscribe_events (subscription : Z).

Record RequestMessage := { id : Z; body : RequestBody }.

(** What [send] serialises: the credential frame or a request frame. *)
Inductive WireMessage :=
| auth_frame (access_token : string)
| request_frame (m : RequestMessage).

(** [ws.readyState]. *)
Inductive ReadyState := CONNECTING | OPEN | CLOSING | CLOSED.

Definition ReadyState_eqb (a b : ReadyState) : bool :=
  match a, b with
  | CONNECTING, CONNECTING | OPEN, OPEN | CLOSING, CLOSING | CLOSED, CLOSED => true
  | _, _ => false
  end.

(** The socket: its state, the frames handed to [ws.send], and the promise
    of the [connect] call whose handlers it carries. *)
Record WebSocket := {
  readyState : ReadyState;
  outbox : list WireMessage;
  connect_promise : nat
}.

(** An inbound frame as [handleMessage] reads it.  [msg_id] is [None] for an
    absent id; an id that is not an integer number matches no key of the
    table and behaves as an unknown one. *)
Record EventBody := { event_type : string; event_data : Payload }.

Record InboundMessage := {
  msg_type : string;
  msg_id : option Z;
  msg_success : bool;
  msg_result : Payload;
  msg_error_message : option string;
  msg_message : Payload;
  msg_event : option EventBody
}.

(** How a promise was settled. *)
Inductive Settlement :=
| Resolved (value : Payload)
| Rejected (error : JS.Error).

(** An entry of [pendingRequests]: [resolve] and [reject] of one promise,
    and the handle of its timer. *)
Record PendingRequest := { promise : nat; timeout : nat }.

(** A timer armed by [sendRequest]: its callback deletes [timer_request]
    from the table and rejects [timer_promise]. *)
Record Timer := { timer_request : Z; timer_promise : nat; delay : Z }.

(** An event emitted on the bridge, with the argument the listeners get. *)
Record Emission := { event_name : string; event_argument : Payload }.

Record HABridge := {
  ws : option WebSocket;
  token : string;
  securityController : option SecurityController;
  messageId : Z;
  pendingRequests : gmap Z PendingRequest;
  reconnecting : bool;
  connected : bool;
  (* listeners registered with [once] by [connect], each with the promise
     its closure settles *)
  once_auth_required : nat;
  once_auth_ok : list nat;
  once_auth_invalid : list nat;
  emitted : list Emission
}.

(** The event loop: settled promises, armed timers, fresh handles. *)
Record EventLoop := {
  promises : gmap nat Settlement;
  next_promise : nat;
  timers : gmap nat Timer;
  next_timer : nat
}.

Record World := { bridge : HABridge; loop : EventLoop; sys_clock : Clock }.

(** [new HABridge(config)]. *)
Definition HABridge_new (tok : string) (sc : option SecurityController) : HABridge :=
  {| ws := None; token := tok; securityController := sc; messageId := 1;
     pendingRequests := ∅; reconnecting := false; connected := false;
     once_auth_required := 0%nat; once_auth_ok := []; once_auth_invalid := [];
     emitted := [] |}.

Definition EventLoop_new : EventLoop :=
  {| promises := ∅; next_promise := 0%nat; timers := ∅; next_timer := 0%nat |}.

(** *** Field updates *)

Definition with_ws (x : option WebSocket) (b : HABridge) : HABridge :=
  {| ws := x; token := token b; securityController := securityController b;
     messageId := messageId b; pendingRequests := pendingRequests b;
     reconnecting := reconnecting b; connected := connected b;
     once_auth_required := once_auth_required b; once_auth_ok := once_auth_ok b;
     once_auth_invalid := once_auth_invalid b; emitted := emitted b |}.

Definition with_securityController (x : option SecurityController) (b : HABridge) : HABridge :=
  {| ws := ws b; token := token b; securityController := x;
     messageId := messageId b; pendingRequests := pendingRequests b;
     reconnecting := reconnecting b; connected := connected b;
     once_auth_required := once_auth_required b; once_auth_ok := once_auth_ok b;
     once_auth_invalid := once_auth_invalid b; emitted := emitted b |}.

Definition with_messageId (x : Z) (b : HABridge) : HABridge :=
  {| ws := ws b; token := token b; securityController := securityController b;
     messageId := x; pendingRequests := pendingRequests b;
     reconnecting := reconnecting b; connected := connected b;
     once_auth_required := once_auth_required b; once_auth_ok := once_auth_ok b;
     once_auth_invalid := once_auth_invalid b; emitted := emitted b |}.

Definition with_pendingRequests (x : gmap Z PendingRequest) (b : HABridge) : HABridge :=
  {| ws := ws b; token := token b; securityController := securityController b;
     messageId := messageId b; pendingRequests := x;
     reconnecting := reconnecting b; connected := connected b;
     once_auth_required := once_auth_required b; once_auth_ok := once_auth_ok b;
     once_auth_invalid := once_auth_invalid b; emitted := emitted b |}.

Definition with_connected (x : bool) (b : HABridge) : HABridge :=
  {| ws := ws b; token := token b; securityController := securityController b;
     messageId := messageId b; pendingRequests := pendingRequests b;
     reconnecting := reconnecting b; connected := x;
     once_auth_required := once_auth_required b; once_auth_ok := once_auth_ok b;
     once_auth_invalid := once_auth_invalid b; emitted := emitted b |}.

Definition with_once (r : nat) (ok invalid : list nat) (b : HABridge) : HABridge :=
  {| ws := ws b; token := token b; securityController := securityController b;
     messageId := messageId b; pendingRequests := pendingRequests b;
     reconnecting := reconnecting b; connected := connected b;
     once_auth_required := r; once_auth_ok := ok;
     once_auth_invalid := invalid; emitted := emitted b |}.

(** [this.emit(name, argument)], for the listeners outside the bridge. *)
Definition emit (name : string) (argument : Payload) (b : HABridge) : HABridge :=
  {| ws := ws b; token := token b; securityController := securityController b;
     messageId := messageId b; pendingRequests := pendingRequests b;
     reconnecting := reconnecting b; connected := connected b;
     once_auth_required := once_auth_required b; once_auth_ok := once_auth_ok b;
     once_auth_invalid := once_auth_invalid b;
     emitted := emitted b ++ [{| event_name := name; event_argument := argument |}] |}.

Definition with_bridge (b : HABridge) (w : World) : World :=
  {| bridge := b; loop := loop w; sys_clock := sys_clock w |}.

Definition with_loop (l : EventLoop) (w : World) : World :=
  {| bridge := bridge w; loop := l; sys_clock := sys_clock w |}.

Definition update_bridge (f : HABridge -> HABridge) (w : World) : World :=
  with_bridge (f (bridge w)) w.

(** *** The event loop: promises and timers *)

(** [resolve] or [reject] of a promise: only the first settlement counts. *)
Definition settle (p : nat) (s : Settlement) (l : EventLoop) : EventLoop :=
  match promises l !! p with
  | Some _ => l
  | None =>
      {| promises := <[p := s]> (promises l); next_promise := next_promise l;
         timers := timers l; next_timer := next_timer l |}
  end.

(** [new Promise(...)]: a fresh, unsettled promise. *)
Definition new_promise (l : EventLoop) : nat * EventLoop :=
  (next_promise l,
   {| promises := promises l; next_promise := S (next_promise l);
      timers := timers l; next_timer := next_timer l |}).

(** [setTimeout(callback, delay)]: arm a timer and return its handle. *)
Definition setTimeout (t : Timer) (l : EventLoop) : nat * EventLoop :=
  (next_timer l,
   {| promises := promises l; next_promise := next_promise l;
      timers := <[next_timer l := t]> (timers l); next_timer := S (next_timer l) |}).

(** [clearTimeout(handle)]. *)
Definition clearTimeout (h : nat) (l : EventLoop) : EventLoop :=
  {| promises := promises l; next_promise := next_promise l;
     timers := delete h (timers l); next_timer := next_timer l |}.

Definition request_timeout : JS.Error := JS.mkError "Request timeout".

(** The default of [sendRequest]'s [timeout] parameter, in milliseconds. *)
Definition default_timeout : Z := 5000.

(** *** Methods *)

(** [send(message)]: written to the socket only when it is open, dropped
    silently otherwise. *)
Definition send (m : WireMessage) (b : HABridge) : HABridge :=
  match ws b with
  | Some s =>
      if ReadyState_eqb (readyState s) OPEN
      then with_ws (Some {| readyState := readyState s; outbox := outbox s ++ [m];
                            connect_promise := connect_promise s |}) b
      else b
  | None => b
  end.

(** [sendRequest(message, timeout = 5000)]: arm the timer, record the
    pending request, hand the frame to [send]; the promise is returned. *)
Definition sendRequest (message : RequestMessage) (timeout_ms : option Z) (w : World) : nat * World :=
  let '(p, l1) := new_promise (loop w) in
  let '(h, l2) :=
    setTimeout {| timer_request := id message; timer_promise := p;
                  delay := default default_timeout timeout_ms |} l1 in
  let b1 :=
    with_pendingRequests
      (<[id message := {| promise := p; timeout := h |}]> (pendingRequests (bridge w)))
      (bridge w) in
  (p, {| bridge := send (request_frame message) b1; loop := l2; sys_clock := sys_clock w |}).

(** The callback of the timer [h] runs: the entry of its request id is
    deleted and its promise rejected with ['Request timeout']. *)
Definition timeout_callback (h : nat) (w : World) : World :=
  match timers (loop w) !! h with
  | None => w
  | Some t =>
      {| bridge := with_pendingRequests
                     (delete (timer_request t) (pendingRequests (bridge w))) (bridge w);
         loop := settle (timer_promise t) (Rejected request_timeout) (clearTimeout h (loop w));
         sys_clock := sys_clock w |}
  end.

(** [message.error?.message || 'Unknown error'] *)
Definition error_text (m : InboundMessage) : string :=
  match msg_error_message m with
  | Some s => if JS.string_truthy s then s else "Unknown error"
  | None => "Unknown error"
  end.

(** [handleResponse(message)]. *)
Definition handleResponse (m : InboundMessage) (w : World) : World :=
  match msg_id m with
  | None => w
  | Some i =>
      match pendingRequests (bridge w) !! i with
      | None => w
      | Some pending =>
          let l1 := clearTimeout (timeout pending) (loop w) in
          let b1 := with_pendingRequests (delete i (pendingRequests (bridge w))) (bridge w) in
          let outcome :=
            if msg_success m then Resolved (msg_result m)
            else Rejected (JS.mkError (error_text m)) in
          {| bridge := b1; loop := settle (promise pending) outcome l1;
             sys_clock := sys_clock w |}
      end
  end.

(** [handleEvent(event)]; reading [event_type] of a missing event throws. *)
Definition handleEvent (event : option EventBody) (w : World) : JS.Completion World :=
  match event with
  | None =>
      JS.Throw (JS.mkError "Cannot read properties of undefined (reading 'event_type')")
  | Some e =>
      if String.eqb (event_type e) "state_changed" then
        JS.Normal (update_bridge (emit "state_changed" (event_data e)) w)
      else if String.eqb (event_type e) "hue_event" then
        JS.Normal (update_bridge (emit "hue_event" (event_data e)) w)
      else JS.Normal w
  end.

(** [authenticate()]. *)
Definition authenticate (b : HABridge) : HABridge :=
  send (auth_frame (token b)) b.

(** The [once('auth_ok')] listener of one [connect] call. *)
Definition auth_ok_listener (w : World) (p : nat) : World :=
  {| bridge := emit "connected" "" (with_connected true (bridge w));
     loop := settle p (Resolved "") (loop w);
     sys_clock := sys_clock w |}.

(** The [once('auth_invalid')] listener of one [connect] call. *)
Definition auth_invalid_listener (text : Payload) (w : World) (p : nat) : World :=
  {| bridge := emit "auth_error" text (bridge w);
     loop := settle p (Rejected (JS.mkError ("Authentication failed: " +:+ text))) (loop w);
     sys_clock := sys_clock w |}.

(** [m.id] is truthy: present and not zero. *)
Definition msg_id_truthy (m : InboundMessage) : bool :=
  match msg_id m with
  | Some i => negb (i =? 0)
  | None => false
  end.

(** [handleMessage(message)].  The three [auth_*] events are consumed by
    the [once] listeners [connect] registered, which are then removed. *)
Definition handleMessage (m : InboundMessage) (w : World) : JS.Completion World :=
  let b := bridge w in
  if String.eqb (msg_type m) "auth_required" then
    let b1 := with_once 0 (once_auth_ok b) (once_auth_invalid b) (emit "auth_required" "" b) in
    JS.Normal (with_bridge (Nat.iter (once_auth_required b) authenticate b1) w)
  else if String.eqb (msg_type m) "auth_ok" then
    let b1 := with_once (once_auth_required b) [] (once_auth_invalid b) (emit "auth_ok" "" b) in
    JS.Normal (foldl auth_ok_listener (with_bridge b1 w) (once_auth_ok b))
  else if String.eqb (msg_type m) "auth_invalid" then
    let b1 := with_once (once_auth_required b) (once_auth_ok b) []
                (emit "auth_invalid" (msg_message m) b) in
    JS.Normal (foldl (auth_invalid_listener (msg_message m)) (with_bridge b1 w) (once_auth_invalid b))
  else if String.eqb (msg_type m) "result" && msg_id_truthy m then
    JS.Normal (handleResponse m w)
  else if String.eqb (msg_type m) "event" then
    handleEvent (msg_event m) w
  else JS.Normal w.

(** The socket's ['message'] handler: [None] is data that [JSON.parse]
    rejects; any error is reported as a ['message_error'] event. *)
Definition on_message (data : option InboundMessage) (w : World) : World :=
  match data with
  | None => update_bridge (emit "message_error" "Unexpected token") w
  | Some m =>
      match handleMessage m w with
      | JS.Normal w' => w'
      | JS.Throw error => update_bridge (emit "message_error" (JS.message error)) w
      end
  end.

(** The socket opens. *)
Definition on_open (w : World) : World :=
  match ws (bridge w) with
  | Some s =>
      update_bridge (with_ws (Some {| readyState := OPEN; outbox := outbox s;
                                      connect_promise := connect_promise s |})) w
  | None => w
  end.

(** The socket's ['error'] handler. *)
Definition on_error (text : Payload) (w : World) : World :=
  let w1 := update_bridge (emit "connection_error" text) w in
  match ws (bridge w) with
  | Some s => with_loop (settle (connect_promise s) (Rejected (JS.mkError text)) (loop w1)) w1
  | None => w1
  end.

(** The socket's ['close'] handler. *)
Definition on_close (code_and_reason : Payload) (w : World) : World :=
  let closed :=
    match ws (bridge w) with
    | Some s => with_ws (Some {| readyState := CLOSED; outbox := outbox s;
                                 connect_promise := connect_promise s |})
    | None => fun b => b
    end in
  update_bridge (fun b => emit "disconnected" code_and_reason (with_connected false (closed b))) w.

(** [connect()]: a new socket and the three [once] listeners.  The model
    follows the handlers of the socket [this.ws] currently holds. *)
Definition connect (w : World) : nat * World :=
  let '(p, l1) := new_promise (loop w) in
  let b := bridge w in
  let b1 := with_ws (Some {| readyState := CONNECTING; outbox := []; connect_promise := p |}) b in
  let b2 := with_once (S (once_auth_required b)) (once_auth_ok b ++ [p]) (once_auth_invalid b ++ [p]) b1 in
  (p, {| bridge := b2; loop := l1; sys_clock := sys_clock w |}).

(** [disconnect()]. *)
Definition disconnect (w : World) : World :=
  update_bridge (fun b => with_ws None (with_connected false b)) w.

(** [isConnected()]. *)
Definition isConnected (w : World) : bool := connected (bridge w).

(** How [callService] ends: it throws, or it returns the promise of
    [sendRequest]. *)
Inductive CallResult :=
| Threw (error : JS.Error)
| Awaiting (p : nat).

(** Where [callService] stands when control goes back to its caller:
    suspended at [await validateServiceCall(...)], the verdict computed,
    or, on a bridge without a controller, run to its [return]. *)
Inductive CallStart :=
| AtAwait (validation : SecurityValidation)
| Returned (p : nat).

(** [const id = this.messageId++]. *)
Definition next_id (w : World) : Z * World :=
  (messageId (bridge w), update_bridge (with_messageId (messageId (bridge w) + 1)) w).

(** The frame [callService] builds; a falsy [entity_id] adds no [target]. *)
Definition call_service_body (c : HAServiceCallRequest) : RequestBody :=
  call_service (domain c) (service c)
    (if entity_id_truthy (entity_id c) then entity_id c else None)
    (data c).

Definition call_service_message (i : Z) (c : HAServiceCallRequest) : RequestMessage :=
  {| id := i; body := call_service_body c |}.

(** Lines 130-142 of [callService]: take the next id, build the frame and
    hand it to [sendRequest].  [messageId] is a JS number, here an unbounded
    integer. *)
Definition issue_call_service (c : HAServiceCallRequest) (timeout_ms : option Z) (w : World)
    : nat * World :=
  let '(i, w1) := next_id w in
  sendRequest (call_service_message i c) timeout_ms w1.

(** [callService(serviceCall, options)] as far as it runs in the turn of
    the call.  With a controller, [validateServiceCall] runs at once (it
    has no [await] of its own: the audit log and the clock change here) and
    [callService] is suspended at its [await]; the request id is not taken
    yet.  Without a controller nothing is awaited and the request is
    issued in the call. *)
Definition callService (c : HAServiceCallRequest) (timeout_ms : option Z) (w : World)
    : CallStart * World :=
  match securityController (bridge w) with
  | Some sc =>
      let '(v, e) := validateServiceCall c {| controller := sc; clock := sys_clock w |} in
      (AtAwait v,
       {| bridge := with_securityController (Some (controller e)) (bridge w);
          loop := loop w; sys_clock := clock e |})
  | None =>
      let '(p, w1) := issue_call_service c timeout_ms w in
      (Returned p, w1)
  end.

(** [callService] from its [await] on, with the verdict [v] it was given:
    this runs as a job of its own, after the code that made the call has
    run to its end, in the world [w] that code (and whatever else ran in
    between) has left.  A denial throws; otherwise the request takes the
    id that is next at that moment. *)
Definition callService_resume (c : HAServiceCallRequest) (timeout_ms : option Z)
    (v : SecurityValidation) (w : World) : CallResult * World :=
  if negb (allowed v)
  then (Threw (JS.mkError (default "" (reason v))), w)
  else
    let '(p, w1) := issue_call_service c timeout_ms w in
    (Awaiting p, w1).

(** [getStates()]. *)
Definition getStates (w : World) : nat * World :=
  let '(i, w1) := next_id w in
  sendRequest {| id := i; body := get_states |} None w1.

(** [subscribeEvents(eventType)]: the request it awaits. *)
Definition subscribeEvents (eventType : option string) (w : World) : nat * World :=
  let '(i, w1) := next_id w in
  sendRequest
    {| id := i;
       body := subscribe_events
                 (match eventType with
                  | Some s => if JS.string_truthy s then Some s else None
                  | None => None
                  end) |} None w1.

(** [unsubscribeEvents(subscriptionId)]: the request it awaits. *)
Definition unsubscribeEvents (subscriptionId : Z) (w : World) : nat * World :=
  let '(i, w1) := next_id w in
  sendRequest {| id := i; body := unsubscribe_events subscriptionId |} None w1.

(** *** Runs of the bridge *)

(** What can happen to a bridge: socket events, timers running out, calls
    of its public methods, and a suspended [callService] running on.  A
    run may resume any call with any verdict at any time, which covers
    every order in which the jobs of real calls can run. *)
Inductive Event :=
| ws_open
| ws_message (data : option InboundMessage)
| ws_error (text : Payload)
| ws_close (code_and_reason : Payload)
| timer_elapsed (h : nat)
| call_connect
| call_disconnect
| call_callService (c : HAServiceCallRequest) (timeout_ms : option Z)
| call_getStates
| call_subscribeEvents (eventType : option string)
| call_unsubscribeEvents (subscriptionId : Z)
| resume_callService (c : HAServiceCallRequest) (timeout_ms : option Z)
    (validation : SecurityValidation).

Definition step (w : World) (ev : Event) : World :=
  match ev with
  | ws_open => on_open w
  | ws_message data => on_message data w
  | ws_error text => on_error text w
  | ws_close r => on_close r w
  | timer_elapsed h => timeout_callback h w
  | call_connect => snd (connect w)
  | call_disconnect => disconnect w
  | call_callService c t => snd (callService c t w)
  | call_getStates => snd (getStates w)
  | call_subscribeEvents t => snd (subscribeEvents t w)
  | call_unsubscribeEvents s => snd (unsubscribeEvents s w)
  | resume_callService c t v => snd (callService_resume c t v w)
  end.

Definition run (w : World) (evs : list Event) : World := foldl step w evs.

(** A response frame citing the request id [i]. *)
Definition cites (i : Z) (ev : Event) : Prop :=
  match ev with
  | ws_message (Some m) => msg_type m = "result" /\ msg_id m = Some i
  | _ => False
  end.

(** A clock that starts at [t0] and advances one unit per reading. *)
Definition ticking_clock (t0 : Z) : Clock :=
  {| now_at := fun n => t0 + Z.of_nat n; reads := 0%nat |}.

(** The world [new HABridge(config)] starts in. *)
Definition World_new (tok : string) (sc : option SecurityController) (c : Clock) : World :=
  {| bridge := HABridge_new tok sc; loop := EventLoop_new; sys_clock := c |}.

(** ** Derived notions used in the statements *)

(** The confirmation gate lets the request through: it is not high-risk,
    or confirmation is switched off, or the caller confirmed. *)
Definition gate_open (cfg : SecurityConfig) (c : HAServiceCallRequest) : bool :=
  negb (isHighRiskAction c && confirmHighRiskActions cfg) || confirmed_truthy (confirmed c).

(** The controller after the gate: a confirmed high-risk request has been
    audited as such. *)
Definition after_gate (c : HAServiceCallRequest) (e : Env) : Env :=
  if isHighRiskAction c && confirmHighRiskActions (config (controller e))
  then addAuditEntry (high_risk_confirmed_entry c) e
  else e.

(** What [sanitizedEntityId] holds for a target that is a string or absent. *)
Definition sanitized_target (t : option EntityId) : option string :=
  match t with
  | Some (EntityString s) =>
      if JS.string_truthy s then Some (remove_characters dangerous_characters s) else None
  | _ => None
  end.

Definition is_array (t : option EntityId) : bool :=
  match t with Some (EntityArray _) => true | _ => false end.

Definition domain_denial (c : HAServiceCallRequest) : string :=
  "Domain " +:+ JS.dquote +:+ domain c +:+ JS.dquote +:+ " not allowed".

Definition entity_denial (entityId : string) : string :=
  "Entity " +:+ JS.dquote +:+ entityId +:+ JS.dquote +:+ " not allowed".

(** The verdict as a function of the configuration and the request alone. *)
Definition verdict (cfg : SecurityConfig) (c : HAServiceCallRequest) : SecurityValidation :=
  if negb (JS.includes (allowedDomains cfg) (domain c)) then
    set_reason (domain_denial c) initial_validation
  else
    match first_entity_not_allowed cfg c with
    | Some entityId => set_reason (entity_denial entityId) initial_validation
    | None =>
        if negb (gate_open cfg c) then
          {| allowed := false;
             reason := Some "Confirmation required for high-risk action";
             requiresConfirmation := true;
             confirmationPrompt := Some (generateConfirmationPrompt c);
             sanitizedEntityId := None |}
        else if is_array (entity_id c) then
          set_reason "Validation error: entityId.replace is not a function" initial_validation
        else
          {| allowed := true; reason := None; requiresConfirmation := false;
             confirmationPrompt := None;
             sanitizedEntityId := sanitized_target (entity_id c) |}
    end.

(** The world after the policy engine ran inside [callService]. *)
Definition validated (e : Env) (w : World) : World :=
  {| bridge := with_securityController (Some (controller e)) (bridge w);
     loop := loop w; sys_clock := clock e |}.

(** What every request-issuing method does once it may proceed: take the
    next id and hand the frame to [sendRequest]. *)
Definition execute (b : RequestBody) (timeout_ms : option Z) (w : World) : nat * World :=
  let '(i, w1) := next_id w in
  sendRequest {| id := i; body := b |} timeout_ms w1.

(** The two effects a settling callback has on the world: the entry of a
    request and its timer are dropped, and a promise is settled. *)
Definition forget (i : Z) (h : nat) (w : World) : World :=
  {| bridge := with_pendingRequests (delete i (pendingRequests (bridge w))) (bridge w);
     loop := clearTimeout h (loop w);
     sys_clock := sys_clock w |}.

Definition settle_in (q : nat) (s : Settlement) (w : World) : World :=
  with_loop (settle q s (loop w)) w.

(** The part of a world the invariants below read is the same in [w'] as
    in [w], except that [once] listeners may have been removed. *)
Definition same_core (w w' : World) : Prop :=
  loop w' = loop w /\
  pendingRequests (bridge w') = pendingRequests (bridge w) /\
  messageId (bridge w') = messageId (bridge w) /\
  once_auth_ok (bridge w') ⊆ once_auth_ok (bridge w) /\
  once_auth_invalid (bridge w') ⊆ once_auth_invalid (bridge w) /\
  (connect_promise <$> ws (bridge w')) = (connect_promise <$> ws (bridge w)).

(** Handles and ids in use are below the counters they were drawn from. *)
Record well_formed (w : World) : Prop := {
  wf_promises :
    forall q s, promises (loop w) !! q = Some s -> (q < next_promise (loop w))%nat;
  wf_timers :
    forall h t, timers (loop w) !! h = Some t ->
      (h < next_timer (loop w))%nat /\ (timer_promise t < next_promise (loop w))%nat
      /\ timer_request t < messageId (bridge w);
  wf_pending :
    forall i r, pendingRequests (bridge w) !! i = Some r ->
      i < messageId (bridge w) /\ (promise r < next_promise (loop w))%nat
      /\ (timeout r < next_timer (loop w))%nat;
  wf_once_ok : Forall (fun q => (q < next_promise (loop w))%nat) (once_auth_ok (bridge w));
  wf_once_invalid :
    Forall (fun q => (q < next_promise (loop w))%nat) (once_auth_invalid (bridge w));
  wf_ws :
    forall q, connect_promise <$> ws (bridge w) = Some q -> (q < next_promise (loop w))%nat
}.

(** The request [i], with promise [p] and timer [h] of delay [d], is
    outstanding in [w], and nothing else in [w] can settle [p], clear [h] or
    delete the entry of [i]. *)
Record outstanding (i : Z) (p h : nat) (d : Z) (w : World) : Prop := {
  out_pending : pendingRequests (bridge w) !! i = Some {| promise := p; timeout := h |};
  out_timer :
    timers (loop w) !! h = Some {| timer_request := i; timer_promise := p; delay := d |};
  out_unsettled : promises (loop w) !! p = None;
  out_bounds :
    i < messageId (bridge w) /\ (p < next_promise (loop w))%nat
    /\ (h < next_timer (loop w))%nat;
  out_other_timers :
    forall h' t, timers (loop w) !! h' = Some t -> h' <> h ->
      timer_request t <> i /\ timer_promise t <> p;
  out_other_pending :
    forall i' r, pendingRequests (bridge w) !! i' = Some r -> i' <> i ->
      promise r <> p /\ timeout r <> h;
  out_once_ok : p ∉ once_auth_ok (bridge w);
  out_once_invalid : p ∉ once_auth_invalid (bridge w);
  out_ws : connect_promise <$> ws (bridge w) <> Some p
}.

(** The request [i] has been settled with [s] on promise [p] and is gone
    from the table. *)
Record settled (i : Z) (p : nat) (s : Settlement) (w : World) : Prop := {
  set_old : i < messageId (bridge w);
  set_gone : pendingRequests (bridge w) !! i = None;
  set_outcome : promises (loop w) !! p = Some s
}.

(** Inbound frames. *)
Definition control_message (type : string) : InboundMessage :=
  {| msg_type := type; msg_id := None; msg_success := false; msg_result := "";
     msg_error_message := None; msg_message := ""; msg_event := None |}.

Definition result_message (i : Z) (success : bool) (result : Payload) : InboundMessage :=
  {| msg_type := "result"; msg_id := Some i; msg_success := success; msg_result := result;
     msg_error_message := None; msg_message := ""; msg_event := None |}.

(** A sequence of insertions into the audit log. *)
Definition insert_all (inputs : list AuditInput) (e : Env) : Env :=
  foldl (fun e' a => addAuditEntry a e') e inputs.

(** The entries a sequence of insertions creates, each stamped with the
    clock reading of its own insertion. *)
Fixpoint stamp_all (now : nat -> Z) (from : nat) (inputs : list AuditInput) : list AuditLogEntry :=
  match inputs with
  | [] => []
  | a :: rest => {| timestamp := now from; entry := a |} :: stamp_all now (S from) rest
  end.

(** ** Sample configurations and requests *)

Definition sample_config : SecurityConfig :=
  {| allowedDomains := ["light"; "lock"; "water_heater"];
     entityWhitelist := [];
     confirmHighRiskActions := true |}.

Definition sample_controller : SecurityController := SecurityController_new sample_config.

Definition sample_env : Env :=
  {| controller := sample_controller; clock := ticking_clock 0 |}.

(** A bridge wired to the sample controller, before [connect]. *)
Definition sample_world : World :=
  World_new "token" (Some sample_controller) (ticking_clock 0).

(** [{domain: 'switch', service: 'turn_on', entity_id: 'switch.pump'}] *)
Definition switch_on : HAServiceCallRequest :=
  {| domain := "switch"; service := "turn_on";
     entity_id := Some (EntityString "switch.pump"); data := None; confirmed := None |}.

(** [{domain: 'lock', service: 'unlock', entity_id: 'lock.front_door', confirmed: false}] *)
Definition unlock_front_door : HAServiceCallRequest :=
  {| domain := "lock"; service := "unlock";
     entity_id := Some (EntityString "lock.front_door"); data := None;
     confirmed := Some false |}.

(** [{domain: 'lock', service: 'unlock', entity_id: ['lock.front_door'], confirmed: false}] *)
Definition unlock_listed_door : HAServiceCallRequest :=
  {| domain := "lock"; service := "unlock";
     entity_id := Some (EntityArray ["lock.front_door"]); data := None;
     confirmed := Some false |}.

(** [{domain: 'light', service: 'turn_on', entity_id: ['light.kitchen']}] *)
Definition light_on_listed : HAServiceCallRequest :=
  {| domain := "light"; service := "turn_on";
     entity_id := Some (EntityArray ["light.kitchen"]); data := None; confirmed := None |}.

(** [{domain: 'light', service: 'turn_on', entity_id: 'light.kitchen'}] *)
Definition light_on : HAServiceCallRequest :=
  {| domain := "light"; service := "turn_on";
     entity_id := Some (EntityString "light.kitchen"); data := None; confirmed := None |}.

(** [{domain: 'water_heater', service: 'set_temperature',
      entity_id: 'water_heater.boiler', data: {temperature: 0}}] *)
Definition boiler_to_zero : HAServiceCallRequest :=
  {| domain := "water_heater"; service := "set_temperature";
     entity_id := Some (EntityString "water_heater.boiler");
     data := Some {| temperature := Some 0%float |}; confirmed := None |}.

(** The sample bridge once its socket is open and the credential frame has
    been sent, before the server has accepted it. *)
Definition authenticating_world : World :=
  run sample_world [call_connect; ws_open; ws_message (Some (control_message "auth_required"))].

(** The sample bridge after the whole handshake. *)
Definition ready_world : World :=
  step authenticating_world (ws_message (Some (control_message "auth_ok"))).

(** ** Further notions for the bridge *)

(** How [handleResponse] settles the promise of the request a frame cites. *)
Definition response_outcome (m : InboundMessage) : Settlement :=
  if msg_success m then Resolved (msg_result m)
  else Rejected (JS.mkError (error_text m)).

(** The timer [h] has been handed out and is no longer armed. *)
Definition cleared (h : nat) (w : World) : Prop :=
  (h < next_timer (loop w))%nat /\ timers (loop w) !! h = None.

(** The frame [{type: 'auth_invalid', message: text}]. *)
Definition auth_invalid_message (text : Payload) : InboundMessage :=
  {| msg_type := "auth_invalid"; msg_id := None; msg_success := false; msg_result := "";
     msg_error_message := None; msg_message := text; msg_event := None |}.

(** The frame [{type: 'event', event: {event_type, data}}]. *)
Definition event_message (type : string) (payload : Payload) : InboundMessage :=
  {| msg_type := "event"; msg_id := None; msg_success := false; msg_result := "";
     msg_error_message := None; msg_message := "";
     msg_event := Some {| event_type := type; event_data := payload |} |}.

(** ** The function-call dispatcher (src/index.ts) and the voice responses
       it hands back (src/prompt.ts) *)

(** [haystack.includes(needle)] on strings. *)
Fixpoint string_includes (needle haystack : string) : bool :=
  String.prefix needle haystack ||
  match haystack with
  | EmptyString => false
  | String _ rest => string_includes needle rest
  end.

(** [`${entityId || fallback}`]: an array is truthy and is written as its
    elements joined by commas. *)
Definition entity_text (entityId : option EntityId) (fallback : string) : string :=
  match entityId with
  | Some (EntityString s) => if JS.string_truthy s then s else fallback
  | Some (EntityArray l) => String.concat "," l
  | None => fallback
  end.

Definition not_found_response (entityId : option EntityId) : string :=
  "I couldn't find that device. Please check if the " +:+ entity_text entityId "device"
  +:+ " exists and try again.".

Definition not_able_response (allowed_domains : list string) (domain : string) : string :=
  "I'm not able to control " +:+ (if JS.string_truthy domain then domain else "that type of")
  +:+ " device. I can only control " +:+ String.concat ", " allowed_domains +:+ " devices.".

Definition needs_confirmation_response : string :=
  "This action requires confirmation. Please say yes or confirm to proceed.".

Definition generic_error_response (error : string) : string :=
  "I'm sorry, I couldn't complete that action. There was an error: " +:+ error.

(** [VoiceResponseGenerator.generateErrorResponse(error, domain, entityId)];
    [allowed_domains] is [this.config.allowedDomains].  The dispatcher passes
    [args?.domain]: an absent domain and the empty string are both falsy and
    the parameter is read through [||] only. *)
Definition generateErrorResponse (allowed_domains : list string)
    (error domain : string) (entityId : option EntityId) : string :=
  if string_includes "not found" error then not_found_response entityId
  else if string_includes "not allowed" error || string_includes "domain" error
  then not_able_response allowed_domains domain
  else if string_includes "confirmation" error then needs_confirmation_response
  else generic_error_response error.

(** [VoiceResponseGenerator.generateSuccessResponse(domain, service,
    entityId)]; [roll] is [Math.floor(Math.random() * 3)].  An array has no
    [replace] method. *)
Definition generateSuccessResponse (domain service : string) (entityId : option EntityId)
    (roll : nat) : JS.Completion string :=
  let phrases (entityName : string) : string :=
    let action := JS.replace_first "_"%char " "%char service in
    let on := String.eqb action "turn on" in
    let off := String.eqb action "turn off" in
    default "Action completed successfully."
      ([ "Done! I've " +:+ (if on then "turned on" else if off then "turned off" else action)
           +:+ " the " +:+ entityName +:+ ".";
         entityName +:+ " "
           +:+ (if on then "is now on" else if off then "is now off" else "has been updated")
           +:+ ".";
         "All set! The " +:+ entityName +:+ " "
           +:+ (if on then "is on" else if off then "is off" else "has been changed")
           +:+ "." ] !! roll) in
  match entityId with
  | Some (EntityArray _) => JS.Throw (JS.mkError "entityId.replace is not a function")
  | Some (EntityString s) =>
      JS.Normal (phrases (if JS.string_truthy s
                          then JS.replace_all "_"%char " "%char (JS.strip_domain_prefix s)
                          else domain +:+ " device"))
  | None => JS.Normal (phrases (domain +:+ " device"))
  end.

(** The event ['function_call'] of the OpenAI client: [{ call_id, name,
    arguments }], with arguments of the type [callService] declares. *)
Record FunctionCall := {
  fc_call_id : string;
  fc_name : string;
  fc_arguments : HAServiceCallRequest
}.

(** The object handed to [sendFunctionResult]. *)
Inductive FunctionResult :=
| function_succeeded (result : Payload)
| function_failed (error : string) (user_message : string).

(** The OpenAI client, reduced to its socket being open and the function
    results written to it. *)
Record OpenAIRealtimeClient := {
  openai_open : bool;
  function_outputs : list (string * FunctionResult)
}.

(** [OpenAIRealtimeClient.sendFunctionResult(callId, result)], through
    [send]: dropped silently unless the socket is open. *)
Definition sendFunctionResult (callId : string) (result : FunctionResult)
    (c : OpenAIRealtimeClient) : OpenAIRealtimeClient :=
  if openai_open c
  then {| openai_open := openai_open c;
          function_outputs := function_outputs c ++ [(callId, result)] |}
  else c.

(** The part of [WyomingRealtimeShim] the dispatcher uses: the bridge with
    its event loop, the OpenAI client and the configuration of the
    [VoiceResponseGenerator]. *)
Record WyomingRealtimeShim := {
  haBridge : World;
  openaiClient : OpenAIRealtimeClient;
  voice_allowedDomains : list string
}.

Definition with_haBridge (w : World) (a : WyomingRealtimeShim) : WyomingRealtimeShim :=
  {| haBridge := w; openaiClient := openaiClient a;
     voice_allowedDomains := voice_allowedDomains a |}.

(** The [catch] block of [handleFunctionCall]. *)
Definition function_call_failed (f : FunctionCall) (error : JS.Error)
    (a : WyomingRealtimeShim) : WyomingRealtimeShim :=
  let errorMessage := JS.message error in
  let errorResponse :=
    generateErrorResponse (voice_allowedDomains a) errorMessage
      (domain (fc_arguments f)) (entity_id (fc_arguments f)) in
  {| haBridge := haBridge a;
     openaiClient :=
       sendFunctionResult (fc_call_id f) (function_failed errorMessage errorResponse)
         (openaiClient a);
     voice_allowedDomains := voice_allowedDomains a |}.

(** The end of the [try] block: the successful result goes back. *)
Definition function_call_succeeded (f : FunctionCall) (result : Payload)
    (a : WyomingRealtimeShim) : WyomingRealtimeShim :=
  {| haBridge := haBridge a;
     openaiClient :=
       sendFunctionResult (fc_call_id f) (function_succeeded result) (openaiClient a);
     voice_allowedDomains := voice_allowedDomains a |}.

(** Where [handleFunctionCall] stands: it has sent its result; it is
    suspended at the [await] of the bridge's promise [p]; [callService],
    which it awaits, is itself at its [await] with the verdict computed; or
    [callService] has thrown, and the [catch] block
    ([function_call_failed]) is the next job of this call. *)
Inductive Dispatch :=
| Finished (a : WyomingRealtimeShim)
| Suspended (p : nat) (a : WyomingRealtimeShim)
| Validating (validation : SecurityValidation) (a : WyomingRealtimeShim)
| Refused (error : JS.Error) (a : WyomingRealtimeShim).

(** [handleFunctionCall(functionCall)] as far as it runs in the turn of the
    call.  [callService] stops at its own [await]; [getState] starts by
    awaiting [getStates()], which takes its id at once; an unknown name
    throws inside the [try] and is caught in the same turn. *)
Definition handleFunctionCall (f : FunctionCall) (a : WyomingRealtimeShim) : Dispatch :=
  if String.eqb (fc_name f) "call_service" then
    match callService (fc_arguments f) None (haBridge a) with
    | (AtAwait v, w) => Validating v (with_haBridge w a)
    | (Returned p, w) => Suspended p (with_haBridge w a)
    end
  else if String.eqb (fc_name f) "get_state" then
    let '(p, w) := getStates (haBridge a) in
    Suspended p (with_haBridge w a)
  else
    Finished (function_call_failed f (JS.mkError ("Unknown function: " +:+ fc_name f)) a).

(** The job in which the awaited [callService] runs on with its verdict,
    in the state [a] the jobs before it have left. *)
Definition handleFunctionCall_validated (f : FunctionCall) (v : SecurityValidation)
    (a : WyomingRealtimeShim) : Dispatch :=
  match callService_resume (fc_arguments f) None v (haBridge a) with
  | (Threw error, w) => Refused error (with_haBridge w a)
  | (Awaiting p, w) => Suspended p (with_haBridge w a)
  end.

(** [handleFunctionCall] from the [await] on, once the promise is settled.
    [find states entityId] stands for
    [states.find((s) => s.entity_id === entityId)] on the decoded result
    of [getStates]: it throws when the result is no array of entities and
    is [None] when no entity matches.  Only [call_service] and [get_state]
    ever suspend.  The job runs in the state [a] the jobs before it have
    left. *)
Definition handleFunctionCall_resume
    (find : Payload -> option EntityId -> JS.Completion (option Payload))
    (roll : nat) (f : FunctionCall) (p : nat) (a : WyomingRealtimeShim) : Dispatch :=
  let args := fc_arguments f in
  match promises (loop (haBridge a)) !! p with
  | None => Suspended p a
  | Some (Rejected error) => Finished (function_call_failed f error a)
  | Some (Resolved result) =>
      if String.eqb (fc_name f) "call_service" then
        match generateSuccessResponse (domain args) (service args) (entity_id args) roll with
        | JS.Normal _ => Finished (function_call_succeeded f result a)
        | JS.Throw error => Finished (function_call_failed f error a)
        end
      else
        match find result (entity_id args) with
        | JS.Normal (Some entity) => Finished (function_call_succeeded f entity a)
        | JS.Normal None => Finished (function_call_failed f (JS.mkError "Entity not found") a)
        | JS.Throw error => Finished (function_call_failed f error a)
        end
  end.

(** The bridge of the application goes through the events [evs]. *)
Definition bridge_runs (evs : list Event) (a : WyomingRealtimeShim) : WyomingRealtimeShim :=
  with_haBridge (run (haBridge a) evs) a.

(** [new WyomingRealtimeShim(config)]: one [SecurityController], shared
    with the bridge, and the same [allowedDomains] for the voice
    responses. *)
Definition WyomingRealtimeShim_new (cfg : SecurityConfig) (tok : string) (c : Clock)
    (openai_is_open : bool) : WyomingRealtimeShim :=
  {| haBridge := World_new tok (Some (SecurityController_new cfg)) c;
     openaiClient := {| openai_open := openai_is_open; function_outputs := [] |};
     voice_allowedDomains := allowedDomains cfg |}.

(** ** The control API (src/control-api.ts)

    The route handlers of [createControlAPI] with the two variables they
    close over.  The [/health] route, which reads the process's memory
    figures, and Express's own handling of malformed bodies are left out. *)

Inductive SessionMode := ptt | vad.

Inductive SessionStatus := active | ended.

Record SessionState := {
  sessionId : string;
  mode : SessionMode;
  status : SessionStatus;
  startTime : Z
}.

(** [uuidv4()]: the identifiers it hands out, one after the other. *)
Record UuidSource := { uuid_at : nat -> string; drawn : nat }.

Definition uuidv4 (u : UuidSource) : string * UuidSource :=
  (uuid_at u (drawn u), {| uuid_at := uuid_at u; drawn := S (drawn u) |}).

(** [currentSession] and [vadEnabled], with the clock and the source of
    identifiers the handlers read. *)
Record ControlAPI := {
  currentSession : option SessionState;
  vadEnabled : bool;
  api_clock : Clock;
  api_uuids : UuidSource
}.

(** [createControlAPI()]. *)
Definition createControlAPI (c : Clock) (u : UuidSource) : ControlAPI :=
  {| currentSession := None; vadEnabled := false; api_clock := c; api_uuids := u |}.

(** [req.body.timeout_ms]: absent, a number, or a value of another type
    ([null], a string, ...). *)
Inductive TimeoutField :=
| timeout_undefined
| timeout_number (x : float)
| timeout_other.

(** What the handlers pass to [res.json]; the constant fields of the
    [/status] response are left out. *)
Inductive ResponseBody :=
| error_response (error message : string) (timestamp : Z)
| session_response (session_id : string) (mode : SessionMode) (status : SessionStatus)
    (timestamp : Z) (audio_device : option string)
| vad_response (vad_enabled : bool) (timestamp : Z) (session_id : option string)
| status_response (timestamp : Z) (vad_enabled : bool)
    (current_session : option (string * SessionMode * SessionStatus * Z)).

Record HttpResponse := { status_code : Z; json : ResponseBody }.

(** [res.status(code).json({ error, message, timestamp: new Date()... })]. *)
Definition respond_error (code : Z) (error message : string) (s : ControlAPI)
    : HttpResponse * ControlAPI :=
  let '(t, c) := Date_new (api_clock s) in
  ({| status_code := code; json := error_response error message t |},
   {| currentSession := currentSession s; vadEnabled := vadEnabled s;
      api_clock := c; api_uuids := api_uuids s |}).

(** [typeof timeout_ms !== 'number' || timeout_ms < 1000 || timeout_ms > 300000],
    under [timeout_ms !== undefined]. *)
Definition invalid_timeout (timeout_ms : TimeoutField) : bool :=
  match timeout_ms with
  | timeout_undefined => false
  | timeout_number x => PrimFloat.ltb x 1000%float || PrimFloat.ltb 300000%float x
  | timeout_other => true
  end.

(** [currentSession && currentSession.status === 'active']. *)
Definition session_active (current : option SessionState) : bool :=
  match current with
  | Some session => match status session with active => true | ended => false end
  | None => false
  end.

(** [POST /start_ptt]; [body = None] is a request whose [req.body] is
    [undefined], where the destructuring throws into the [catch]. *)
Definition start_ptt (body : option TimeoutField) (s : ControlAPI)
    : HttpResponse * ControlAPI :=
  match body with
  | None => respond_error 503 "audio-device-error" "Failed to initialize audio capture" s
  | Some timeout_ms =>
      if invalid_timeout timeout_ms then
        respond_error 400 "invalid_timeout" "Timeout must be between 1000 and 300000 ms" s
      else if session_active (currentSession s) then
        respond_error 400 "session_active" "PTT session already active" s
      else
        let '(id, u) := uuidv4 (api_uuids s) in
        let '(started, c1) := Date_new (api_clock s) in
        let '(t, c2) := Date_new c1 in
        ({| status_code := 200;
            json := session_response id ptt active t (Some "Default Input") |},
         {| currentSession :=
              Some {| sessionId := id; mode := ptt; status := active; startTime := started |};
            vadEnabled := vadEnabled s; api_clock := c2; api_uuids := u |})
  end.

(** [POST /stop_ptt]. *)
Definition stop_ptt (s : ControlAPI) : HttpResponse * ControlAPI :=
  match currentSession s with
  | Some session =>
      if session_active (Some session) then
        let '(t, c) := Date_new (api_clock s) in
        ({| status_code := 200;
            json := session_response (sessionId session) ptt ended t None |},
         {| currentSession := None; vadEnabled := vadEnabled s;
            api_clock := c; api_uuids := api_uuids s |})
      else respond_error 400 "no_active_session" "No active PTT session to stop" s
  | None => respond_error 400 "no_active_session" "No active PTT session to stop" s
  end.

(** [currentSession?.mode === 'vad']. *)
Definition session_is_vad (current : option SessionState) : bool :=
  match current with
  | Some session => match mode session with vad => true | ptt => false end
  | None => false
  end.

(** [POST /toggle_vad]; nothing in its [try] block throws. *)
Definition toggle_vad (s : ControlAPI) : HttpResponse * ControlAPI :=
  let enabled := negb (vadEnabled s) in
  let '(t, c1) := Date_new (api_clock s) in
  if enabled && negb (bool_decide (is_Some (currentSession s))) then
    let '(id, u) := uuidv4 (api_uuids s) in
    let '(started, c2) := Date_new c1 in
    ({| status_code := 200; json := vad_response enabled t (Some id) |},
     {| currentSession :=
          Some {| sessionId := id; mode := vad; status := active; startTime := started |};
        vadEnabled := enabled; api_clock := c2; api_uuids := u |})
  else if negb enabled && session_is_vad (currentSession s) then
    ({| status_code := 200; json := vad_response enabled t None |},
     {| currentSession := None; vadEnabled := enabled;
        api_clock := c1; api_uuids := api_uuids s |})
  else
    ({| status_code := 200; json := vad_response enabled t None |},
     {| currentSession := currentSession s; vadEnabled := enabled;
        api_clock := c1; api_uuids := api_uuids s |}).

(** [GET /status]. *)
Definition get_status (s : ControlAPI) : HttpResponse * ControlAPI :=
  let '(t, c1) := Date_new (api_clock s) in
  match currentSession s with
  | Some session =>
      let '(t', c2) := Date_new c1 in
      ({| status_code := 200;
          json := status_response t (vadEnabled s)
                    (Some (sessionId session, mode session, status session, t')) |},
       {| currentSession := currentSession s; vadEnabled := vadEnabled s;
          api_clock := c2; api_uuids := api_uuids s |})
  | None =>
      ({| status_code := 200; json := status_response t (vadEnabled s) None |},
       {| currentSession := currentSession s; vadEnabled := vadEnabled s;
          api_clock := c1; api_uuids := api_uuids s |})
  end.

Inductive HttpRequest :=
| POST_start_ptt (body : option TimeoutField)
| POST_stop_ptt
| POST_toggle_vad
| GET_status.

Definition handle (r : HttpRequest) (s : ControlAPI) : HttpResponse * ControlAPI :=
  match r with
  | POST_start_ptt body => start_ptt body s
  | POST_stop_ptt => stop_ptt s
  | POST_toggle_vad => toggle_vad s
  | GET_status => get_status s
  end.

(** The requests [rs] are served one after the other. *)
Definition serve (s : ControlAPI) (rs : list HttpRequest) : ControlAPI :=
  foldl (fun s' r => snd (handle r s')) s rs.

(** Identifiers that count up, for the examples. *)
Definition counting_uuids : UuidSource :=
  {| uuid_at := fun n => "session-" +:+ JS.nat_to_string n; drawn := 0%nat |}.

(** What holds of the two variables after any sequence of requests: a
    stored session is active, and a stored VAD session implies that VAD is
    switched on. *)
Definition session_invariant (s : ControlAPI) : Prop :=
  forall session, currentSession s = Some session ->
    status session = active /\ (mode session = vad -> vadEnabled s = true).

Definition sample_api : ControlAPI := createControlAPI (ticking_clock 0) counting_uuids.

(** ** Configuration checks (src/config.ts) *)

(** The fields of [Configuration] that [performCustomValidations] reads.
    It runs after the schema check, which makes the three numbers
    integers. *)
Record Configuration := {
  openaiApiKey : string;
  realtimeApiUrl : string;
  haUrl : string;
  conf_allowedDomains : list string;
  conf_entityWhitelist : list string;
  conf_confirmHighRiskActions : bool;
  httpPort : Z;
  sessionSilenceTimeoutMs : Z;
  sessionMaxDurationMs : Z
}.

(** The configuration [new WyomingRealtimeShim(config)] hands to its
    [SecurityController]. *)
Definition security_config (c : Configuration) : SecurityConfig :=
  {| allowedDomains := conf_allowedDomains c;
     entityWhitelist := conf_entityWhitelist c;
     confirmHighRiskActions := conf_confirmHighRiskActions c |}.

(** The class [[a-z_]]. *)
Definition lower_or_underscore (a : ascii) : bool :=
  let n := nat_of_ascii a in
  ((97 <=? n)%nat && (n <=? 122)%nat) || (n =? 95)%nat.

(** The class [[a-z0-9_]]. *)
Definition lower_digit_or_underscore (a : ascii) : bool :=
  let n := nat_of_ascii a in
  lower_or_underscore a || ((48 <=? n)%nat && (n <=? 57)%nat).

(** One or more characters, all of the class. *)
Definition one_or_more (class : ascii -> bool) (s : string) : bool :=
  JS.string_truthy s && forallb class (list_ascii_of_string s).

(** [/^[a-z_]+$/.test(s)]. *)
Definition validDomainPattern (s : string) : bool :=
  one_or_more lower_or_underscore s.

(** The text before and after the first dot. *)
Fixpoint split_at_dot (s : string) : option (string * string) :=
  match s with
  | EmptyString => None
  | String a rest =>
      if Ascii.eqb a "."%char then Some (EmptyString, rest)
      else match split_at_dot rest with
           | Some (before, after) => Some (String a before, after)
           | None => None
           end
  end.

(** [/^[a-z_]+\.[a-z0-9_]+$/.test(s)]: neither class holds the dot, so
    the dot of the pattern is the first dot of [s]. *)
Definition validEntityPattern (s : string) : bool :=
  match split_at_dot s with
  | Some (before, after) =>
      one_or_more lower_or_underscore before && one_or_more lower_digit_or_underscore after
  | None => false
  end.

(** An integer in a template literal. *)
Definition Z_to_string (z : Z) : string := NilZero.string_of_int (Z.to_int z).

(** [performCustomValidations(config)].  [url_error u] is the message of
    the error [new URL(u)] throws, if it throws. *)
Definition performCustomValidations (url_error : string -> option string)
    (c : Configuration) : JS.Completion unit :=
  if negb (String.prefix "sk-" (openaiApiKey c)) then
    JS.Throw (JS.mkError ("OpenAI API key must start with " +:+ JS.dquote +:+ "sk-"
                          +:+ JS.dquote))
  else
    match url_error (realtimeApiUrl c) with
    | Some errorMessage => JS.Throw (JS.mkError ("Invalid URL format: " +:+ errorMessage))
    | None =>
    match url_error (haUrl c) with
    | Some errorMessage => JS.Throw (JS.mkError ("Invalid URL format: " +:+ errorMessage))
    | None =>
    match List.find (fun d => negb (validDomainPattern d)) (conf_allowedDomains c) with
    | Some d => JS.Throw (JS.mkError ("Invalid domain name: " +:+ d))
    | None =>
    match List.find (fun e => negb (validEntityPattern e)) (conf_entityWhitelist c) with
    | Some e => JS.Throw (JS.mkError ("Invalid entity ID: " +:+ e))
    | None =>
        if sessionMaxDurationMs c <=? sessionSilenceTimeoutMs c then
          JS.Throw (JS.mkError "Session silence timeout must be less than maximum duration")
        else if (httpPort c <? 1024) || (65535 <? httpPort c) then
          JS.Throw (JS.mkError ("HTTP port must be between 1024 and 65535, got "
                                +:+ Z_to_string (httpPort c)))
        else JS.Normal tt
    end end end end.

Definition sample_configuration : Configuration :=
  {| openaiApiKey := "sk-test"; realtimeApiUrl := "wss://api.openai.com/v1/realtime";
     haUrl := "ws://supervisor/core/websocket";
     conf_allowedDomains := ["light"; "switch"];
     conf_entityWhitelist := ["light.kitchen"; "switch.fan_2"];
     conf_confirmHighRiskActions := true;
     httpPort := 8080; sessionSilenceTimeoutMs := 5000; sessionMaxDurationMs := 60000 |}.

(** ** Correlation ids (src/logging.ts) *)

(** The module variable [currentCorrelationId], with the source of
    identifiers [getCorrelationId] draws from. *)
Record Correlation := {
  currentCorrelationId : option string;
  correlation_uuids : UuidSource
}.

(** [getCorrelationId()]: an id that is unset or empty is replaced by a
    fresh one. *)
Definition getCorrelationId (s : Correlation) : string * Correlation :=
  let fresh :=
    let '(id, u) := uuidv4 (correlation_uuids s) in
    (id, {| currentCorrelationId := Some id; correlation_uuids := u |}) in
  match currentCorrelationId s with
  | Some id => if JS.string_truthy id then (id, s) else fresh
  | None => fresh
  end.

(** [setCorrelationId(id)]. *)
Definition setCorrelationId (id : string) (s : Correlation) : Correlation :=
  {| currentCorrelationId := Some id; correlation_uuids := correlation_uuids s |}.

(** [clearCorrelationId()]. *)
Definition clearCorrelationId (s : Correlation) : Correlation :=
  {| currentCorrelationId := None; correlation_uuids := correlation_uuids s |}.

(** [withCorrelationId(id, fn)]: [fn] runs with the id set and may itself
    read, set or clear it; the [finally] block puts the previous id back
    whether [fn] returns or throws. *)
Definition withCorrelationId {T : Type} (id : string)
    (fn : Correlation -> JS.Completion T * Correlation) (s : Correlation)
    : JS.Completion T * Correlation :=
  let previousId := currentCorrelationId s in
  let '(result, s1) := fn (setCorrelationId id s) in
  (result, {| currentCorrelationId := previousId; correlation_uuids := correlation_uuids s1 |}).

(** * Properties *)

(** ** Arrays and strings *)

Section Slice.
Context {A : Type}.
Implicit Types l : list A.

(** [slice(-n)] with [n > 0] keeps the last [n] elements. *)
Lemma slice_from_negative (n : Z) l :
  0 < n -> JS.slice_from (- n) l = drop (length l - Z.to_nat n) l.
Proof.
  intros Hn. unfold JS.slice_from.
  destruct (Z.ltb_spec (- n) 0) as [_ | ?]; [| lia].
  f_equal. lia.
Qed.

(** [slice(-0)] is [slice(0)]: the whole array. *)
Lemma slice_from_zero l : JS.slice_from (- 0) l = l.
Proof.
  unfold JS.slice_from.
  destruct (Z.ltb_spec (- 0) 0) as [? | _]; [lia |].
  replace (Z.to_nat (Z.min (- 0) (Z.of_nat (length l)))) with 0%nat by lia.
  reflexivity.
Qed.

Lemma slice_from_suffix (start : Z) l : JS.slice_from start l `suffix_of` l.
Proof. unfold JS.slice_from. apply suffix_drop. Qed.

Lemma slice_from_negative_length (n : Z) l :
  0 < n -> Z.of_nat (length (JS.slice_from (- n) l)) = Z.min n (Z.of_nat (length l)).
Proof.
  intros Hn. rewrite slice_from_negative by done. rewrite length_drop. lia.
Qed.

Lemma slice_from_last (n : Z) l :
  0 < n -> last (JS.slice_from (- n) l) = last l.
Proof.
  intros Hn. rewrite slice_from_negative by done.
  destruct (decide (length l = 0)%nat) as [H0 | Hne].
  - destruct l; [done | discriminate].
  - rewrite !last_lookup, lookup_drop, length_drop.
    f_equal. lia.
Qed.

End Slice.

Lemma includes_spec (l : list string) (x : string) :
  JS.includes l x = true <-> x ∈ l.
Proof. unfold JS.includes. apply bool_decide_eq_true. Qed.

Lemma includes_false (l : list string) (x : string) :
  JS.includes l x = false <-> x ∉ l.
Proof. unfold JS.includes. apply bool_decide_eq_false. Qed.

(** ** The audit log *)

Lemma addAuditEntry_config (a : AuditInput) (e : Env) :
  config (controller (addAuditEntry a e)) = config (controller e).
Proof. reflexivity. Qed.

Lemma addAuditEntry_clock (a : AuditInput) (e : Env) :
  clock (addAuditEntry a e) = snd (Date_new (clock e)).
Proof. reflexivity. Qed.

(** The entry just added is the last of the log. *)
Lemma addAuditEntry_last (a : AuditInput) (e : Env) :
  last (auditEntries (controller (addAuditEntry a e)))
  = Some {| timestamp := fst (Date_new (clock e)); entry := a |}.
Proof.
  unfold addAuditEntry; simpl.
  case_match; simpl.
  - rewrite slice_from_last by (unfold audit_capacity; lia). apply last_snoc.
  - apply last_snoc.
Qed.

(** Whatever the log held, it holds at most [1000] entries after an
    insertion. *)
Lemma addAuditEntry_bounded (a : AuditInput) (e : Env) :
  Z.of_nat (length (auditEntries (controller (addAuditEntry a e)))) <= audit_capacity.
Proof.
  unfold addAuditEntry; simpl.
  destruct (Z.ltb_spec audit_capacity
              (Z.of_nat (length (auditEntries (controller e)
                 ++ [{| timestamp := now_at (clock e) (reads (clock e)); entry := a |}]))))
    as [Hover | Hfits]; simpl.
  - rewrite slice_from_negative_length by (unfold audit_capacity; lia). lia.
  - exact Hfits.
Qed.

(** Below capacity an insertion is a plain [push]. *)
Lemma addAuditEntry_push (a : AuditInput) (e : Env) :
  Z.of_nat (length (auditEntries (controller e))) < audit_capacity ->
  auditEntries (controller (addAuditEntry a e))
  = auditEntries (controller e) ++ [{| timestamp := fst (Date_new (clock e)); entry := a |}].
Proof.
  intros Hlt. unfold addAuditEntry; simpl.
  case_match eqn:Hc; [| done].
  apply Z.ltb_lt in Hc. rewrite length_app in Hc. simpl in Hc. lia.
Qed.

(** ** The paths of [validateServiceCall] *)

Section Paths.
Variables (c : HAServiceCallRequest) (e : Env).

Lemma validate_domain_not_allowed :
  JS.includes (allowedDomains (config (controller e))) (domain c) = false ->
  validateServiceCall c e
  = (set_reason (domain_denial c) initial_validation,
     addAuditEntry (domain_not_allowed_entry c) e).
Proof.
  intros Hd. unfold validateServiceCall, validateServiceCall_try. simpl.
  rewrite Hd. reflexivity.
Qed.

Lemma validate_entity_not_allowed (entityId : string) :
  JS.includes (allowedDomains (config (controller e))) (domain c) = true ->
  first_entity_not_allowed (config (controller e)) c = Some entityId ->
  validateServiceCall c e
  = (set_reason (entity_denial entityId) initial_validation,
     addAuditEntry (entity_not_allowed_entry c entityId) e).
Proof.
  intros Hd He. unfold validateServiceCall, validateServiceCall_try. simpl.
  rewrite Hd, He. reflexivity.
Qed.

Lemma validate_confirmation_required :
  JS.includes (allowedDomains (config (controller e))) (domain c) = true ->
  first_entity_not_allowed (config (controller e)) c = None ->
  gate_open (config (controller e)) c = false ->
  validateServiceCall c e
  = ({| allowed := false;
        reason := Some "Confirmation required for high-risk action";
        requiresConfirmation := true;
        confirmationPrompt := Some (generateConfirmationPrompt c);
        sanitizedEntityId := None |}, e).
Proof.
  intros Hd He Hg. unfold validateServiceCall, validateServiceCall_try. simpl.
  rewrite Hd, He. simpl.
  unfold gate_open in Hg. apply orb_false_iff in Hg as [Hh Hc].
  apply negb_false_iff in Hh. rewrite Hh, Hc. simpl.
  destruct e; reflexivity.
Qed.

Lemma validate_sanitized :
  JS.includes (allowedDomains (config (controller e))) (domain c) = true ->
  first_entity_not_allowed (config (controller e)) c = None ->
  gate_open (config (controller e)) c = true ->
  is_array (entity_id c) = false ->
  validateServiceCall c e
  = ({| allowed := true; reason := None; requiresConfirmation := false;
        confirmationPrompt := None;
        sanitizedEntityId := sanitized_target (entity_id c) |},
     addAuditEntry (service_call_validation_entry c) (after_gate c e)).
Proof.
  intros Hd He Hg Ha. unfold validateServiceCall, validateServiceCall_try. simpl.
  rewrite Hd, He. simpl. unfold after_gate.
  unfold gate_open in Hg.
  destruct (isHighRiskAction c && confirmHighRiskActions (config (controller e))) eqn:Hh; simpl in *.
  - rewrite Hg. simpl. unfold sanitize_and_allow.
    destruct (entity_id c) as [[s | l] |]; try discriminate; simpl;
      [destruct (JS.string_truthy s) |]; reflexivity.
  - unfold sanitize_and_allow.
    destruct (entity_id c) as [[s | l] |]; try discriminate; simpl;
      [destruct (JS.string_truthy s) |]; reflexivity.
Qed.

(** A list of targets reaches [sanitizeEntityId], which throws; the
    [catch] block answers with a denial. *)
Lemma validate_array_error (l : list string) :
  JS.includes (allowedDomains (config (controller e))) (domain c) = true ->
  first_entity_not_allowed (config (controller e)) c = None ->
  gate_open (config (controller e)) c = true ->
  entity_id c = Some (EntityArray l) ->
  validateServiceCall c e
  = (set_reason "Validation error: entityId.replace is not a function" initial_validation,
     after_gate c e).
Proof.
  intros Hd He Hg Ha. unfold validateServiceCall, validateServiceCall_try. simpl.
  rewrite Hd, He. simpl. unfold after_gate.
  unfold gate_open in Hg.
  destruct (isHighRiskAction c && confirmHighRiskActions (config (controller e))) eqn:Hh; simpl in *.
  - rewrite Hg. simpl. unfold sanitize_and_allow. rewrite Ha. reflexivity.
  - unfold sanitize_and_allow. rewrite Ha. reflexivity.
Qed.

End Paths.

Lemma validateServiceCall_verdict (c : HAServiceCallRequest) (e : Env) :
  fst (validateServiceCall c e) = verdict (config (controller e)) c.
Proof.
  unfold verdict.
  destruct (JS.includes (allowedDomains (config (controller e))) (domain c)) eqn:Hd; simpl.
  - destruct (first_entity_not_allowed (config (controller e)) c) as [x |] eqn:He.
    + by rewrite (validate_entity_not_allowed c e x).
    + destruct (gate_open (config (controller e)) c) eqn:Hg; simpl.
      * destruct (is_array (entity_id c)) eqn:Ha.
        -- destruct (entity_id c) as [[s | l] |] eqn:Hid; try discriminate.
           by rewrite (validate_array_error c e l).
        -- by rewrite validate_sanitized.
      * by rewrite validate_confirmation_required.
  - by rewrite validate_domain_not_allowed.
Qed.

(** The configuration is not touched by a validation. *)
Lemma validateServiceCall_config (c : HAServiceCallRequest) (e : Env) :
  config (controller (snd (validateServiceCall c e))) = config (controller e).
Proof.
  destruct (JS.includes (allowedDomains (config (controller e))) (domain c)) eqn:Hd.
  - destruct (first_entity_not_allowed (config (controller e)) c) as [x |] eqn:He.
    + by rewrite (validate_entity_not_allowed c e x).
    + destruct (gate_open (config (controller e)) c) eqn:Hg.
      * assert (config (controller (after_gate c e)) = config (controller e)) as Hcfg.
        { unfold after_gate. by case_match. }
        destruct (is_array (entity_id c)) eqn:Ha.
        -- destruct (entity_id c) as [[s | l] |] eqn:Hid; try discriminate.
           by rewrite (validate_array_error c e l).
        -- by rewrite validate_sanitized.
      * by rewrite validate_confirmation_required.
  - by rewrite validate_domain_not_allowed.
Qed.

(** ** Requests of the bridge *)

Section SendRequest.
Variables (m : RequestMessage) (timeout_ms : option Z) (w : World).

Lemma sendRequest_promise :
  fst (sendRequest m timeout_ms w) = next_promise (loop w).
Proof. reflexivity. Qed.

Lemma sendRequest_pending :
  pendingRequests (bridge (snd (sendRequest m timeout_ms w)))
  = <[id m := {| promise := next_promise (loop w); timeout := next_timer (loop w) |}]>
      (pendingRequests (bridge w)).
Proof.
  destruct w as [[ws0 ? ? ? ? ? ? ? ? ? ?] ? ?]. unfold sendRequest, send; simpl.
  destruct ws0 as [s |]; [destruct (readyState s) |]; reflexivity.
Qed.

Lemma sendRequest_loop :
  loop (snd (sendRequest m timeout_ms w))
  = {| promises := promises (loop w);
       next_promise := S (next_promise (loop w));
       timers := <[next_timer (loop w) :=
                     {| timer_request := id m; timer_promise := next_promise (loop w);
                        delay := default default_timeout timeout_ms |}]> (timers (loop w));
       next_timer := S (next_timer (loop w)) |}.
Proof. reflexivity. Qed.

(** The frame reaches the socket exactly when the socket is open. *)
Lemma sendRequest_ws :
  ws (bridge (snd (sendRequest m timeout_ms w)))
  = match ws (bridge w) with
    | Some s =>
        if ReadyState_eqb (readyState s) OPEN
        then Some {| readyState := readyState s;
                     outbox := outbox s ++ [request_frame m];
                     connect_promise := connect_promise s |}
        else Some s
    | None => None
    end.
Proof.
  destruct w as [[ws0 ? ? ? ? ? ? ? ? ? ?] ? ?]. unfold sendRequest, send; simpl.
  destruct ws0 as [s |]; [destruct (readyState s) |]; reflexivity.
Qed.

Lemma sendRequest_other_fields :
  messageId (bridge (snd (sendRequest m timeout_ms w))) = messageId (bridge w) /\
  connected (bridge (snd (sendRequest m timeout_ms w))) = connected (bridge w) /\
  securityController (bridge (snd (sendRequest m timeout_ms w)))
  = securityController (bridge w) /\
  sys_clock (snd (sendRequest m timeout_ms w)) = sys_clock w.
Proof.
  destruct w as [[ws0 ? ? ? ? ? ? ? ? ? ?] ? ?]. unfold sendRequest, send; simpl.
  destruct ws0 as [s |]; [destruct (readyState s) |]; done.
Qed.

End SendRequest.

Section CallService.
Variables (c : HAServiceCallRequest) (timeout_ms : option Z) (w : World).
Variable sc : SecurityController.
Hypothesis Hsc : securityController (bridge w) = Some sc.

(** With a controller, the call runs the validation and stops at the
    [await]: no request id is taken in the call. *)
Lemma callService_validates :
  callService c timeout_ms w
  = (AtAwait (fst (validateServiceCall c {| controller := sc; clock := sys_clock w |})),
     validated (snd (validateServiceCall c {| controller := sc; clock := sys_clock w |})) w).
Proof.
  unfold callService. rewrite Hsc.
  by destruct (validateServiceCall c {| controller := sc; clock := sys_clock w |}).
Qed.

End CallService.

Section CallServiceResume.
Variables (c : HAServiceCallRequest) (timeout_ms : option Z).
Variables (v : SecurityValidation) (w : World).

(** A denial is thrown before any request id is taken. *)
Lemma callService_resume_denied :
  allowed v = false ->
  callService_resume c timeout_ms v w = (Threw (JS.mkError (default "" (reason v))), w).
Proof. intros Hv. unfold callService_resume. by rewrite Hv. Qed.

(** An allowed call takes the id that is next when it runs on. *)
Lemma callService_resume_issued :
  allowed v = true ->
  callService_resume c timeout_ms v w
  = (Awaiting (next_promise (loop w)),
     snd (sendRequest (call_service_message (messageId (bridge w)) c) timeout_ms
            (snd (next_id w)))).
Proof. intros Hv. unfold callService_resume. by rewrite Hv. Qed.

End CallServiceResume.

(** ** Denied domains *)



(** ** The confirmation gate *)



Lemma validated_same (w : World) (sc : SecurityController) :
  securityController (bridge w) = Some sc ->
  validated {| controller := sc; clock := sys_clock w |} w = w.
Proof.
  destruct w as [[] ? ?]. simpl. intros ->. reflexivity.
Qed.




(** ** Errors inside the [try] block *)

(** Only the sanitising step can throw, and only on a list of targets; the
    frame it leaves behind is the one it was given. *)
Lemma sanitize_and_allow_throw (c : HAServiceCallRequest) (fr fr' : Frame) (error : JS.Error) :
  sanitize_and_allow c fr = (JS.Throw error, fr') ->
  fr' = fr /\ is_array (entity_id c) = true
  /\ error = JS.mkError "entityId.replace is not a function".
Proof.
  unfold sanitize_and_allow.
  destruct (entity_id c) as [[s | l] |]; simpl.
  - destruct (JS.string_truthy s); discriminate.
  - intros [= <- <-]. done.
  - discriminate.
Qed.

(** C10 (amended): [validateServiceCall] is a total function into verdicts;
    when its [try] block throws, the verdict is a denial whose reason is
    ["Validation error: "] followed by the error's message, with no other
    field set; the [catch] block appends nothing to the log, so the log is
    untouched unless the request was a confirmed high-risk one, whose
    [high_risk_confirmed] entry had been appended before the error. *)
Theorem validation_errors_become_denials
  (c : HAServiceCallRequest) (e : Env) (error : JS.Error) (fr : Frame) :
  validateServiceCall_try c {| validation := initial_validation; env := e |}
  = (JS.Throw error, fr) ->
  validateServiceCall c e
  = ({| allowed := false;
        reason := Some ("Validation error: " +:+ JS.message error);
        requiresConfirmation := false; confirmationPrompt := None;
        sanitizedEntityId := None |}, env fr) /\
  (env fr = e \/ env fr = addAuditEntry (high_risk_confirmed_entry c) e) /\
  (isHighRiskAction c && confirmHighRiskActions (config (controller e))
     && confirmed_truthy (confirmed c) = false ->
   env fr = e).
Proof.
  intros Htry. unfold validateServiceCall. rewrite Htry.
  unfold validateServiceCall_try in Htry. simpl in Htry.
  destruct (JS.includes (allowedDomains (config (controller e))) (domain c));
    simpl in Htry; [| discriminate].
  destruct (first_entity_not_allowed (config (controller e)) c); [discriminate |].
  destruct (isHighRiskAction c && confirmHighRiskActions (config (controller e))) eqn:Hrisk;
    simpl in Htry.
  - destruct (confirmed_truthy (confirmed c)) eqn:Hconf; simpl in Htry; [| discriminate].
    apply sanitize_and_allow_throw in Htry as (-> & _ & _). simpl.
    split; [done |]. split; [by right | discriminate].
  - apply sanitize_and_allow_throw in Htry as (-> & _ & _). simpl.
    split; [done |]. split; [by left | done].
Qed.

Lemma validation_errors_become_denials_witness :
  validateServiceCall light_on_listed sample_env
  = (set_reason "Validation error: entityId.replace is not a function" initial_validation,
     sample_env).
Proof.
  pose proof (validation_errors_become_denials light_on_listed sample_env
                (JS.mkError "entityId.replace is not a function")
                {| validation := initial_validation; env := sample_env |} eq_refl)
    as (Hv & _ & Hsame).
  rewrite Hv. f_equal.
Defined.

(** C10 (as stated, refuted): a confirmed high-risk request with a list of
    targets takes the error path, and one audit entry, recording
    [allowed = true], has been appended when the denial is returned. *)
Lemma confirmed_target_list_error_is_audited :
  fst (validateServiceCall_try (with_confirmed true unlock_listed_door)
         {| validation := initial_validation; env := sample_env |})
  = JS.Throw (JS.mkError "entityId.replace is not a function") /\
  fst (validateServiceCall (with_confirmed true unlock_listed_door) sample_env)
  = set_reason "Validation error: entityId.replace is not a function" initial_validation /\
  auditEntries (controller (snd (validateServiceCall (with_confirmed true unlock_listed_door)
                                   sample_env)))
  = [{| timestamp := 0;
        entry := high_risk_confirmed_entry (with_confirmed true unlock_listed_door) |}] /\
  in_allowed (high_risk_confirmed_entry (with_confirmed true unlock_listed_door)) = true.
Proof. repeat split. Qed.

(** ** Where the code departs from the stated behaviour *)

(** C3 (code departs): the confirmation-required verdict is returned with
    the controller, and so its audit log, exactly as it was. *)
Theorem confirmation_required_is_not_audited :
  requiresConfirmation (fst (validateServiceCall unlock_front_door sample_env)) = true /\
  allowed (fst (validateServiceCall unlock_front_door sample_env)) = false /\
  snd (validateServiceCall unlock_front_door sample_env) = sample_env /\
  auditEntries (controller (snd (validateServiceCall unlock_front_door sample_env))) = [].
Proof. repeat split. Qed.

(** C4 (code departs): [set_temperature] to [0], outside the band, on a
    domain and target that are not high-impact, is not classified
    high-risk, although [0 < 10]; the same request with [5] is. *)
Theorem zero_temperature_is_not_high_risk :
  PrimFloat.ltb 0%float 10%float = true /\
  isHighRiskAction boiler_to_zero = false /\
  isHighRiskAction
    {| domain := "water_heater"; service := "set_temperature";
       entity_id := Some (EntityString "water_heater.boiler");
       data := Some {| temperature := Some 5%float |}; confirmed := None |} = true.
Proof. repeat split. Qed.

(** C5 (code departs): a request that passes every check but names its
    targets in a list is refused with a validation error instead of being
    allowed with a sanitised target, and nothing is audited. *)
Theorem target_list_is_not_sanitized :
  JS.includes (allowedDomains sample_config) (domain light_on_listed) = true /\
  first_entity_not_allowed sample_config light_on_listed = None /\
  isHighRiskAction light_on_listed = false /\
  validateServiceCall light_on_listed sample_env
  = ({| allowed := false;
        reason := Some "Validation error: entityId.replace is not a function";
        requiresConfirmation := false; confirmationPrompt := None;
        sanitizedEntityId := None |}, sample_env).
Proof. repeat split. Qed.

(** C9 (code departs): [getAuditLog(0)] is [slice(-0)], the whole log, not
    the empty list. *)
Theorem getAuditLog_zero_returns_everything :
  let sc := controller (addAuditEntry (service_call_validation_entry light_on) sample_env) in
  length (auditEntries sc) = 1%nat /\
  getAuditLog 0 sc = auditEntries sc /\
  length (getAuditLog 0 sc) = 1%nat.
Proof. repeat split. Qed.

(** ** Requests and the state of the connection *)

Lemma getStates_execute (w : World) : getStates w = execute get_states None w.
Proof. reflexivity. Qed.

Lemma unsubscribeEvents_execute (subscriptionId : Z) (w : World) :
  unsubscribeEvents subscriptionId w = execute (unsubscribe_events subscriptionId) None w.
Proof. reflexivity. Qed.

Lemma callService_resume_execute
  (c : HAServiceCallRequest) (timeout_ms : option Z) (v : SecurityValidation) (w : World) :
  allowed v = true ->
  callService_resume c timeout_ms v w
  = (Awaiting (fst (execute (call_service_body c) timeout_ms w)),
     snd (execute (call_service_body c) timeout_ms w)).
Proof. intros Hv. by rewrite (callService_resume_issued c timeout_ms v w Hv). Qed.

Section Execute.
Variables (b : RequestBody) (timeout_ms : option Z) (w : World).

Lemma execute_unfold :
  execute b timeout_ms w
  = sendRequest {| id := messageId (bridge w); body := b |} timeout_ms
      (update_bridge (with_messageId (messageId (bridge w) + 1)) w).
Proof. reflexivity. Qed.

Lemma execute_promise : fst (execute b timeout_ms w) = next_promise (loop w).
Proof. reflexivity. Qed.

Lemma execute_messageId :
  messageId (bridge (snd (execute b timeout_ms w))) = messageId (bridge w) + 1.
Proof.
  rewrite execute_unfold. by rewrite (proj1 (sendRequest_other_fields _ _ _)).
Qed.

Lemma execute_pending :
  pendingRequests (bridge (snd (execute b timeout_ms w)))
  = <[messageId (bridge w) :=
        {| promise := next_promise (loop w); timeout := next_timer (loop w) |}]>
      (pendingRequests (bridge w)).
Proof. rewrite execute_unfold. by rewrite sendRequest_pending. Qed.

Lemma execute_loop :
  loop (snd (execute b timeout_ms w))
  = {| promises := promises (loop w);
       next_promise := S (next_promise (loop w));
       timers := <[next_timer (loop w) :=
                     {| timer_request := messageId (bridge w);
                        timer_promise := next_promise (loop w);
                        delay := default default_timeout timeout_ms |}]> (timers (loop w));
       next_timer := S (next_timer (loop w)) |}.
Proof. reflexivity. Qed.

Lemma execute_ws :
  ws (bridge (snd (execute b timeout_ms w)))
  = match ws (bridge w) with
    | Some s =>
        if ReadyState_eqb (readyState s) OPEN
        then Some {| readyState := readyState s;
                     outbox := outbox s
                               ++ [request_frame {| id := messageId (bridge w); body := b |}];
                     connect_promise := connect_promise s |}
        else Some s
    | None => None
    end.
Proof. rewrite execute_unfold. by rewrite sendRequest_ws. Qed.

Lemma execute_once :
  once_auth_ok (bridge (snd (execute b timeout_ms w))) = once_auth_ok (bridge w) /\
  once_auth_invalid (bridge (snd (execute b timeout_ms w))) = once_auth_invalid (bridge w).
Proof.
  destruct w as [[ws0 ? ? ? ? ? ? ? ? ? ?] ? ?]. unfold execute, sendRequest, send; simpl.
  destruct ws0 as [s |]; [destruct (readyState s) |]; done.
Qed.

End Execute.

(** ** Invariants of the bridge *)

Section Settle.
Variables (q : nat) (s : Settlement) (l : EventLoop).

Lemma settle_counters :
  next_promise (settle q s l) = next_promise l /\
  timers (settle q s l) = timers l /\
  next_timer (settle q s l) = next_timer l.
Proof. unfold settle. by case_match. Qed.

Lemma settle_other (q' : nat) :
  q' ≠ q -> promises (settle q s l) !! q' = promises l !! q'.
Proof.
  intros Hne. unfold settle. case_match; [done |]. simpl.
  by rewrite lookup_insert_ne.
Qed.

Lemma settle_keeps (q' : nat) (x : Settlement) :
  promises l !! q' = Some x -> promises (settle q s l) !! q' = Some x.
Proof.
  intros Hq. unfold settle. case_match eqn:Hl; [done |]. simpl.
  rewrite lookup_insert_ne; [done |]. congruence.
Qed.

Lemma settle_unsettled :
  promises l !! q = None -> promises (settle q s l) !! q = Some s.
Proof. intros Hq. unfold settle. rewrite Hq. simpl. apply lookup_insert_eq. Qed.

Lemma settle_inv (q' : nat) (x : Settlement) :
  promises (settle q s l) !! q' = Some x -> promises l !! q' = Some x \/ q' = q.
Proof.
  unfold settle. case_match; [by left |]. simpl.
  destruct (decide (q = q')) as [-> | Hne]; [by right |].
  rewrite lookup_insert_ne by done. by left.
Qed.

End Settle.

Lemma well_formed_same_core (w w' : World) :
  same_core w w' -> well_formed w -> well_formed w'.
Proof.
  intros (Hl & Hp & Hm & Hok & Hinv & Hws) [].
  constructor; rewrite ?Hl, ?Hp, ?Hm, ?Hws; try done.
  - rewrite Forall_forall in *. auto.
  - rewrite Forall_forall in *. auto.
Qed.

Lemma outstanding_same_core (i : Z) (p h : nat) (d : Z) (w w' : World) :
  same_core w w' -> outstanding i p h d w -> outstanding i p h d w'.
Proof.
  intros (Hl & Hp & Hm & Hok & Hinv & Hws) [].
  constructor; rewrite ?Hl, ?Hp, ?Hm, ?Hws; try done; auto.
Qed.

Lemma settled_same_core (i : Z) (p : nat) (s : Settlement) (w w' : World) :
  same_core w w' -> settled i p s w -> settled i p s w'.
Proof.
  intros (Hl & Hp & Hm & Hok & Hinv & Hws) [].
  constructor; rewrite ?Hl, ?Hp, ?Hm; done.
Qed.

Lemma same_core_refl (w : World) : same_core w w.
Proof. by repeat split. Qed.

(** Steps that leave the core alone. *)
Lemma emit_same_core (name : string) (a : Payload) (w : World) :
  same_core w (update_bridge (emit name a) w).
Proof. by repeat split. Qed.

Lemma on_open_same_core (w : World) : same_core w (on_open w).
Proof.
  unfold on_open. destruct (ws (bridge w)) as [s |] eqn:Hws; [| by repeat split].
  repeat split; simpl; try done. by rewrite Hws.
Qed.

Lemma on_close_same_core (r : Payload) (w : World) : same_core w (on_close r w).
Proof.
  unfold on_close. destruct (ws (bridge w)) as [s |] eqn:Hws; repeat split; simpl;
    by rewrite ?Hws.
Qed.

Lemma validated_same_core (e : Env) (w : World) : same_core w (validated e w).
Proof. by repeat split. Qed.

Lemma send_same (m : WireMessage) (b : HABridge) :
  pendingRequests (send m b) = pendingRequests b /\ messageId (send m b) = messageId b /\
  once_auth_ok (send m b) = once_auth_ok b /\
  once_auth_invalid (send m b) = once_auth_invalid b /\
  (connect_promise <$> ws (send m b)) = (connect_promise <$> ws b).
Proof.
  unfold send. destruct (ws b) as [s |] eqn:Hws; [| by rewrite Hws].
  destruct (ReadyState_eqb (readyState s) OPEN); simpl; by rewrite ?Hws.
Qed.

Lemma authenticate_iter_same (n : nat) (b : HABridge) :
  pendingRequests (Nat.iter n authenticate b) = pendingRequests b /\
  messageId (Nat.iter n authenticate b) = messageId b /\
  once_auth_ok (Nat.iter n authenticate b) = once_auth_ok b /\
  once_auth_invalid (Nat.iter n authenticate b) = once_auth_invalid b /\
  (connect_promise <$> ws (Nat.iter n authenticate b)) = (connect_promise <$> ws b).
Proof.
  induction n as [| n (IH1 & IH2 & IH3 & IH4 & IH5)]; simpl; [done |].
  change (authenticate (Nat.iter n authenticate b))
    with (send (auth_frame (token (Nat.iter n authenticate b))) (Nat.iter n authenticate b)).
  destruct (send_same (auth_frame (token (Nat.iter n authenticate b)))
              (Nat.iter n authenticate b)) as (H1 & H2 & H3 & H4 & H5).
  repeat split; congruence.
Qed.

(** *** Settling a promise *)

Lemma well_formed_settle_in (q : nat) (s : Settlement) (w : World) :
  (q < next_promise (loop w))%nat -> well_formed w -> well_formed (settle_in q s w).
Proof.
  intros Hq [].
  destruct (settle_counters q s (loop w)) as (Hn & Ht & Hnt).
  constructor; simpl; rewrite ?Hn, ?Ht, ?Hnt; try done.
  intros q' x [Hold | ->]%settle_inv; eauto.
Qed.

Lemma outstanding_settle_in (i : Z) (p h : nat) (d : Z) (q : nat) (s : Settlement) (w : World) :
  q ≠ p -> outstanding i p h d w -> outstanding i p h d (settle_in q s w).
Proof.
  intros Hq [].
  destruct (settle_counters q s (loop w)) as (Hn & Ht & Hnt).
  constructor; simpl; rewrite ?Hn, ?Ht, ?Hnt; try done.
  by rewrite settle_other.
Qed.

Lemma settled_settle_in (i : Z) (p : nat) (x : Settlement) (q : nat) (s : Settlement) (w : World) :
  settled i p x w -> settled i p x (settle_in q s w).
Proof.
  intros []. constructor; simpl; try done. by apply settle_keeps.
Qed.

(** *** Dropping an entry and its timer *)

Lemma well_formed_forget (i : Z) (h : nat) (w : World) :
  well_formed w -> well_formed (forget i h w).
Proof.
  intros []. constructor; simpl; try done.
  - intros h' t [_ Hold]%lookup_delete_Some. eauto.
  - intros i' r [_ Hold]%lookup_delete_Some. eauto.
Qed.

Lemma outstanding_forget (i : Z) (p h : nat) (d : Z) (i' : Z) (h' : nat) (w : World) :
  i' ≠ i -> h' ≠ h -> outstanding i p h d w -> outstanding i p h d (forget i' h' w).
Proof.
  intros Hi Hh []. constructor; simpl; try done.
  - by rewrite lookup_delete_ne.
  - by rewrite lookup_delete_ne.
  - intros h'' t [_ Hold]%lookup_delete_Some. eauto.
  - intros i'' r [_ Hold]%lookup_delete_Some. eauto.
Qed.

Lemma settled_forget (i : Z) (p : nat) (x : Settlement) (i' : Z) (h' : nat) (w : World) :
  settled i p x w -> settled i p x (forget i' h' w).
Proof.
  intros []. constructor; simpl; try done.
  apply lookup_delete_None. by right.
Qed.

(** *** Issuing a request *)

Lemma execute_ws_promise (b : RequestBody) (timeout_ms : option Z) (w : World) :
  connect_promise <$> ws (bridge (snd (execute b timeout_ms w)))
  = connect_promise <$> ws (bridge w).
Proof.
  rewrite execute_ws. destruct (ws (bridge w)) as [s |]; [| done].
  by destruct (ReadyState_eqb (readyState s) OPEN).
Qed.

Lemma well_formed_execute (b : RequestBody) (timeout_ms : option Z) (w : World) :
  well_formed w -> well_formed (snd (execute b timeout_ms w)).
Proof.
  intros [Hp Ht Hr Hok Hinv Hws].
  destruct (execute_once b timeout_ms w) as (Eok & Einv).
  constructor;
    rewrite ?execute_loop, ?execute_pending, ?execute_messageId, ?Eok, ?Einv,
      ?execute_ws_promise; simpl.
  - intros q s Hq. apply Hp in Hq. lia.
  - intros h t [[<- <-] | [_ Hold]]%lookup_insert_Some; simpl; [lia |].
    apply Ht in Hold. lia.
  - intros i r [[<- <-] | [_ Hold]]%lookup_insert_Some; simpl; [lia |].
    apply Hr in Hold. lia.
  - eapply Forall_impl; [exact Hok |]. simpl. lia.
  - eapply Forall_impl; [exact Hinv |]. simpl. lia.
  - intros q Hq. apply Hws in Hq. lia.
Qed.

Lemma outstanding_execute
  (i : Z) (p h : nat) (d : Z) (b : RequestBody) (timeout_ms : option Z) (w : World) :
  outstanding i p h d w -> outstanding i p h d (snd (execute b timeout_ms w)).
Proof.
  intros [Hr Ht Hp (Bi & Bp & Bh) Hot Hor Hok Hinv Hws].
  destruct (execute_once b timeout_ms w) as (Eok & Einv).
  constructor;
    rewrite ?execute_loop, ?execute_pending, ?execute_messageId, ?Eok, ?Einv,
      ?execute_ws_promise; simpl; try done.
  - rewrite lookup_insert_ne; [done | lia].
  - rewrite lookup_insert_ne; [done | lia].
  - lia.
  - intros h' t [[<- <-] | [_ Hold]]%lookup_insert_Some Hne; simpl; [lia | eauto].
  - intros i' r [[<- <-] | [_ Hold]]%lookup_insert_Some Hne; simpl; [lia | eauto].
Qed.

Lemma settled_execute
  (i : Z) (p : nat) (x : Settlement) (b : RequestBody) (timeout_ms : option Z) (w : World) :
  settled i p x w -> settled i p x (snd (execute b timeout_ms w)).
Proof.
  intros [Hold Hgone Hset].
  constructor; rewrite ?execute_loop, ?execute_pending, ?execute_messageId; simpl.
  - lia.
  - rewrite lookup_insert_ne; [done | lia].
  - done.
Qed.

(** *** Connecting and disconnecting *)

Lemma well_formed_connect (w : World) : well_formed w -> well_formed (snd (connect w)).
Proof.
  intros [Hp Ht Hr Hok Hinv Hws]. constructor; simpl.
  - intros q s Hq. apply Hp in Hq. lia.
  - intros h t Hh. apply Ht in Hh. lia.
  - intros i r Hi. apply Hr in Hi. lia.
  - apply Forall_app. split; [| by repeat constructor].
    eapply Forall_impl; [exact Hok |]. simpl. lia.
  - apply Forall_app. split; [| by repeat constructor].
    eapply Forall_impl; [exact Hinv |]. simpl. lia.
  - intros q [= <-]. lia.
Qed.

Lemma outstanding_connect (i : Z) (p h : nat) (d : Z) (w : World) :
  outstanding i p h d w -> outstanding i p h d (snd (connect w)).
Proof.
  intros [Hr Ht Hp (Bi & Bp & Bh) Hot Hor Hok Hinv Hws]. constructor; simpl; try done.
  - lia.
  - rewrite not_elem_of_app, list_elem_of_singleton. split; [done | lia].
  - rewrite not_elem_of_app, list_elem_of_singleton. split; [done | lia].
  - intros [= Heq]. lia.
Qed.

Lemma settled_connect (i : Z) (p : nat) (x : Settlement) (w : World) :
  settled i p x w -> settled i p x (snd (connect w)).
Proof. intros []. by constructor. Qed.

Lemma well_formed_disconnect (w : World) : well_formed w -> well_formed (disconnect w).
Proof. intros []. by constructor. Qed.

Lemma outstanding_disconnect (i : Z) (p h : nat) (d : Z) (w : World) :
  outstanding i p h d w -> outstanding i p h d (disconnect w).
Proof. intros []. by constructor. Qed.

Lemma settled_disconnect (i : Z) (p : nat) (x : Settlement) (w : World) :
  settled i p x w -> settled i p x (disconnect w).
Proof. intros []. by constructor. Qed.

(** *** The shape of each handler *)

Lemma timeout_callback_cases (h : nat) (w : World) :
  timeout_callback h w = w \/
  exists t, timers (loop w) !! h = Some t /\
    timeout_callback h w
    = settle_in (timer_promise t) (Rejected request_timeout) (forget (timer_request t) h w).
Proof.
  unfold timeout_callback. destruct (timers (loop w) !! h) as [t |]; [| by left].
  right. by exists t.
Qed.

Lemma handleResponse_cases (m : InboundMessage) (w : World) :
  handleResponse m w = w \/
  exists i r o, msg_id m = Some i /\ pendingRequests (bridge w) !! i = Some r /\
    handleResponse m w = settle_in (promise r) o (forget i (timeout r) w).
Proof.
  unfold handleResponse. destruct (msg_id m) as [i |]; [| by left].
  destruct (pendingRequests (bridge w) !! i) as [r |] eqn:Hr; [| by left].
  right. exists i, r. eexists. split; [done |]. split; [done |]. reflexivity.
Qed.

Lemma auth_ok_listener_core (w : World) (q : nat) :
  same_core (settle_in q (Resolved "") w) (auth_ok_listener w q).
Proof. by repeat split. Qed.

Lemma auth_invalid_listener_core (text : Payload) (w : World) (q : nat) :
  same_core
    (settle_in q (Rejected (JS.mkError ("Authentication failed: " +:+ text))) w)
    (auth_invalid_listener text w q).
Proof. by repeat split. Qed.

Lemma on_error_cases (text : Payload) (w : World) :
  same_core w (on_error text w) \/
  exists q s w1, same_core w w1 /\ connect_promise <$> ws (bridge w) = Some q /\
    on_error text w = settle_in q s w1.
Proof.
  unfold on_error. destruct (ws (bridge w)) as [s |] eqn:Hws.
  - right. exists (connect_promise s). eexists. eexists.
    split; [apply (emit_same_core "connection_error" text) |]. split; [done |]. reflexivity.
  - left. apply emit_same_core.
Qed.

Lemma handleEvent_same_core (event : option EventBody) (w : World) :
  same_core w
    match handleEvent event w with
    | JS.Normal w' => w'
    | JS.Throw error => update_bridge (emit "message_error" (JS.message error)) w
    end.
Proof.
  unfold handleEvent. destruct event as [ev |]; [| apply emit_same_core].
  destruct (String.eqb (event_type ev) "state_changed"); [apply emit_same_core |].
  destruct (String.eqb (event_type ev) "hue_event"); [apply emit_same_core |].
  apply same_core_refl.
Qed.

(** What an inbound frame can do: nothing to the core, settle a response,
    or run the [once] listeners of the handshake. *)
Lemma on_message_cases (data : option InboundMessage) (w : World) :
  same_core w (on_message data w) \/
  (exists m, data = Some m /\ msg_type m = "result" /\ on_message data w = handleResponse m w) \/
  (exists w1, same_core w w1 /\
     on_message data w = foldl auth_ok_listener w1 (once_auth_ok (bridge w))) \/
  (exists text w1, same_core w w1 /\
     on_message data w = foldl (auth_invalid_listener text) w1 (once_auth_invalid (bridge w))).
Proof.
  destruct data as [m |]; [| left; apply emit_same_core].
  unfold on_message, handleMessage.
  destruct (String.eqb (msg_type m) "auth_required").
  { left.
    destruct (authenticate_iter_same (once_auth_required (bridge w))
                (with_once 0 (once_auth_ok (bridge w)) (once_auth_invalid (bridge w))
                   (emit "auth_required" "" (bridge w)))) as (H1 & H2 & H3 & H4 & H5).
    repeat split; simpl; rewrite ?H1, ?H2, ?H3, ?H4, ?H5; done. }
  destruct (String.eqb (msg_type m) "auth_ok").
  { right; right; left. eexists. split; [| reflexivity].
    repeat split; simpl; try done. apply list_subseteq_nil. }
  destruct (String.eqb (msg_type m) "auth_invalid").
  { right; right; right. eexists. eexists. split; [| reflexivity].
    repeat split; simpl; try done. apply list_subseteq_nil. }
  destruct (String.eqb (msg_type m) "result") eqn:Hres; simpl.
  { destruct (msg_id_truthy m).
    - right; left. exists m. apply String.eqb_eq in Hres. done.
    - destruct (String.eqb (msg_type m) "event"); [| left; apply same_core_refl].
      left. apply handleEvent_same_core. }
  destruct (String.eqb (msg_type m) "event"); [| left; apply same_core_refl].
  left. apply handleEvent_same_core.
Qed.

Lemma callService_cases (c : HAServiceCallRequest) (timeout_ms : option Z) (w : World) :
  exists w1, same_core w w1 /\
    (snd (callService c timeout_ms w) = w1 \/
     snd (callService c timeout_ms w) = snd (execute (call_service_body c) timeout_ms w1)).
Proof.
  unfold callService. destruct (securityController (bridge w)) as [sc |].
  - destruct (validateServiceCall c {| controller := sc; clock := sys_clock w |}) as [v e].
    exists (validated e w). split; [apply validated_same_core | by left].
  - exists w. split; [apply same_core_refl | by right].
Qed.

Lemma callService_resume_cases
  (c : HAServiceCallRequest) (timeout_ms : option Z) (v : SecurityValidation) (w : World) :
  snd (callService_resume c timeout_ms v w) = w \/
  snd (callService_resume c timeout_ms v w) = snd (execute (call_service_body c) timeout_ms w).
Proof. unfold callService_resume. destruct (allowed v); simpl; [by right | by left]. Qed.

(** *** The [once] listeners of the handshake *)

Section Listeners.
Variable listener : World -> nat -> World.
Hypothesis listener_settles :
  forall w q, exists s, same_core (settle_in q s w) (listener w q).

Lemma well_formed_listeners (qs : list nat) (w : World) :
  Forall (fun q => (q < next_promise (loop w))%nat) qs ->
  well_formed w -> well_formed (foldl listener w qs).
Proof.
  revert w. induction qs as [| q qs IH]; simpl; intros w Hqs Hwf; [done |].
  apply Forall_cons in Hqs as [Hq Hqs].
  destruct (listener_settles w q) as [s Hs].
  apply IH.
  - destruct Hs as (-> & _). simpl.
    by rewrite (proj1 (settle_counters q s (loop w))).
  - eapply well_formed_same_core; [exact Hs |]. by apply well_formed_settle_in.
Qed.

Lemma outstanding_listeners (i : Z) (p h : nat) (d : Z) (qs : list nat) (w : World) :
  p ∉ qs -> outstanding i p h d w -> outstanding i p h d (foldl listener w qs).
Proof.
  revert w. induction qs as [| q qs IH]; simpl; intros w Hp Hout; [done |].
  apply not_elem_of_cons in Hp as [Hne Hp].
  destruct (listener_settles w q) as [s Hs].
  apply IH; [done |].
  eapply outstanding_same_core; [exact Hs |]. apply outstanding_settle_in; [congruence | done].
Qed.

Lemma settled_listeners (i : Z) (p : nat) (x : Settlement) (qs : list nat) (w : World) :
  settled i p x w -> settled i p x (foldl listener w qs).
Proof.
  revert w. induction qs as [| q qs IH]; simpl; intros w Hset; [done |].
  destruct (listener_settles w q) as [s Hs].
  apply IH. eapply settled_same_core; [exact Hs |]. by apply settled_settle_in.
Qed.

End Listeners.

Lemma auth_ok_listener_settles (w : World) (q : nat) :
  exists s, same_core (settle_in q s w) (auth_ok_listener w q).
Proof. eexists. apply auth_ok_listener_core. Qed.

Lemma auth_invalid_listener_settles (text : Payload) (w : World) (q : nat) :
  exists s, same_core (settle_in q s w) (auth_invalid_listener text w q).
Proof. eexists. apply auth_invalid_listener_core. Qed.

(** *** Every step keeps the invariants *)

Lemma well_formed_step (w : World) (ev : Event) :
  well_formed w -> well_formed (step w ev).
Proof.
  intros Hwf. destruct ev as [| data | text | r | h | | | c t | | t | s | c t v]; cbn [step].
  - eapply well_formed_same_core; [apply on_open_same_core | done].
  - destruct (on_message_cases data w)
      as [Hsame | [(m & _ & _ & ->) | [(w1 & Hsame & ->) | (text & w1 & Hsame & ->)]]].
    + by eapply well_formed_same_core.
    + destruct (handleResponse_cases m w) as [-> | (i & r & o & _ & Hr & ->)]; [done |].
      apply well_formed_settle_in; [| by apply well_formed_forget].
      apply (wf_pending w Hwf) in Hr. simpl. lia.
    + apply (well_formed_listeners _ auth_ok_listener_settles).
      * destruct Hsame as (-> & _). apply (wf_once_ok w Hwf).
      * by eapply well_formed_same_core.
    + apply (well_formed_listeners _ (auth_invalid_listener_settles text)).
      * destruct Hsame as (-> & _). apply (wf_once_invalid w Hwf).
      * by eapply well_formed_same_core.
  - destruct (on_error_cases text w) as [Hsame | (q & s & w1 & Hsame & Hq & ->)].
    + by eapply well_formed_same_core.
    + apply well_formed_settle_in; [| by eapply well_formed_same_core].
      destruct Hsame as (-> & _). by apply (wf_ws w Hwf).
  - eapply well_formed_same_core; [apply on_close_same_core | done].
  - destruct (timeout_callback_cases h w) as [-> | (t & Ht & ->)]; [done |].
    apply well_formed_settle_in; [| by apply well_formed_forget].
    apply (wf_timers w Hwf) in Ht. simpl. lia.
  - by apply well_formed_connect.
  - by apply well_formed_disconnect.
  - destruct (callService_cases c t w) as (w1 & Hsame & [-> | ->]).
    + by eapply well_formed_same_core.
    + apply well_formed_execute. by eapply well_formed_same_core.
  - by apply (well_formed_execute get_states None).
  - by apply (well_formed_execute (subscribe_events _) None).
  - by apply (well_formed_execute (unsubscribe_events s) None).
  - destruct (callService_resume_cases c t v w) as [-> | ->];
      [done | by apply well_formed_execute].
Qed.

Lemma well_formed_run (evs : list Event) (w : World) :
  well_formed w -> well_formed (run w evs).
Proof.
  revert w. induction evs as [| ev evs IH]; simpl; intros w Hwf; [done |].
  apply IH. by apply well_formed_step.
Qed.

Lemma well_formed_new (tok : string) (sc : option SecurityController) (c : Clock) :
  well_formed (World_new tok sc c).
Proof. constructor; simpl; try done; intros ? ? H; by rewrite lookup_empty in H. Qed.

Lemma outstanding_step (i : Z) (p h : nat) (d : Z) (w : World) (ev : Event) :
  outstanding i p h d w -> ~ cites i ev -> ev <> timer_elapsed h ->
  outstanding i p h d (step w ev).
Proof.
  intros Hout Hcite Hfire.
  destruct ev as [| data | text | r | h' | | | c t | | t | s | c t v]; cbn [step].
  - eapply outstanding_same_core; [apply on_open_same_core | done].
  - destruct (on_message_cases data w)
      as [Hsame | [(m & -> & Hres & ->) | [(w1 & Hsame & ->) | (text & w1 & Hsame & ->)]]].
    + by eapply outstanding_same_core.
    + destruct (handleResponse_cases m w) as [-> | (i' & r & o & Hid & Hr & ->)]; [done |].
      assert (i' <> i) as Hne by (intros ->; apply Hcite; by split).
      destruct (out_other_pending _ _ _ _ _ Hout i' r Hr Hne) as [Hp Hh].
      apply outstanding_settle_in; [done |]. by apply outstanding_forget.
    + apply (outstanding_listeners _ auth_ok_listener_settles).
      * apply (out_once_ok _ _ _ _ _ Hout).
      * by eapply outstanding_same_core.
    + apply (outstanding_listeners _ (auth_invalid_listener_settles text)).
      * apply (out_once_invalid _ _ _ _ _ Hout).
      * by eapply outstanding_same_core.
  - destruct (on_error_cases text w) as [Hsame | (q & s & w1 & Hsame & Hq & ->)].
    + by eapply outstanding_same_core.
    + apply outstanding_settle_in; [| by eapply outstanding_same_core].
      intros ->. by apply (out_ws _ _ _ _ _ Hout).
  - eapply outstanding_same_core; [apply on_close_same_core | done].
  - destruct (timeout_callback_cases h' w) as [-> | (t & Ht & ->)]; [done |].
    assert (h' <> h) as Hne by congruence.
    destruct (out_other_timers _ _ _ _ _ Hout h' t Ht Hne) as [Hi Hp].
    apply outstanding_settle_in; [done |]. by apply outstanding_forget.
  - by apply outstanding_connect.
  - by apply outstanding_disconnect.
  - destruct (callService_cases c t w) as (w1 & Hsame & [-> | ->]).
    + by eapply outstanding_same_core.
    + apply outstanding_execute. by eapply outstanding_same_core.
  - by apply (outstanding_execute _ _ _ _ get_states None).
  - by apply (outstanding_execute _ _ _ _ (subscribe_events _) None).
  - by apply (outstanding_execute _ _ _ _ (unsubscribe_events s) None).
  - destruct (callService_resume_cases c t v w) as [-> | ->];
      [done | by apply outstanding_execute].
Qed.

Lemma settled_step (i : Z) (p : nat) (x : Settlement) (w : World) (ev : Event) :
  settled i p x w -> settled i p x (step w ev).
Proof.
  intros Hset. destruct ev as [| data | text | r | h | | | c t | | t | s | c t v]; cbn [step].
  - eapply settled_same_core; [apply on_open_same_core | done].
  - destruct (on_message_cases data w)
      as [Hsame | [(m & _ & _ & ->) | [(w1 & Hsame & ->) | (text & w1 & Hsame & ->)]]].
    + by eapply settled_same_core.
    + destruct (handleResponse_cases m w) as [-> | (i' & r & o & _ & _ & ->)]; [done |].
      apply settled_settle_in. by apply settled_forget.
    + apply (settled_listeners _ auth_ok_listener_settles). by eapply settled_same_core.
    + apply (settled_listeners _ (auth_invalid_listener_settles text)).
      by eapply settled_same_core.
  - destruct (on_error_cases text w) as [Hsame | (q & s & w1 & Hsame & _ & ->)].
    + by eapply settled_same_core.
    + apply settled_settle_in. by eapply settled_same_core.
  - eapply settled_same_core; [apply on_close_same_core | done].
  - destruct (timeout_callback_cases h w) as [-> | (t & _ & ->)]; [done |].
    apply settled_settle_in. by apply settled_forget.
  - by apply settled_connect.
  - by apply settled_disconnect.
  - destruct (callService_cases c t w) as (w1 & Hsame & [-> | ->]).
    + by eapply settled_same_core.
    + apply settled_execute. by eapply settled_same_core.
  - by apply (settled_execute _ _ _ get_states None).
  - by apply (settled_execute _ _ _ (subscribe_events _) None).
  - by apply (settled_execute _ _ _ (unsubscribe_events s) None).
  - destruct (callService_resume_cases c t v w) as [-> | ->];
      [done | by apply settled_execute].
Qed.

(** ** Requests before the handshake has finished *)

(** A fresh promise is unsettled. *)
Lemma fresh_promise_unsettled (w : World) :
  well_formed w -> promises (loop w) !! next_promise (loop w) = None.
Proof.
  intros Hwf. destruct (promises (loop w) !! next_promise (loop w)) eqn:Hp; [| done].
  apply (wf_promises w Hwf) in Hp. lia.
Qed.

(** C6 (amended): a request is not rejected for want of a ready connection;
    [connected] is neither read nor changed, so this holds in particular
    before the handshake has finished.  No promise is settled; the request
    is recorded in the table with a timer of the requested delay (5000 ms by
    default); its frame is handed to the socket when the socket is open and
    dropped otherwise; and the failure the caller then gets, when the timer
    runs out, is ['Request timeout']. *)
Theorem request_before_ready_waits_for_timeout
  (w : World) (b : RequestBody) (timeout_ms : option Z) :
  well_formed w ->
  let i := messageId (bridge w) in
  let p := fst (execute b timeout_ms w) in
  let h := next_timer (loop w) in
  let w1 := snd (execute b timeout_ms w) in
  promises (loop w1) = promises (loop w) /\
  promises (loop w1) !! p = None /\
  pendingRequests (bridge w1)
  = <[i := {| promise := p; timeout := h |}]> (pendingRequests (bridge w)) /\
  timers (loop w1) !! h
  = Some {| timer_request := i; timer_promise := p;
            delay := default default_timeout timeout_ms |} /\
  ws (bridge w1)
  = match ws (bridge w) with
    | Some s =>
        if ReadyState_eqb (readyState s) OPEN
        then Some {| readyState := readyState s;
                     outbox := outbox s ++ [request_frame {| id := i; body := b |}];
                     connect_promise := connect_promise s |}
        else Some s
    | None => None
    end /\
  connected (bridge w1) = connected (bridge w) /\
  promises (loop (timeout_callback h w1)) !! p = Some (Rejected request_timeout).
Proof.
  intros Hwf i p h w1.
  pose proof (fresh_promise_unsettled w Hwf) as Hfresh.
  assert (timers (loop w1) !! h
          = Some {| timer_request := i; timer_promise := p;
                    delay := default default_timeout timeout_ms |}) as Htimer.
  { subst w1 h. rewrite execute_loop. simpl. apply lookup_insert_eq. }
  split; [done |]. split; [exact Hfresh |]. split; [apply execute_pending |].
  split; [exact Htimer |]. split; [apply execute_ws |]. split.
  - subst w1. rewrite execute_unfold.
    by rewrite (proj1 (proj2 (sendRequest_other_fields _ _ _))).
  - unfold timeout_callback. rewrite Htimer. simpl.
    unfold settle. simpl. fold p. change (promises (loop w)) with (promises (loop w1)).
    subst p w1. rewrite execute_promise.
    change (promises (loop (snd (execute b timeout_ms w)))) with (promises (loop w)).
    rewrite Hfresh. simpl. apply lookup_insert_eq.
Qed.

Lemma well_formed_authenticating : well_formed authenticating_world.
Proof. apply well_formed_run, well_formed_new. Qed.

Lemma well_formed_ready : well_formed ready_world.
Proof. apply well_formed_step, well_formed_authenticating. Qed.

Lemma request_before_ready_waits_for_timeout_witness :
  connected (bridge (snd (execute get_states None authenticating_world)))
  = connected (bridge authenticating_world) /\
  promises (loop (snd (execute get_states None authenticating_world))) !! 1%nat = None /\
  promises (loop (timeout_callback 0 (snd (execute get_states None authenticating_world))))
    !! 1%nat = Some (Rejected request_timeout).
Proof.
  pose proof (request_before_ready_waits_for_timeout authenticating_world get_states None
                well_formed_authenticating) as (_ & Hun & _ & _ & _ & Hoff & Hout).
  split; [exact Hoff |]. split; [exact Hun | exact Hout].
Defined.

(** C6 (as stated, refuted): while the handshake is still running the
    bridge accepts a request, writes its frame to the open socket and
    leaves the caller waiting; before any socket exists the frame is
    dropped; in both cases the caller's promise is rejected only by the
    timer, with ['Request timeout']. *)
Lemma request_before_ready_does_not_fail_fast :
  (connected (bridge authenticating_world) = false /\
   let w1 := snd (getStates authenticating_world) in
   fst (getStates authenticating_world) = 1%nat /\
   promises (loop w1) !! 1%nat = None /\
   pendingRequests (bridge w1) !! 1 = Some {| promise := 1; timeout := 0 |} /\
   outbox <$> ws (bridge w1)
   = Some [auth_frame "token"; request_frame {| id := 1; body := get_states |}] /\
   promises (loop (step w1 (timer_elapsed 0))) !! 1%nat = Some (Rejected request_timeout)) /\
  (connected (bridge sample_world) = false /\
   let w1 := snd (getStates sample_world) in
   fst (getStates sample_world) = 0%nat /\
   promises (loop w1) !! 0%nat = None /\
   pendingRequests (bridge w1) !! 1 = Some {| promise := 0; timeout := 0 |} /\
   ws (bridge w1) = None /\
   promises (loop (step w1 (timer_elapsed 0))) !! 0%nat = Some (Rejected request_timeout)).
Proof. repeat split. Qed.

(** ** Timeouts and late responses *)

(** Right after it is issued, a request is outstanding. *)
Lemma outstanding_after_execute (b : RequestBody) (timeout_ms : option Z) (w : World) :
  well_formed w ->
  outstanding (messageId (bridge w)) (next_promise (loop w)) (next_timer (loop w))
    (default default_timeout timeout_ms) (snd (execute b timeout_ms w)).
Proof.
  intros [Hp Ht Hr Hok Hinv Hws].
  destruct (execute_once b timeout_ms w) as (Eok & Einv).
  constructor;
    rewrite ?execute_loop, ?execute_pending, ?execute_messageId, ?Eok, ?Einv,
      ?execute_ws_promise; simpl.
  - apply lookup_insert_eq.
  - apply lookup_insert_eq.
  - apply fresh_promise_unsettled. by constructor.
  - lia.
  - intros h' t Hh' Hne. rewrite lookup_insert_ne in Hh' by done.
    apply Ht in Hh'. lia.
  - intros i' r Hi' Hne. rewrite lookup_insert_ne in Hi' by done.
    apply Hr in Hi'. lia.
  - intros Hin. rewrite Forall_forall in Hok. apply Hok in Hin. lia.
  - intros Hin. rewrite Forall_forall in Hinv. apply Hinv in Hin. lia.
  - intros Hq. apply Hws in Hq. lia.
Qed.

Lemma outstanding_run (i : Z) (p h : nat) (d : Z) (evs : list Event) (w : World) :
  Forall (fun ev => ~ cites i ev /\ ev <> timer_elapsed h) evs ->
  outstanding i p h d w -> outstanding i p h d (run w evs).
Proof.
  revert w. induction evs as [| ev evs IH]; simpl; intros w Hevs Hout; [done |].
  apply Forall_cons in Hevs as [[Hcite Hfire] Hevs].
  apply IH; [done |]. by apply outstanding_step.
Qed.

Lemma settled_run (i : Z) (p : nat) (x : Settlement) (evs : list Event) (w : World) :
  settled i p x w -> settled i p x (run w evs).
Proof.
  revert w. induction evs as [| ev evs IH]; simpl; intros w Hset; [done |].
  apply IH. by apply settled_step.
Qed.

(** When the timer of an outstanding request runs out, the request is
    settled with the timeout failure. *)
Lemma outstanding_times_out (i : Z) (p h : nat) (d : Z) (w : World) :
  outstanding i p h d w ->
  settled i p (Rejected request_timeout) (timeout_callback h w)
  /\ timers (loop (timeout_callback h w)) !! h = None.
Proof.
  intros [Hr Ht Hp (Bi & Bp & Bh) Hot Hor Hok Hinv Hws].
  unfold timeout_callback. rewrite Ht. simpl. split.
  - constructor; simpl.
    + done.
    + apply lookup_delete_eq.
    + by apply settle_unsettled.
  - rewrite (proj1 (proj2 (settle_counters _ _ _))). simpl. apply lookup_delete_eq.
Qed.

(** A response frame citing an id that has no entry changes nothing. *)
Lemma unknown_response_ignored (w : World) (m : InboundMessage) (j : Z) :
  msg_type m = "result" -> msg_id m = Some j ->
  pendingRequests (bridge w) !! j = None ->
  step w (ws_message (Some m)) = w.
Proof.
  intros Htype Hid Hnone. cbn [step]. unfold on_message, handleMessage.
  rewrite Htype. simpl.
  destruct (msg_id_truthy m); [| done].
  unfold handleResponse. by rewrite Hid, Hnone.
Qed.

(** C7: a request is issued in a well-formed world; as long as no response
    citing its id arrives it stays in the table with its timer (of the
    requested delay, 5000 ms by default) and its promise unsettled; when the
    timer runs out the promise is rejected with ['Request timeout'] and the
    entry and the timer are gone; whatever happens afterwards the entry
    stays absent and the promise keeps that one settlement, and a response
    citing the id, like any response whose id has no entry, leaves the
    world exactly as it was. *)
Theorem unanswered_request_times_out
  (w : World) (b : RequestBody) (timeout_ms : option Z) (evs later : list Event) :
  well_formed w ->
  let i := messageId (bridge w) in
  let p := fst (execute b timeout_ms w) in
  let h := next_timer (loop w) in
  Forall (fun ev => ~ cites i ev /\ ev <> timer_elapsed h) evs ->
  let w2 := run (snd (execute b timeout_ms w)) evs in
  let w3 := step w2 (timer_elapsed h) in
  let w4 := run w3 later in
  (pendingRequests (bridge w2) !! i = Some {| promise := p; timeout := h |} /\
   timers (loop w2) !! h
   = Some {| timer_request := i; timer_promise := p;
             delay := default default_timeout timeout_ms |} /\
   promises (loop w2) !! p = None) /\
  (promises (loop w3) !! p = Some (Rejected request_timeout) /\
   pendingRequests (bridge w3) !! i = None /\
   timers (loop w3) !! h = None) /\
  (promises (loop w4) !! p = Some (Rejected request_timeout) /\
   pendingRequests (bridge w4) !! i = None) /\
  (forall m : InboundMessage,
     msg_type m = "result" -> msg_id m = Some i ->
     step w4 (ws_message (Some m)) = w4) /\
  (forall (w' : World) (m : InboundMessage) (j : Z),
     msg_type m = "result" -> msg_id m = Some j ->
     pendingRequests (bridge w') !! j = None ->
     step w' (ws_message (Some m)) = w').
Proof.
  intros Hwf i p h Hevs w2 w3 w4.
  pose proof (outstanding_after_execute b timeout_ms w Hwf) as Hout1.
  pose proof (outstanding_run _ _ _ _ evs _ Hevs Hout1) as Hout2.
  fold i h w2 in Hout2. change (next_promise (loop w)) with p in Hout2.
  destruct (outstanding_times_out _ _ _ _ _ Hout2) as [Hset3 Htimer3].
  change (timeout_callback h w2) with w3 in Hset3, Htimer3.
  pose proof (settled_run _ _ _ later _ Hset3) as Hset4. fold w4 in Hset4.
  split; [| split; [| split; [| split]]].
  - destruct Hout2. done.
  - destruct Hset3. done.
  - destruct Hset4. done.
  - intros m Htype Hid. apply (unknown_response_ignored w4 m i Htype Hid).
    by destruct Hset4.
  - apply unknown_response_ignored.
Qed.

Lemma unanswered_request_times_out_witness :
  let w2 :=
    run (snd (execute get_states None ready_world))
      [call_getStates; ws_message (Some (result_message 2 true "[]"))] in
  let w3 := step w2 (timer_elapsed 0) in
  promises (loop w2) !! 1%nat = None /\
  promises (loop w3) !! 1%nat = Some (Rejected request_timeout) /\
  step (run w3 []) (ws_message (Some (result_message 1 true "[]"))) = run w3 [].
Proof.
  assert (Forall (fun ev => ~ cites 1 ev /\ ev <> timer_elapsed 0)
            [call_getStates; ws_message (Some (result_message 2 true "[]"))]) as Hevs.
  { repeat constructor; try discriminate.
    - intros [].
    - intros [_ [=]]. }
  pose proof (unanswered_request_times_out ready_world get_states None
                [call_getStates; ws_message (Some (result_message 2 true "[]"))] []
                well_formed_ready Hevs) as ((_ & _ & Hun) & (Hout & _) & _ & Hlate & _).
  split; [exact Hun |]. split; [exact Hout |].
  exact (Hlate (result_message 1 true "[]") eq_refl eq_refl).
Defined.

(** ** Loss of the connection *)

(** C8 (amended): when the socket closes or reports an error, or
    [disconnect] is called, the table of pending requests and the timers
    are left exactly as they were and no pending request is settled: a close
    clears [connected] and emits ['disconnected'], an error emits
    ['connection_error'] and rejects at most the promise of [connect].  Each
    pending request stays until its own response or timeout. *)
Theorem connection_loss_keeps_pending_requests (w : World) (r text : Payload) :
  (pendingRequests (bridge (on_close r w)) = pendingRequests (bridge w) /\
   loop (on_close r w) = loop w /\
   connected (bridge (on_close r w)) = false) /\
  (pendingRequests (bridge (on_error text w)) = pendingRequests (bridge w) /\
   timers (loop (on_error text w)) = timers (loop w) /\
   forall q : nat,
     connect_promise <$> ws (bridge w) <> Some q ->
     promises (loop (on_error text w)) !! q = promises (loop w) !! q) /\
  (pendingRequests (bridge (disconnect w)) = pendingRequests (bridge w) /\
   loop (disconnect w) = loop w /\
   connected (bridge (disconnect w)) = false).
Proof.
  split; [| split].
  - destruct (on_close_same_core r w) as (Hl & Hp & _).
    split; [done |]. split; [done |].
    unfold on_close. by destruct (ws (bridge w)).
  - unfold on_error. destruct (ws (bridge w)) as [s |]; simpl.
    + split; [done |]. split.
      * apply (settle_counters _ _ _).
      * intros q Hq. apply settle_other. congruence.
    + done.
  - done.
Qed.

(** C8 (as stated, refuted): on a connected bridge with one request
    outstanding, the close of the socket, and likewise an error, leaves the
    request in the table with its promise unsettled; it is settled later,
    by its own timer, with ['Request timeout']. *)
Lemma close_leaves_requests_pending :
  let w1 := snd (getStates ready_world) in
  let w2 := step w1 (ws_close "1006") in
  let w3 := step w1 (ws_error "ECONNRESET") in
  (connected (bridge w1) = true /\
   pendingRequests (bridge w1) !! 1 = Some {| promise := 1; timeout := 0 |}) /\
  (connected (bridge w2) = false /\
   pendingRequests (bridge w2) !! 1 = Some {| promise := 1; timeout := 0 |} /\
   promises (loop w2) !! 1%nat = None) /\
  (pendingRequests (bridge w3) !! 1 = Some {| promise := 1; timeout := 0 |} /\
   promises (loop w3) !! 1%nat = None) /\
  promises (loop (step w2 (timer_elapsed 0))) !! 1%nat = Some (Rejected request_timeout).
Proof. repeat split. Qed.

(** ** The audit log as a bounded queue *)

Lemma stamp_all_length (now : nat -> Z) (from : nat) (inputs : list AuditInput) :
  length (stamp_all now from inputs) = length inputs.
Proof. revert from. induction inputs as [| a rest IH]; simpl; intros; [done | by rewrite IH]. Qed.

(** One insertion, whatever the log held: the last 1000 of the log with the
    new entry pushed. *)
Lemma addAuditEntry_entries (a : AuditInput) (e : Env) :
  auditEntries (controller (addAuditEntry a e))
  = drop (length (auditEntries (controller e)) + 1 - 1000)
      (auditEntries (controller e)
       ++ [{| timestamp := now_at (clock e) (reads (clock e)); entry := a |}]).
Proof.
  unfold addAuditEntry. simpl.
  set (pushed := auditEntries (controller e) ++ _).
  assert (length pushed = (length (auditEntries (controller e)) + 1)%nat) as Hlen.
  { unfold pushed. rewrite length_app. simpl. lia. }
  destruct (Z.ltb_spec audit_capacity (Z.of_nat (length pushed))) as [Hover | Hfits]; simpl.
  - rewrite slice_from_negative by (unfold audit_capacity; lia).
    f_equal. unfold audit_capacity. lia.
  - unfold audit_capacity in Hfits.
    replace (length (auditEntries (controller e)) + 1 - 1000)%nat with 0%nat by lia.
    by rewrite drop_0.
Qed.

(** Any sequence of insertions leaves the last 1000 entries of what was in
    the log followed by what was inserted, in insertion order. *)
Lemma insert_all_entries (inputs : list AuditInput) (e : Env) :
  auditEntries (controller (insert_all inputs e))
  = drop (length (auditEntries (controller e)) + length inputs - 1000)
      (auditEntries (controller e)
       ++ stamp_all (now_at (clock e)) (reads (clock e)) inputs)
  \/ inputs = [].
Proof.
  revert e. induction inputs as [| a rest IH]; intros e; [by right |]. left.
  change (insert_all (a :: rest) e) with (insert_all rest (addAuditEntry a e)).
  destruct (IH (addAuditEntry a e)) as [-> | ->].
  - rewrite addAuditEntry_entries. simpl.
    set (old := auditEntries (controller e)).
    set (x := {| timestamp := now_at (clock e) (reads (clock e)); entry := a |}).
    set (more := stamp_all (now_at (clock e)) (S (reads (clock e))) rest).
    rewrite length_drop, length_app. simpl.
    assert (length more = length rest) as Hmore by apply stamp_all_length.
    destruct (decide (length old + 1 <= 1000)%nat) as [Hfits | Hover].
    + replace (length old + 1 - 1000)%nat with 0%nat by lia.
      rewrite drop_0, Nat.sub_0_r, <- app_assoc. simpl.
      f_equal. lia.
    + rewrite <- drop_app_le by (rewrite length_app; simpl; lia).
      rewrite drop_drop, <- app_assoc. simpl. f_equal. lia.
  - change (insert_all [] (addAuditEntry a e)) with (addAuditEntry a e).
    rewrite addAuditEntry_entries. cbn [stamp_all length]. f_equal.
Qed.

(** X4: the audit log as a bounded queue.  After any non-empty sequence of
    insertions the log holds at most 1000 entries; for every [limit >= 1]
    [getAuditLog(limit)] is the end of the log, in insertion order, of
    length [min(limit, length)], hence at most [min(limit, 1000)]; and after
    1001 insertions into an empty log, [getAuditLog(1000)] is exactly the
    last 1000 inserted entries, without the first. *)
Theorem audit_log_is_a_bounded_queue :
  (forall (a : AuditInput) (inputs : list AuditInput) (e : Env),
     Z.of_nat (length (auditEntries (controller (insert_all (a :: inputs) e))))
     <= audit_capacity) /\
  (forall (limit : Z) (sc : SecurityController),
     1 <= limit ->
     getAuditLog limit sc `suffix_of` auditEntries sc /\
     Z.of_nat (length (getAuditLog limit sc))
     = Z.min limit (Z.of_nat (length (auditEntries sc)))) /\
  (forall (first : AuditInput) (inputs : list AuditInput) (cfg : SecurityConfig) (c : Clock),
     length inputs = 1000%nat ->
     getAuditLog audit_capacity
       (controller (insert_all (first :: inputs)
                      {| controller := SecurityController_new cfg; clock := c |}))
     = stamp_all (now_at c) (S (reads c)) inputs).
Proof.
  split; [| split].
  - intros a inputs. revert a.
    induction inputs as [| b rest IH]; intros a e; [apply addAuditEntry_bounded |].
    change (insert_all (a :: b :: rest) e) with (insert_all (b :: rest) (addAuditEntry a e)).
    apply IH.
  - intros limit sc Hlimit. unfold getAuditLog. split.
    + apply slice_from_suffix.
    + rewrite slice_from_negative_length by lia. done.
  - intros first inputs cfg c Hlen.
    destruct (insert_all_entries (first :: inputs)
                {| controller := SecurityController_new cfg; clock := c |}) as [Hlog | ?];
      [| done].
    unfold getAuditLog. rewrite Hlog. simpl. rewrite Hlen. simpl.
    rewrite slice_from_negative by (unfold audit_capacity; lia).
    rewrite !drop_0, stamp_all_length, Hlen. unfold audit_capacity.
    replace (1000 - Z.to_nat 1000)%nat with 0%nat by lia. apply drop_0.
Qed.

Lemma audit_log_is_a_bounded_queue_witness :
  getAuditLog 1 (controller (insert_all [domain_not_allowed_entry switch_on;
                                         service_call_validation_entry light_on] sample_env))
  `suffix_of`
  auditEntries (controller (insert_all [domain_not_allowed_entry switch_on;
                                        service_call_validation_entry light_on] sample_env)) /\
  Z.of_nat (length (getAuditLog 1 (controller (insert_all [domain_not_allowed_entry switch_on;
                                         service_call_validation_entry light_on] sample_env))))
  = 1.
Proof.
  destruct audit_log_is_a_bounded_queue as (_ & Hquery & _).
  destruct (Hquery 1 (controller (insert_all [domain_not_allowed_entry switch_on;
                                         service_call_validation_entry light_on] sample_env)))
    as [Hsuffix Hlen]; [lia |].
  split; [exact Hsuffix | exact Hlen].
Defined.

(** ** Risk classification, sanitisation and the audited verdicts *)


Lemma remove_characters_filter (bad : list ascii) (s : string) :
  list_ascii_of_string (remove_characters bad s)
  = filter (fun a => a ∉ bad) (list_ascii_of_string s).
Proof.
  induction s as [| a s IH]; simpl; [done |].
  rewrite filter_cons. destruct (decide (a ∈ bad)) as [Hin | Hout].
  - rewrite bool_decide_eq_true_2 by done. rewrite decide_False by tauto. done.
  - rewrite bool_decide_eq_false_2 by done. rewrite decide_True by done.
    simpl. by rewrite IH.
Qed.

(** X2: a request that passes the domain check, the entity check and the
    confirmation gate, and whose target is a single string or absent, is
    allowed; its sanitised target is the target with every character of
    [; & | ` $ ( ) { } [ ] \ ] removed (absent for an absent or empty
    target); and the log ends with the entry recording the validation. *)
Theorem plain_target_is_sanitized (c : HAServiceCallRequest) (e : Env) :
  domain c ∈ allowedDomains (config (controller e)) ->
  first_entity_not_allowed (config (controller e)) c = None ->
  gate_open (config (controller e)) c = true ->
  is_array (entity_id c) = false ->
  let v := fst (validateServiceCall c e) in
  allowed v = true /\ requiresConfirmation v = false /\ reason v = None /\
  sanitizedEntityId v = sanitized_target (entity_id c) /\
  (forall s, entity_id c = Some (EntityString s) -> s <> "" ->
     exists s', sanitizedEntityId v = Some s' /\
       list_ascii_of_string s'
       = filter (fun a => a ∉ dangerous_characters) (list_ascii_of_string s)) /\
  (exists t,
     last (auditEntries (controller (snd (validateServiceCall c e))))
     = Some {| timestamp := t; entry := service_call_validation_entry c |}).
Proof.
  intros Hd He Hg Ha v. apply includes_spec in Hd.
  subst v. rewrite (validate_sanitized c e Hd He Hg Ha). simpl.
  split; [done |]. split; [done |]. split; [done |]. split; [done |]. split.
  - intros s Hs Hne. rewrite Hs. simpl.
    destruct s as [| a s]; [done |]. simpl.
    eexists. split; [reflexivity |].
    apply (remove_characters_filter dangerous_characters (String a s)).
  - eexists. apply addAuditEntry_last.
Qed.

Lemma plain_target_is_sanitized_witness :
  sanitizedEntityId (fst (validateServiceCall light_on sample_env)) = Some "light.kitchen".
Proof.
  assert (domain light_on ∈ allowedDomains (config (controller sample_env))) as Hd
    by (apply includes_spec; reflexivity).
  destruct (plain_target_is_sanitized light_on sample_env Hd eq_refl eq_refl eq_refl)
    as (_ & _ & _ & Hs & _).
  exact Hs.
Defined.

(** X3: every verdict of a request whose target is not a list is either
    the confirmation-required verdict, returned with the log untouched, or
    is recorded by the last entry of the log: that entry carries the
    verdict's [allowed] flag and the request's domain and service. *)
Theorem verdicts_other_than_confirmation_are_audited (c : HAServiceCallRequest) (e : Env) :
  is_array (entity_id c) = false ->
  let v := fst (validateServiceCall c e) in
  let e' := snd (validateServiceCall c e) in
  (requiresConfirmation v = true /\ e' = e) \/
  (requiresConfirmation v = false /\
   exists a,
     last (auditEntries (controller e')) = Some a /\
     in_allowed (entry a) = allowed v /\
     in_domain (entry a) = Some (domain c) /\
     in_service (entry a) = Some (service c)).
Proof.
  intros Ha v e'. subst v e'.
  destruct (JS.includes (allowedDomains (config (controller e))) (domain c)) eqn:Hd.
  - destruct (first_entity_not_allowed (config (controller e)) c) as [x |] eqn:He.
    + rewrite (validate_entity_not_allowed c e x Hd He). right. split; [done |].
      eexists. split; [apply addAuditEntry_last | done].
    + destruct (gate_open (config (controller e)) c) eqn:Hg.
      * rewrite (validate_sanitized c e Hd He Hg Ha). right. split; [done |].
        eexists. split; [apply addAuditEntry_last | done].
      * rewrite (validate_confirmation_required c e Hd He Hg). by left.
  - rewrite (validate_domain_not_allowed c e Hd). right. split; [done |].
    eexists. split; [apply addAuditEntry_last | done].
Qed.

Lemma verdicts_other_than_confirmation_are_audited_witness :
  exists a,
    last (auditEntries (controller (snd (validateServiceCall switch_on sample_env)))) = Some a /\
    in_allowed (entry a) = false.
Proof.
  destruct (verdicts_other_than_confirmation_are_audited switch_on sample_env eq_refl)
    as [[Hconf _] | (_ & a & Hlast & Hallowed & _)].
  - discriminate Hconf.
  - exists a. split; [exact Hlast | exact Hallowed].
Defined.

(** ** Request ids *)

Lemma messageId_same_core (w w' : World) :
  same_core w w' -> messageId (bridge w') = messageId (bridge w).
Proof. by intros (_ & _ & -> & _). Qed.

Lemma messageId_listeners (listener : World -> nat -> World) :
  (forall w q, exists s, same_core (settle_in q s w) (listener w q)) ->
  forall qs w, messageId (bridge (foldl listener w qs)) = messageId (bridge w).
Proof.
  intros Hl qs. induction qs as [| q qs IH]; intros w; simpl; [done |].
  rewrite IH. destruct (Hl w q) as [s Hs]. by rewrite (messageId_same_core _ _ Hs).
Qed.

(** No step lowers the counter. *)
Lemma messageId_step (w : World) (ev : Event) :
  messageId (bridge w) <= messageId (bridge (step w ev)).
Proof.
  destruct ev as [| data | text | r | h | | | c t | | t | s | c t v]; cbn [step].
  - by rewrite (messageId_same_core _ _ (on_open_same_core w)).
  - destruct (on_message_cases data w)
      as [Hsame | [(m & _ & _ & ->) | [(w1 & Hsame & ->) | (text & w1 & Hsame & ->)]]].
    + by rewrite (messageId_same_core _ _ Hsame).
    + by destruct (handleResponse_cases m w) as [-> | (i & r & o & _ & _ & ->)].
    + rewrite (messageId_listeners _ auth_ok_listener_settles).
      by rewrite (messageId_same_core _ _ Hsame).
    + rewrite (messageId_listeners _ (auth_invalid_listener_settles text)).
      by rewrite (messageId_same_core _ _ Hsame).
  - destruct (on_error_cases text w) as [Hsame | (q & s & w1 & Hsame & _ & ->)];
      simpl; by rewrite (messageId_same_core _ _ Hsame).
  - by rewrite (messageId_same_core _ _ (on_close_same_core r w)).
  - by destruct (timeout_callback_cases h w) as [-> | (t & _ & ->)].
  - done.
  - done.
  - destruct (callService_cases c t w) as (w1 & Hsame & [-> | ->]).
    + by rewrite (messageId_same_core _ _ Hsame).
    + rewrite execute_messageId, (messageId_same_core _ _ Hsame). lia.
  - pose proof (execute_messageId get_states None w) as H.
    change (execute get_states None w) with (getStates w) in H. lia.
  - pose proof (execute_messageId
                  (subscribe_events
                     match t with
                     | Some s => if JS.string_truthy s then Some s else None
                     | None => None
                     end) None w) as H.
    change (execute _ None w) with (subscribeEvents t w) in H. lia.
  - pose proof (execute_messageId (unsubscribe_events s) None w) as H.
    change (execute (unsubscribe_events s) None w) with (unsubscribeEvents s w) in H. lia.
  - destruct (callService_resume_cases c t v w) as [-> | ->]; [done |].
    rewrite execute_messageId. lia.
Qed.

Lemma messageId_run (evs : list Event) (w : World) :
  messageId (bridge w) <= messageId (bridge (run w evs)).
Proof.
  revert w. induction evs as [| ev evs IH]; intros w; simpl; [done |].
  etrans; [apply messageId_step | apply IH].
Qed.

(** X5: request ids are issued in strictly increasing order: a
    request-issuing call takes the current [messageId] as its id and leaves
    the counter one higher, no step of the bridge ever lowers the counter,
    and in a well-formed world every id in the table is below it. *)
Theorem request_ids_increase :
  (forall (b : RequestBody) (timeout_ms : option Z) (w : World),
     pendingRequests (bridge (snd (execute b timeout_ms w))) !! messageId (bridge w)
     = Some {| promise := fst (execute b timeout_ms w); timeout := next_timer (loop w) |} /\
     messageId (bridge (snd (execute b timeout_ms w))) = messageId (bridge w) + 1) /\
  (forall (w : World) (ev : Event),
     messageId (bridge w) <= messageId (bridge (step w ev))) /\
  (forall (w : World) (evs : list Event),
     messageId (bridge w) <= messageId (bridge (run w evs))).
Proof.
  split; [| split; [apply messageId_step | intros w evs; apply messageId_run]].
  intros b timeout_ms w. split; [| apply execute_messageId].
  rewrite execute_pending. apply lookup_insert_eq.
Qed.

(** ** The entity allow-list *)

Lemma first_entity_not_allowed_skipped (cfg : SecurityConfig) (c : HAServiceCallRequest) :
  entityWhitelist cfg = [] \/ entity_id_truthy (entity_id c) = false ->
  first_entity_not_allowed cfg c = None.
Proof.
  unfold first_entity_not_allowed. intros [-> | ->]; [done |].
  by rewrite andb_false_r.
Qed.

Lemma find_first_outside (allow : list string) (before after : list string) (x : string) :
  Forall (fun y => y ∈ allow) before -> x ∉ allow ->
  List.find (fun y => negb (JS.includes allow y)) (before ++ x :: after) = Some x.
Proof.
  intros Hbefore Hx. induction Hbefore as [| y before Hy _ IH]; simpl.
  - apply includes_false in Hx. by rewrite Hx.
  - apply includes_spec in Hy. by rewrite Hy.
Qed.

Lemma find_all_inside (allow : list string) (l : list string) :
  Forall (fun y => y ∈ allow) l ->
  List.find (fun y => negb (JS.includes allow y)) l = None.
Proof.
  intros Hl. induction Hl as [| y l Hy _ IH]; simpl; [done |].
  apply includes_spec in Hy. by rewrite Hy.
Qed.

(** X6: with a non-empty allow-list, a request in an allowed domain whose
    targets are all listed is judged exactly as under an unrestricted
    configuration; otherwise it is denied, the reason and the audit entry
    naming the first target that is not listed.  An absent or empty-string
    target is not checked at all. *)
Theorem entity_allow_list_is_enforced (c : HAServiceCallRequest) (e : Env) :
  domain c ∈ allowedDomains (config (controller e)) ->
  entityWhitelist (config (controller e)) <> [] ->
  (entity_id_truthy (entity_id c) = false ->
   first_entity_not_allowed (config (controller e)) c = None) /\
  (forall t : EntityId,
     entity_id c = Some t -> entity_id_truthy (entity_id c) = true ->
     Forall (fun x => x ∈ entityWhitelist (config (controller e))) (entityIds t) ->
     fst (validateServiceCall c e)
     = verdict {| allowedDomains := allowedDomains (config (controller e));
                  entityWhitelist := [];
                  confirmHighRiskActions := confirmHighRiskActions (config (controller e)) |} c) /\
  (forall (t : EntityId) (before after : list string) (x : string),
     entity_id c = Some t -> entity_id_truthy (entity_id c) = true ->
     entityIds t = before ++ x :: after ->
     Forall (fun y => y ∈ entityWhitelist (config (controller e))) before ->
     x ∉ entityWhitelist (config (controller e)) ->
     validateServiceCall c e
     = (set_reason (entity_denial x) initial_validation,
        addAuditEntry (entity_not_allowed_entry c x) e)).
Proof.
  intros Hd Hlist. apply includes_spec in Hd.
  assert ((0 <? Z.of_nat (length (entityWhitelist (config (controller e)))))%Z = true) as Hlen.
  { apply Z.ltb_lt. destruct (entityWhitelist (config (controller e))); [done | simpl; lia]. }
  split; [| split].
  - intros Hfalsy. apply first_entity_not_allowed_skipped. by right.
  - intros t Ht Htruthy Hall. rewrite validateServiceCall_verdict. unfold verdict.
    cbn [allowedDomains entityWhitelist confirmHighRiskActions]. rewrite Hd. simpl.
    assert (first_entity_not_allowed (config (controller e)) c = None) as ->.
    { unfold first_entity_not_allowed. rewrite Hlen, Htruthy, Ht. simpl.
      by apply find_all_inside. }
    reflexivity.
  - intros t before after x Ht Htruthy Hsplit Hbefore Hx.
    apply validate_entity_not_allowed; [done |].
    unfold first_entity_not_allowed. rewrite Hlen, Htruthy, Ht, Hsplit. simpl.
    by apply find_first_outside.
Qed.

Lemma entity_allow_list_is_enforced_witness :
  let e := {| controller :=
                SecurityController_new
                  {| allowedDomains := ["light"]; entityWhitelist := ["light.kitchen"];
                     confirmHighRiskActions := true |};
              clock := ticking_clock 0 |} in
  let c := {| domain := "light"; service := "turn_on";
              entity_id := Some (EntityString "light.bedroom"); data := None;
              confirmed := None |} in
  validateServiceCall c e
  = (set_reason (entity_denial "light.bedroom") initial_validation,
     addAuditEntry (entity_not_allowed_entry c "light.bedroom") e).
Proof.
  intros e c.
  assert (domain c ∈ allowedDomains (config (controller e))) as Hd
    by (apply includes_spec; reflexivity).
  assert (entityWhitelist (config (controller e)) <> []) as Hlist by discriminate.
  destruct (entity_allow_list_is_enforced c e Hd Hlist) as (_ & _ & Hdeny).
  apply (Hdeny (EntityString "light.bedroom") [] [] "light.bedroom"); try reflexivity.
  - constructor.
  - apply includes_false. reflexivity.
Defined.

(** ** Sanitising *)

Lemma remove_characters_clean (bad : list ascii) (s : string) (a : ascii) :
  a ∈ bad -> a ∉ list_ascii_of_string (remove_characters bad s).
Proof.
  intros Ha. rewrite remove_characters_filter, list_elem_of_filter. tauto.
Qed.

Lemma remove_characters_fixpoint (bad : list ascii) (s : string) :
  remove_characters bad s = s <->
  forall a, a ∈ list_ascii_of_string s -> a ∉ bad.
Proof.
  induction s as [| b s IH]; simpl.
  - split; [intros _ a Ha; by apply elem_of_nil in Ha | done].
  - destruct (bool_decide (b ∈ bad)) eqn:Hb.
    + apply bool_decide_eq_true in Hb. split.
      * intros Heq. exfalso.
        assert (b ∈ list_ascii_of_string (remove_characters bad s)) as Hin
          by (rewrite Heq; simpl; apply list_elem_of_here).
        by apply (remove_characters_clean bad s b Hb).
      * intros Hall. exfalso. apply (Hall b); [apply list_elem_of_here | done].
    + apply bool_decide_eq_false in Hb. split.
      * intros [= Heq] a [-> | Ha]%elem_of_cons; [done |]. by apply IH.
      * intros Hall. f_equal. apply IH. intros a Ha. apply Hall. by apply list_elem_of_further.
Qed.

Lemma remove_characters_length (bad : list ascii) (s : string) :
  (String.length (remove_characters bad s) <= String.length s)%nat.
Proof.
  induction s as [| b s IH]; simpl; [done |].
  destruct (bool_decide (b ∈ bad)); simpl; lia.
Qed.

(** X7: on a string, [sanitizeEntityId] never throws; its result holds none
    of the twelve removed characters, is never longer than the input, is
    left unchanged by sanitising again, and equals the input exactly when
    the input holds none of those characters. *)
Theorem sanitizeEntityId_on_strings (s : string) :
  exists s',
    sanitizeEntityId (EntityString s) = JS.Normal s' /\
    (forall a, a ∈ dangerous_characters -> a ∉ list_ascii_of_string s') /\
    sanitizeEntityId (EntityString s') = JS.Normal s' /\
    (String.length s' <= String.length s)%nat /\
    (s' = s <-> forall a, a ∈ list_ascii_of_string s -> a ∉ dangerous_characters).
Proof.
  exists (remove_characters dangerous_characters s). simpl.
  split; [done |]. split; [| split; [| split]].
  - intros a. apply remove_characters_clean.
  - f_equal. apply remove_characters_fixpoint.
    intros a Ha Hbad. by apply (remove_characters_clean dangerous_characters s a).
  - apply remove_characters_length.
  - apply remove_characters_fixpoint.
Qed.

(** ** Changing the configuration *)

(** X8: [updateConfig] replaces exactly the fields the partial
    configuration gives, appends one [security_config_updated] entry, and
    the very next validation is judged by the new configuration: a domain
    taken off the list is denied from then on.  Applying the same update
    twice gives the same configuration as applying it once. *)
Theorem updateConfig_takes_effect (n : PartialSecurityConfig) (e : Env) (c : HAServiceCallRequest) :
  let old := config (controller e) in
  let merged :=
    {| allowedDomains := default (allowedDomains old) (new_allowedDomains n);
       entityWhitelist := default (entityWhitelist old) (new_entityWhitelist n);
       confirmHighRiskActions :=
         default (confirmHighRiskActions old) (new_confirmHighRiskActions n) |} in
  config (controller (updateConfig n e)) = merged /\
  (exists a,
     last (auditEntries (controller (updateConfig n e))) = Some a /\
     in_action (entry a) = "security_config_updated" /\ in_allowed (entry a) = true /\
     timestamp a = now_at (clock e) (reads (clock e))) /\
  fst (validateServiceCall c (updateConfig n e)) = verdict merged c /\
  (forall ds, new_allowedDomains n = Some ds -> domain c ∉ ds ->
     fst (validateServiceCall c (updateConfig n e))
     = set_reason (domain_denial c) initial_validation) /\
  config (controller (updateConfig n (updateConfig n e))) = merged.
Proof.
  intros old merged.
  assert (config (controller (updateConfig n e)) = merged) as Hcfg by reflexivity.
  split; [exact Hcfg |]. split; [| split; [| split]].
  - eexists. split; [apply addAuditEntry_last |]. done.
  - by rewrite validateServiceCall_verdict, Hcfg.
  - intros ds Hds Hout. rewrite validateServiceCall_verdict, Hcfg.
    unfold verdict, merged. cbn [allowedDomains]. rewrite Hds. simpl.
    apply includes_false in Hout. by rewrite Hout.
  - change (config (controller (updateConfig n (updateConfig n e))))
      with {| allowedDomains :=
                default (allowedDomains (config (controller (updateConfig n e))))
                  (new_allowedDomains n);
              entityWhitelist :=
                default (entityWhitelist (config (controller (updateConfig n e))))
                  (new_entityWhitelist n);
              confirmHighRiskActions :=
                default (confirmHighRiskActions (config (controller (updateConfig n e))))
                  (new_confirmHighRiskActions n) |}.
    rewrite Hcfg. unfold merged. simpl.
    by destruct (new_allowedDomains n), (new_entityWhitelist n), (new_confirmHighRiskActions n).
Qed.

(** ** What a validation does to the controller *)

Lemma insert_all_config (inputs : list AuditInput) (e : Env) :
  config (controller (insert_all inputs e)) = config (controller e).
Proof.
  revert e. induction inputs as [| a rest IH]; intros e; [done |].
  change (insert_all (a :: rest) e) with (insert_all rest (addAuditEntry a e)).
  by rewrite IH.
Qed.

Lemma insert_all_keeps_bound (inputs : list AuditInput) (e : Env) :
  Z.of_nat (length (auditEntries (controller e))) <= audit_capacity ->
  Z.of_nat (length (auditEntries (controller (insert_all inputs e)))) <= audit_capacity.
Proof.
  revert e. induction inputs as [| a rest IH]; intros e Hbound; [done |].
  change (insert_all (a :: rest) e) with (insert_all rest (addAuditEntry a e)).
  apply IH, addAuditEntry_bounded.
Qed.

(** X9: a validation is, for the controller, a sequence of at most two
    insertions into the audit log, each entry naming the request's domain
    and service; it never changes the configuration, and a log within
    capacity stays within capacity. *)
Theorem validation_only_appends (c : HAServiceCallRequest) (e : Env) :
  exists inputs : list AuditInput,
    snd (validateServiceCall c e) = insert_all inputs e /\
    (length inputs <= 2)%nat /\
    Forall (fun a => in_domain a = Some (domain c) /\ in_service a = Some (service c)) inputs /\
    config (controller (snd (validateServiceCall c e))) = config (controller e) /\
    (Z.of_nat (length (auditEntries (controller e))) <= audit_capacity ->
     Z.of_nat (length (auditEntries (controller (snd (validateServiceCall c e)))))
     <= audit_capacity).
Proof.
  assert (exists inputs : list AuditInput,
            snd (validateServiceCall c e) = insert_all inputs e /\
            (length inputs <= 2)%nat /\
            Forall (fun a => in_domain a = Some (domain c) /\ in_service a = Some (service c))
              inputs) as (inputs & Heq & Hlen & Hall).
  { destruct (JS.includes (allowedDomains (config (controller e))) (domain c)) eqn:Hd.
    - destruct (first_entity_not_allowed (config (controller e)) c) as [x |] eqn:He.
      + rewrite (validate_entity_not_allowed c e x Hd He).
        exists [entity_not_allowed_entry c x]. repeat split; simpl; [lia | by repeat constructor].
      + destruct (gate_open (config (controller e)) c) eqn:Hg.
        * assert (exists pre, after_gate c e = insert_all pre e /\ (length pre <= 1)%nat /\
                    Forall (fun a => in_domain a = Some (domain c)
                                     /\ in_service a = Some (service c)) pre)
            as (pre & Hpre & Hprelen & Hpreall).
          { unfold after_gate. case_match.
            - exists [high_risk_confirmed_entry c]. by repeat constructor.
            - exists []. repeat split; simpl; [lia | constructor]. }
          destruct (is_array (entity_id c)) eqn:Ha.
          -- destruct (entity_id c) as [[s | l] |] eqn:Hid; try discriminate.
             rewrite (validate_array_error c e l Hd He Hg Hid). simpl.
             exists pre. repeat split; [done | lia | done].
          -- rewrite (validate_sanitized c e Hd He Hg Ha). simpl.
             exists (pre ++ [service_call_validation_entry c]).
             split; [| split].
             ++ unfold insert_all. rewrite foldl_app. simpl. by rewrite Hpre.
             ++ rewrite length_app. simpl. lia.
             ++ apply Forall_app. split; [done | by repeat constructor].
        * rewrite (validate_confirmation_required c e Hd He Hg).
          exists []. repeat split; simpl; [lia | constructor].
    - rewrite (validate_domain_not_allowed c e Hd).
      exists [domain_not_allowed_entry c]. repeat split; simpl; [lia | by repeat constructor]. }
  exists inputs. split; [done |]. split; [done |]. split; [done |].
  rewrite Heq. split; [apply insert_all_config | apply insert_all_keeps_bound].
Qed.

(** ** The wording of the prompt *)

Lemma after_first_dot_prefix (d n : string) (seen : bool) :
  (seen = true \/ d <> "") -> "."%char ∉ list_ascii_of_string d ->
  JS.after_first_dot seen (d +:+ "." +:+ n) = Some n.
Proof.
  revert seen. induction d as [| a d IH]; intros seen Hseen Hdot; simpl.
  - destruct Hseen as [-> | ?]; done.
  - destruct (Ascii.eqb_spec a ".") as [-> | Hne].
    + exfalso. apply Hdot. simpl. apply list_elem_of_here.
    + apply IH; [by left |]. intros Hin. apply Hdot. simpl. by apply list_elem_of_further.
Qed.

(** X10: for a single target written [domain.name] (a non-empty prefix
    without a dot, then a dot), the prompt names the target by the part
    after the first dot with every underscore turned into a space, after
    the verb chosen for the service; only the first underscore of a service
    name is turned into a space. *)
Theorem prompt_names_the_target (c : HAServiceCallRequest) (d n : string) :
  d <> "" -> "."%char ∉ list_ascii_of_string d ->
  entity_id c = Some (EntityString (d +:+ "." +:+ n)) ->
  generateConfirmationPrompt c
  = "This will "
      +:+ (if String.eqb (service c) "unlock" then "unlock"
           else if String.eqb (service c) "alarm_disarm" then "disarm"
           else if String.eqb (service c) "open_cover" then "open"
           else JS.replace_first "_" " " (service c))
      +:+ " the " +:+ JS.replace_all "_" " " n +:+ ". Are you sure?".
Proof.
  intros Hd Hdot Hid. unfold generateConfirmationPrompt, entityName. rewrite Hid.
  assert (String.eqb (d +:+ "." +:+ n) "all" = false) as ->.
  { apply String.eqb_neq. intros Hall.
    assert ("."%char ∈ list_ascii_of_string (d +:+ "." +:+ n)) as Hin.
    { clear. induction d as [| a d IH]; simpl; [apply list_elem_of_here |].
      by apply list_elem_of_further. }
    rewrite Hall in Hin. simpl in Hin.
    repeat (apply elem_of_cons in Hin as [Hin | Hin]; [discriminate |]).
    by apply elem_of_nil in Hin. }
  assert (JS.string_truthy (d +:+ "." +:+ n) = true) as ->.
  { destruct d; [done | reflexivity]. }
  unfold JS.strip_domain_prefix. rewrite after_first_dot_prefix by auto.
  by repeat case_match.
Qed.

Lemma prompt_names_the_target_witness :
  generateConfirmationPrompt unlock_front_door
  = "This will unlock the front door. Are you sure?".
Proof.
  assert ("lock" <> "") as Hd by discriminate.
  assert ("."%char ∉ list_ascii_of_string "lock") as Hdot.
  { simpl. intros Hin.
    repeat (apply elem_of_cons in Hin as [Hin | Hin]; [discriminate |]).
    by apply elem_of_nil in Hin. }
  exact (prompt_names_the_target unlock_front_door "lock" "front_door" Hd Hdot eq_refl).
Defined.

(** ** Responses *)

Lemma outstanding_answered (i : Z) (p h : nat) (d : Z) (w : World) (m : InboundMessage) :
  outstanding i p h d w ->
  msg_type m = "result" -> msg_id m = Some i -> i <> 0 ->
  settled i p (response_outcome m) (step w (ws_message (Some m)))
  /\ cleared h (step w (ws_message (Some m))).
Proof.
  intros [Hr Ht Hp (Bi & Bp & Bh) Hot Hor Hok Hinv Hws] Htype Hid Hne.
  cbn [step]. unfold on_message, handleMessage. rewrite Htype. simpl.
  unfold msg_id_truthy. rewrite Hid.
  destruct (Z.eqb_spec i 0) as [? | _]; [done |]. simpl.
  unfold handleResponse. rewrite Hid, Hr. simpl. split.
  - constructor; simpl.
    + done.
    + apply lookup_delete_eq.
    + unfold response_outcome. by apply settle_unsettled.
  - unfold cleared. cbn [loop].
    rewrite (proj1 (proj2 (settle_counters _ _ _))), (proj2 (proj2 (settle_counters _ _ _))).
    simpl. split; [done | apply lookup_delete_eq].
Qed.

Lemma cleared_same_core (h : nat) (w w' : World) :
  same_core w w' -> cleared h w -> cleared h w'.
Proof. intros (Hl & _) []. unfold cleared. by rewrite Hl. Qed.

Lemma cleared_settle_in (h q : nat) (s : Settlement) (w : World) :
  cleared h w -> cleared h (settle_in q s w).
Proof.
  intros []. unfold cleared. simpl.
  by rewrite (proj1 (proj2 (settle_counters _ _ _))), (proj2 (proj2 (settle_counters _ _ _))).
Qed.

Lemma cleared_forget (h : nat) (i : Z) (h' : nat) (w : World) :
  cleared h w -> cleared h (forget i h' w).
Proof.
  intros []. unfold cleared. simpl. split; [done |].
  apply lookup_delete_None. by right.
Qed.

Lemma cleared_execute (h : nat) (b : RequestBody) (timeout_ms : option Z) (w : World) :
  cleared h w -> cleared h (snd (execute b timeout_ms w)).
Proof.
  intros []. unfold cleared. rewrite execute_loop. simpl. split; [lia |].
  rewrite lookup_insert_ne; [done | lia].
Qed.

Lemma cleared_listeners (listener : World -> nat -> World) (h : nat) :
  (forall w q, exists s, same_core (settle_in q s w) (listener w q)) ->
  forall qs w, cleared h w -> cleared h (foldl listener w qs).
Proof.
  intros Hl qs. induction qs as [| q qs IH]; intros w Hc; simpl; [done |].
  apply IH. destruct (Hl w q) as [s Hs].
  eapply cleared_same_core; [exact Hs |]. by apply cleared_settle_in.
Qed.

Lemma cleared_step (h : nat) (w : World) (ev : Event) :
  cleared h w -> cleared h (step w ev).
Proof.
  intros Hc. destruct ev as [| data | text | r | h' | | | c t | | t | s | c t v]; cbn [step].
  - eapply cleared_same_core; [apply on_open_same_core | done].
  - destruct (on_message_cases data w)
      as [Hsame | [(m & _ & _ & ->) | [(w1 & Hsame & ->) | (text & w1 & Hsame & ->)]]].
    + by eapply cleared_same_core.
    + destruct (handleResponse_cases m w) as [-> | (i' & r & o & _ & _ & ->)]; [done |].
      apply cleared_settle_in. by apply cleared_forget.
    + apply (cleared_listeners _ _ auth_ok_listener_settles). by eapply cleared_same_core.
    + apply (cleared_listeners _ _ (auth_invalid_listener_settles text)).
      by eapply cleared_same_core.
  - destruct (on_error_cases text w) as [Hsame | (q & s & w1 & Hsame & _ & ->)].
    + by eapply cleared_same_core.
    + apply cleared_settle_in. by eapply cleared_same_core.
  - eapply cleared_same_core; [apply on_close_same_core | done].
  - destruct (timeout_callback_cases h' w) as [-> | (t & _ & ->)]; [done |].
    apply cleared_settle_in. by apply cleared_forget.
  - destruct Hc. split; simpl; [lia | done].
  - done.
  - destruct (callService_cases c t w) as (w1 & Hsame & [-> | ->]).
    + by eapply cleared_same_core.
    + apply cleared_execute. by eapply cleared_same_core.
  - by apply (cleared_execute _ get_states None).
  - by apply (cleared_execute _ (subscribe_events _) None).
  - by apply (cleared_execute _ (unsubscribe_events s) None).
  - destruct (callService_resume_cases c t v w) as [-> | ->];
      [done | by apply cleared_execute].
Qed.

Lemma cleared_run (h : nat) (evs : list Event) (w : World) :
  cleared h w -> cleared h (run w evs).
Proof.
  revert w. induction evs as [| ev evs IH]; simpl; intros w Hc; [done |].
  apply IH. by apply cleared_step.
Qed.

Lemma cleared_timer_is_inert (h : nat) (w : World) :
  cleared h w -> step w (timer_elapsed h) = w.
Proof. intros [_ Hnone]. cbn [step]. unfold timeout_callback. by rewrite Hnone. Qed.

(** X11: a request is issued in a well-formed world and, before its timer
    runs out, a response citing its id arrives.  Its promise is then
    resolved with the result of a successful response, or rejected with
    the remote error text (['Unknown error'] when there is none); the entry
    and the timer are gone; and whatever happens afterwards the settlement
    stays, a second response for the id changes nothing, and the timer
    running out changes nothing. *)
Theorem answered_request_is_settled_once
  (w : World) (b : RequestBody) (timeout_ms : option Z) (evs later : list Event)
  (m : InboundMessage) :
  well_formed w ->
  0 < messageId (bridge w) ->
  let i := messageId (bridge w) in
  let p := fst (execute b timeout_ms w) in
  let h := next_timer (loop w) in
  Forall (fun ev => ~ cites i ev /\ ev <> timer_elapsed h) evs ->
  msg_type m = "result" -> msg_id m = Some i ->
  let w3 := step (run (snd (execute b timeout_ms w)) evs) (ws_message (Some m)) in
  let w4 := run w3 later in
  (promises (loop w3) !! p = Some (response_outcome m) /\
   pendingRequests (bridge w3) !! i = None /\
   timers (loop w3) !! h = None) /\
  (promises (loop w4) !! p = Some (response_outcome m) /\
   pendingRequests (bridge w4) !! i = None) /\
  (forall m' : InboundMessage,
     msg_type m' = "result" -> msg_id m' = Some i ->
     step w4 (ws_message (Some m')) = w4) /\
  step w4 (timer_elapsed h) = w4.
Proof.
  intros Hwf Hpos i p h Hevs Htype Hid w3 w4.
  pose proof (outstanding_after_execute b timeout_ms w Hwf) as Hout1.
  pose proof (outstanding_run _ _ _ _ evs _ Hevs Hout1) as Hout2.
  assert (i <> 0) as Hne by (unfold i; lia).
  destruct (outstanding_answered _ _ _ _ _ m Hout2 Htype Hid Hne) as [Hset3 Hclr3].
  fold w3 in Hset3, Hclr3.
  pose proof (settled_run _ _ _ later _ Hset3) as Hset4. fold w4 in Hset4.
  pose proof (cleared_run _ later _ Hclr3) as Hclr4. fold w4 in Hclr4.
  split; [| split; [| split]].
  - destruct Hset3, Hclr3 as [_ ?]. done.
  - destruct Hset4. done.
  - intros m' Htype' Hid'. apply (unknown_response_ignored w4 m' i Htype' Hid').
    by destruct Hset4.
  - by apply cleared_timer_is_inert.
Qed.

Lemma answered_request_is_settled_once_witness :
  let w3 :=
    step (run (snd (execute get_states None ready_world)) [call_getStates])
      (ws_message (Some (result_message 1 true "[]"))) in
  promises (loop w3) !! 1%nat = Some (response_outcome (result_message 1 true "[]")) /\
  step (run w3 []) (timer_elapsed 0) = run w3 [].
Proof.
  assert (Forall (fun ev => ~ cites 1 ev /\ ev <> timer_elapsed 0) [call_getStates]) as Hevs.
  { repeat constructor; try discriminate. intros []. }
  assert (0 < messageId (bridge ready_world)) as Hpos by reflexivity.
  pose proof (answered_request_is_settled_once ready_world get_states None
                [call_getStates] [] (result_message 1 true "[]")
                well_formed_ready Hpos Hevs eq_refl eq_refl)
    as ((Hres & _) & _ & _ & Htimer).
  split; [exact Hres | exact Htimer].
Defined.

(** X12: two requests issued one after the other are answered in the
    opposite order.  The first response settles only the request it cites
    and leaves the other in the table with its promise unsettled; after the
    second, each promise holds the outcome of its own response. *)
Theorem responses_may_arrive_out_of_order
  (w : World) (bA bB : RequestBody) (tA tB : option Z) (mA mB : InboundMessage) :
  well_formed w ->
  0 < messageId (bridge w) ->
  let iA := messageId (bridge w) in
  let pA := fst (execute bA tA w) in
  let wA := snd (execute bA tA w) in
  let iB := messageId (bridge wA) in
  let pB := fst (execute bB tB wA) in
  let wB := snd (execute bB tB wA) in
  msg_type mA = "result" -> msg_id mA = Some iA ->
  msg_type mB = "result" -> msg_id mB = Some iB ->
  let w1 := step wB (ws_message (Some mB)) in
  let w2 := step w1 (ws_message (Some mA)) in
  (iB = iA + 1 /\ pA <> pB) /\
  (promises (loop w1) !! pB = Some (response_outcome mB) /\
   pendingRequests (bridge w1) !! iB = None /\
   promises (loop w1) !! pA = None /\
   pendingRequests (bridge w1) !! iA
   = Some {| promise := pA; timeout := next_timer (loop w) |}) /\
  (promises (loop w2) !! pA = Some (response_outcome mA) /\
   promises (loop w2) !! pB = Some (response_outcome mB) /\
   pendingRequests (bridge w2) !! iA = None /\
   pendingRequests (bridge w2) !! iB = None).
Proof.
  intros Hwf Hpos iA pA wA iB pB wB HtA HidA HtB HidB w1 w2.
  assert (iB = iA + 1) as HiB by apply execute_messageId.
  pose proof (outstanding_after_execute bA tA w Hwf) as HoutA.
  pose proof (well_formed_execute bA tA w Hwf) as HwfA.
  pose proof (outstanding_after_execute bB tB wA HwfA) as HoutB.
  pose proof (outstanding_execute _ _ _ _ bB tB _ HoutA) as HoutA'.
  assert (~ cites iA (ws_message (Some mB))) as HnotA.
  { intros [_ Hid]. rewrite HidB in Hid. injection Hid. unfold iA, iB in *. lia. }
  assert (outstanding iA pA (next_timer (loop w)) (default default_timeout tA) w1) as HoutA1.
  { apply outstanding_step; [exact HoutA' | exact HnotA | discriminate]. }
  destruct (outstanding_answered _ _ _ _ _ mB HoutB HtB HidB) as [HsetB _].
  { fold iB. lia. }
  fold wB w1 in HsetB.
  destruct (outstanding_answered _ _ _ _ _ mA HoutA1 HtA HidA) as [HsetA _].
  { fold iA. lia. }
  fold w2 in HsetA.
  pose proof (settled_step _ _ _ _ (ws_message (Some mA)) HsetB) as HsetB2. fold w2 in HsetB2.
  split; [| split].
  - split; [exact HiB |]. unfold pA, pB. rewrite !execute_promise.
    unfold wA. rewrite execute_loop. simpl. lia.
  - destruct HsetB, HoutA1. done.
  - destruct HsetA, HsetB2. done.
Qed.

Lemma responses_may_arrive_out_of_order_witness :
  let wB := snd (execute get_states None (snd (execute get_states None ready_world))) in
  let w2 := step (step wB (ws_message (Some (result_message 2 true "second"))))
              (ws_message (Some (result_message 1 false "first"))) in
  promises (loop w2) !! 1%nat = Some (response_outcome (result_message 1 false "first")) /\
  promises (loop w2) !! 2%nat = Some (response_outcome (result_message 2 true "second")).
Proof.
  assert (0 < messageId (bridge ready_world)) as Hpos by reflexivity.
  pose proof (responses_may_arrive_out_of_order ready_world get_states get_states None None
                (result_message 1 false "first") (result_message 2 true "second")
                well_formed_ready Hpos eq_refl eq_refl eq_refl eq_refl)
    as (_ & _ & HA & HB & _).
  split; [exact HA | exact HB].
Defined.

(** ** The handshake *)

Lemma authenticate_iter_open (n : nat) (b : HABridge) (s : WebSocket) :
  ws b = Some s -> readyState s = OPEN ->
  ws (Nat.iter n authenticate b)
  = Some {| readyState := OPEN;
            outbox := outbox s ++ replicate n (auth_frame (token b));
            connect_promise := connect_promise s |}
  /\ token (Nat.iter n authenticate b) = token b
  /\ connected (Nat.iter n authenticate b) = connected b
  /\ emitted (Nat.iter n authenticate b) = emitted b.
Proof.
  intros Hws Hopen. induction n as [| n (IHws & IHtok & IHcon & IHem)].
  - simpl. rewrite app_nil_r, Hws. destruct s; simpl in *; by subst.
  - change (Nat.iter (S n) authenticate b) with (authenticate (Nat.iter n authenticate b)).
    set (x := Nat.iter n authenticate b) in *.
    assert (authenticate x
            = with_ws (Some {| readyState := OPEN;
                               outbox := (outbox s ++ replicate n (auth_frame (token b)))
                                         ++ [auth_frame (token b)];
                               connect_promise := connect_promise s |}) x) as ->.
    { unfold authenticate, send. by rewrite IHws, IHtok. }
    cbn [with_ws ws token connected emitted].
    repeat split; try done.
    by rewrite replicate_S_end, app_assoc.
Qed.

(** The listeners of [auth_ok]: every waiting promise that is still
    unsettled is resolved, nothing else is, and [connected] is set as soon
    as there is a listener. *)
Lemma auth_ok_listeners_resolve (qs : list nat) (w : World) :
  pendingRequests (bridge (foldl auth_ok_listener w qs)) = pendingRequests (bridge w) /\
  timers (loop (foldl auth_ok_listener w qs)) = timers (loop w) /\
  once_auth_ok (bridge (foldl auth_ok_listener w qs)) = once_auth_ok (bridge w) /\
  ws (bridge (foldl auth_ok_listener w qs)) = ws (bridge w) /\
  connected (bridge (foldl auth_ok_listener w qs))
  = (if qs is [] then connected (bridge w) else true) /\
  (forall q, q ∈ qs -> promises (loop w) !! q = None ->
     promises (loop (foldl auth_ok_listener w qs)) !! q = Some (Resolved "")) /\
  (forall q x, promises (loop w) !! q = Some x ->
     promises (loop (foldl auth_ok_listener w qs)) !! q = Some x).
Proof.
  revert w. induction qs as [| q0 qs IH]; intros w; simpl.
  - repeat split; try done. intros q Hq. by apply elem_of_nil in Hq.
  - destruct (IH (auth_ok_listener w q0)) as (H1 & H2 & H3 & H4 & H5 & H6 & H7).
    split; [by rewrite H1 |]. split.
    { rewrite H2. simpl. apply (settle_counters _ _ _). }
    split; [by rewrite H3 |]. split; [by rewrite H4 |]. split.
    { rewrite H5. by destruct qs. }
    split.
    + intros q Hq Hnone.
      destruct (decide (q = q0)) as [-> | Hne].
      * apply H7. simpl. by apply settle_unsettled.
      * apply H6.
        -- by apply elem_of_cons in Hq as [? | ?].
        -- simpl. by rewrite settle_other.
    + intros q x Hq. apply H7. simpl. by apply settle_keeps.
Qed.

Lemma auth_invalid_listeners_reject (text : Payload) (qs : list nat) (w : World) :
  pendingRequests (bridge (foldl (auth_invalid_listener text) w qs))
  = pendingRequests (bridge w) /\
  connected (bridge (foldl (auth_invalid_listener text) w qs)) = connected (bridge w) /\
  (forall q, q ∈ qs -> promises (loop w) !! q = None ->
     promises (loop (foldl (auth_invalid_listener text) w qs)) !! q
     = Some (Rejected (JS.mkError ("Authentication failed: " +:+ text)))) /\
  (forall q x, promises (loop w) !! q = Some x ->
     promises (loop (foldl (auth_invalid_listener text) w qs)) !! q = Some x).
Proof.
  revert w. induction qs as [| q0 qs IH]; intros w; simpl.
  - repeat split; try done. intros q Hq. by apply elem_of_nil in Hq.
  - destruct (IH (auth_invalid_listener text w q0)) as (H1 & H2 & H3 & H4).
    split; [by rewrite H1 |]. split; [by rewrite H2 |]. split.
    + intros q Hq Hnone.
      destruct (decide (q = q0)) as [-> | Hne].
      * apply H4. simpl. by apply settle_unsettled.
      * apply H3.
        -- by apply elem_of_cons in Hq as [? | ?].
        -- simpl. by rewrite settle_other.
    + intros q x Hq. apply H4. simpl. by apply settle_keeps.
Qed.

(** X13: the handshake, started in any well-formed world.  After
    [connect], the socket opening and the server's [auth_required], the
    credential frame has been written to the new socket once for every
    [auth_required] listener registered so far (the one of this [connect]
    and those left behind by earlier calls whose handshake never got that
    far), [connected] is as it was and the promise of [connect] is
    unsettled.  Then [auth_ok] sets [connected], resolves the promise and
    removes the listeners, so that a second [auth_ok] resolves nothing;
    [auth_invalid] rejects the promise with ['Authentication failed: ']
    and the server's text and leaves [connected] alone; a socket error
    rejects it with the error's text.  The table of pending requests is
    never touched. *)
Theorem handshake (w : World) (text : Payload) :
  well_formed w ->
  let p := fst (connect w) in
  let w1 :=
    run (snd (connect w)) [ws_open; ws_message (Some (control_message "auth_required"))] in
  (ws (bridge w1)
   = Some {| readyState := OPEN;
             outbox := replicate (S (once_auth_required (bridge w)))
                         (auth_frame (token (bridge w)));
             connect_promise := p |} /\
   connected (bridge w1) = connected (bridge w) /\
   promises (loop w1) !! p = None /\
   pendingRequests (bridge w1) = pendingRequests (bridge w)) /\
  (let w2 := step w1 (ws_message (Some (control_message "auth_ok"))) in
   connected (bridge w2) = true /\
   promises (loop w2) !! p = Some (Resolved "") /\
   once_auth_ok (bridge w2) = [] /\
   pendingRequests (bridge w2) = pendingRequests (bridge w) /\
   promises (loop (step w2 (ws_message (Some (control_message "auth_ok")))))
   = promises (loop w2)) /\
  (let w2 := step w1 (ws_message (Some (auth_invalid_message text))) in
   connected (bridge w2) = connected (bridge w) /\
   promises (loop w2) !! p
   = Some (Rejected (JS.mkError ("Authentication failed: " +:+ text))) /\
   pendingRequests (bridge w2) = pendingRequests (bridge w)) /\
  (let w2 := step w1 (ws_error text) in
   promises (loop w2) !! p = Some (Rejected (JS.mkError text)) /\
   pendingRequests (bridge w2) = pendingRequests (bridge w)).
Proof.
  intros Hwf p w1.
  pose proof (fresh_promise_unsettled w Hwf) as Hfresh.
  set (b1 := with_once 0 (once_auth_ok (bridge w) ++ [p]) (once_auth_invalid (bridge w) ++ [p])
               (emit "auth_required" ""
                  (with_ws (Some {| readyState := OPEN; outbox := []; connect_promise := p |})
                     (bridge w)))).
  assert (w1 = {| bridge := Nat.iter (S (once_auth_required (bridge w))) authenticate b1;
                  loop := {| promises := promises (loop w);
                             next_promise := S (next_promise (loop w));
                             timers := timers (loop w);
                             next_timer := next_timer (loop w) |};
                  sys_clock := sys_clock w |}) as Hw1 by reflexivity.
  destruct (authenticate_iter_open (S (once_auth_required (bridge w))) b1
              {| readyState := OPEN; outbox := []; connect_promise := p |} eq_refl eq_refl)
    as (Hws & Htok & Hcon & Hem).
  destruct (authenticate_iter_same (S (once_auth_required (bridge w))) b1)
    as (Hpend & Hmid & Hok & Hinv & _).
  assert (promises (loop w1) !! p = None) as Hp1 by (rewrite Hw1; exact Hfresh).
  assert (ws (bridge w1)
          = Some {| readyState := OPEN;
                    outbox := replicate (S (once_auth_required (bridge w)))
                                (auth_frame (token (bridge w)));
                    connect_promise := p |}) as Hws1.
  { rewrite Hw1. cbn [bridge]. rewrite Hws. reflexivity. }
  assert (pendingRequests (bridge w1) = pendingRequests (bridge w)) as Hpend1.
  { rewrite Hw1. cbn [bridge]. by rewrite Hpend. }
  assert (connected (bridge w1) = connected (bridge w)) as Hcon1.
  { rewrite Hw1. cbn [bridge]. by rewrite Hcon. }
  assert (once_auth_ok (bridge w1) = once_auth_ok (bridge w) ++ [p]) as Hok1.
  { rewrite Hw1. cbn [bridge]. by rewrite Hok. }
  assert (once_auth_invalid (bridge w1) = once_auth_invalid (bridge w) ++ [p]) as Hinv1.
  { rewrite Hw1. cbn [bridge]. by rewrite Hinv. }
  split; [done |]. split; [| split].
  - cbn zeta.
    set (w1' := with_bridge
                  (with_once (once_auth_required (bridge w1)) [] (once_auth_invalid (bridge w1))
                     (emit "auth_ok" "" (bridge w1))) w1).
    assert (step w1 (ws_message (Some (control_message "auth_ok")))
            = foldl auth_ok_listener w1' (once_auth_ok (bridge w1))) as Hstep by reflexivity.
    destruct (auth_ok_listeners_resolve (once_auth_ok (bridge w1)) w1')
      as (A1 & A2 & A3 & A4 & A5 & A6 & A7).
    rewrite Hstep.
    split; [| split; [| split; [| split]]].
    + rewrite A5, Hok1. by destruct (once_auth_ok (bridge w)).
    + apply A6; [rewrite Hok1; apply elem_of_app; right; apply list_elem_of_here | exact Hp1].
    + by rewrite A3.
    + rewrite A1. exact Hpend1.
    + set (w2 := foldl auth_ok_listener w1' (once_auth_ok (bridge w1))).
      assert (once_auth_ok (bridge w2) = []) as Hnil by (unfold w2; by rewrite A3).
      assert (step w2 (ws_message (Some (control_message "auth_ok")))
              = foldl auth_ok_listener
                  (with_bridge
                     (with_once (once_auth_required (bridge w2)) []
                        (once_auth_invalid (bridge w2)) (emit "auth_ok" "" (bridge w2))) w2)
                  (once_auth_ok (bridge w2))) as -> by reflexivity.
      by rewrite Hnil.
  - cbn zeta.
    set (w1' := with_bridge
                  (with_once (once_auth_required (bridge w1)) (once_auth_ok (bridge w1)) []
                     (emit "auth_invalid" text (bridge w1))) w1).
    assert (step w1 (ws_message (Some (auth_invalid_message text)))
            = foldl (auth_invalid_listener text) w1' (once_auth_invalid (bridge w1)))
      as -> by reflexivity.
    destruct (auth_invalid_listeners_reject text (once_auth_invalid (bridge w1)) w1')
      as (A1 & A2 & A3 & A4).
    split; [| split].
    + rewrite A2. exact Hcon1.
    + apply A3; [rewrite Hinv1; apply elem_of_app; right; apply list_elem_of_here | exact Hp1].
    + rewrite A1. exact Hpend1.
  - cbn zeta. cbn [step]. unfold on_error. rewrite Hws1. cbn [connect_promise update_bridge].
    split.
    + simpl. by apply settle_unsettled.
    + exact Hpend1.
Qed.

Lemma handshake_witness :
  let w1 :=
    run (snd (connect sample_world))
      [ws_open; ws_message (Some (control_message "auth_required"))] in
  connected (bridge (step w1 (ws_message (Some (control_message "auth_ok"))))) = true /\
  promises (loop (step w1 (ws_message (Some (control_message "auth_ok"))))) !! 0%nat
  = Some (Resolved "").
Proof.
  pose proof (handshake sample_world "" (well_formed_new _ _ _)) as (_ & (Hc & Hp & _) & _).
  split; [exact Hc | exact Hp].
Defined.

(** X14: frames that answer no request.  An [event] frame only emits: a
    [state_changed] or [hue_event] event is relayed once under its own name
    with its data, an event of any other type is dropped, and a frame
    without an event body is reported as a [message_error]; promises,
    timers, the pending table, the id counter, the socket and [connected]
    are as before.  A [result] frame whose id is missing or 0 and a frame
    of an unknown type leave the world as it is. *)
Theorem frames_without_a_request (w : World) (m : InboundMessage) :
  let w' := step w (ws_message (Some m)) in
  (msg_type m = "event" ->
   loop w' = loop w /\ sys_clock w' = sys_clock w /\
   pendingRequests (bridge w') = pendingRequests (bridge w) /\
   messageId (bridge w') = messageId (bridge w) /\
   ws (bridge w') = ws (bridge w) /\
   connected (bridge w') = connected (bridge w) /\
   emitted (bridge w')
   = emitted (bridge w) ++
     match msg_event m with
     | None =>
         [{| event_name := "message_error";
             event_argument := "Cannot read properties of undefined (reading 'event_type')" |}]
     | Some e =>
         if bool_decide (event_type e ∈ ["state_changed"; "hue_event"])
         then [{| event_name := event_type e; event_argument := event_data e |}]
         else []
     end) /\
  (msg_type m = "result" -> msg_id_truthy m = false -> w' = w) /\
  (msg_type m ∉ ["auth_required"; "auth_ok"; "auth_invalid"; "result"; "event"] -> w' = w).
Proof.
  intros w'. subst w'. cbn [step]. unfold on_message, handleMessage.
  split; [| split].
  - intros ->. cbn [String.eqb Ascii.eqb Bool.eqb andb].
    destruct (msg_event m) as [e |]; cbn [handleEvent].
    + destruct (String.eqb (event_type e) "state_changed") eqn:H1.
      { apply String.eqb_eq in H1. rewrite H1. by destruct w as [[] ? ?]. }
      destruct (String.eqb (event_type e) "hue_event") eqn:H2.
      { apply String.eqb_eq in H2. rewrite H2. by destruct w as [[] ? ?]. }
      apply String.eqb_neq in H1, H2.
      rewrite bool_decide_eq_false_2.
      * by rewrite app_nil_r.
      * intros Hin. apply elem_of_cons in Hin as [? | Hin]; [done |].
        apply elem_of_cons in Hin as [? | Hin]; [done |]. by apply elem_of_nil in Hin.
    + by destruct w as [[] ? ?].
  - intros -> ->. reflexivity.
  - intros Hnot.
    assert (forall s, s ∈ ["auth_required"; "auth_ok"; "auth_invalid"; "result"; "event"] ->
                      String.eqb (msg_type m) s = false) as Hs.
    { intros s Hin. apply String.eqb_neq. intros Heq. apply Hnot. by rewrite Heq. }
    rewrite !Hs by (repeat first [apply list_elem_of_here | apply list_elem_of_further]).
    reflexivity.
Qed.

(** ** The function-call dispatcher *)

(** *** Substrings *)

Lemma prefix_append (n s : string) : String.prefix n (n +:+ s) = true.
Proof.
  induction n as [| a n IH]; [by destruct s |].
  change (String a n +:+ s) with (String a (n +:+ s)). cbn [String.prefix].
  by destruct (ascii_dec a a).
Qed.

Lemma string_includes_unfold (n h : string) :
  string_includes n h
  = String.prefix n h
    || match h with EmptyString => false | String _ rest => string_includes n rest end.
Proof. by destruct h. Qed.

Lemma string_includes_append (n p s : string) :
  string_includes n (p +:+ n +:+ s) = true.
Proof.
  induction p as [| a p IH].
  - change ("" +:+ n +:+ s) with (n +:+ s).
    rewrite string_includes_unfold, prefix_append. done.
  - change (String a p +:+ n +:+ s) with (String a (p +:+ n +:+ s)).
    rewrite string_includes_unfold, IH. apply orb_true_r.
Qed.

Lemma string_includes_suffix (n p s : string) :
  string_includes n s = true -> string_includes n (p +:+ s) = true.
Proof.
  intros Hs. induction p as [| a p IH]; [done |].
  change (String a p +:+ s) with (String a (p +:+ s)).
  rewrite string_includes_unfold, IH. apply orb_true_r.
Qed.

(** A needle that does not contain the character [c] cannot reach across
    an occurrence of [c]. *)
Lemma prefix_before (c : ascii) (b n a : string) :
  c ∉ list_ascii_of_string n ->
  String.prefix n (a +:+ String c b) = String.prefix n a.
Proof.
  revert n. induction a as [| x a IH]; intros [| y n] Hc; try done.
  - change ("" +:+ String c b) with (String c b). cbn [String.prefix].
    destruct (ascii_dec y c) as [-> | _]; [| done].
    exfalso. apply Hc. simpl. apply list_elem_of_here.
  - change (String x a +:+ String c b) with (String x (a +:+ String c b)).
    cbn [String.prefix]. destruct (ascii_dec y x); [| done].
    apply IH. intros Hin. apply Hc. simpl. by apply list_elem_of_further.
Qed.

Lemma string_includes_across (c : ascii) (b n a : string) :
  n <> "" -> c ∉ list_ascii_of_string n ->
  string_includes n (a +:+ String c b) = string_includes n a || string_includes n b.
Proof.
  intros Hn Hc. induction a as [| x a IH].
  - change ("" +:+ String c b) with (String c b).
    rewrite (string_includes_unfold n (String c b)).
    destruct n as [| y n]; [done |]. cbn [String.prefix string_includes orb].
    destruct (ascii_dec y c) as [-> | _]; [| done].
    exfalso. apply Hc. simpl. apply list_elem_of_here.
  - change (String x a +:+ String c b) with (String x (a +:+ String c b)).
    rewrite (string_includes_unfold n (String x (a +:+ String c b))), IH.
    rewrite (string_includes_unfold n (String x a)).
    change (String x (a +:+ String c b)) with (String x a +:+ String c b).
    rewrite (prefix_before c b n (String x a) Hc). by rewrite orb_assoc.
Qed.

(** A name in double quotes followed by [not allowed]: the text of the two
    allow-list refusals.  It mentions [not allowed], and it mentions
    [not found] only if the name does. *)
Lemma quoted_refusal_text (kind x : string) :
  string_includes "not found" kind = false ->
  string_includes "not found" x = false ->
  let text := kind +:+ JS.dquote +:+ x +:+ JS.dquote +:+ " not allowed" in
  string_includes "not found" text = false /\ string_includes "not allowed" text = true.
Proof.
  intros Hkind Hx text. split.
  - unfold text, JS.dquote.
    change (kind +:+ String "034" "" +:+ x +:+ String "034" "" +:+ " not allowed")
      with (kind +:+ String "034" (x +:+ String "034" " not allowed")).
    assert ("034"%char ∉ list_ascii_of_string "not found") as Hq.
    { simpl. intros Hin. repeat (apply elem_of_cons in Hin as [Hin | Hin]; [discriminate |]).
      by apply elem_of_nil in Hin. }
    rewrite !string_includes_across by done.
    rewrite Hkind, Hx. reflexivity.
  - unfold text. do 3 apply string_includes_suffix. reflexivity.
Qed.

(** *** Calls that are refused *)

Lemma verdict_allowed_not_array (cfg : SecurityConfig) (c : HAServiceCallRequest) :
  allowed (verdict cfg c) = true -> is_array (entity_id c) = false.
Proof.
  unfold verdict. repeat case_match; simpl; try discriminate; done.
Qed.

Lemma with_haBridge_same (a : WyomingRealtimeShim) : with_haBridge (haBridge a) a = a.
Proof. by destruct a. Qed.

(** With a controller, the call of [handleFunctionCall] runs the validation
    and stops where [callService] stops. *)
Lemma handleFunctionCall_validates
  (f : FunctionCall) (a : WyomingRealtimeShim) (sc : SecurityController) :
  fc_name f = "call_service" ->
  securityController (bridge (haBridge a)) = Some sc ->
  handleFunctionCall f a
  = Validating (verdict (config sc) (fc_arguments f))
      (with_haBridge
         (validated
            (snd (validateServiceCall (fc_arguments f)
                    {| controller := sc; clock := sys_clock (haBridge a) |}))
            (haBridge a)) a).
Proof.
  intros Hname Hsc. unfold handleFunctionCall. rewrite Hname.
  change (String.eqb "call_service" "call_service") with true. cbv iota.
  rewrite (callService_validates (fc_arguments f) None (haBridge a) sc Hsc).
  by rewrite validateServiceCall_verdict.
Qed.

Lemma handleFunctionCall_validated_refused
  (f : FunctionCall) (v : SecurityValidation) (a : WyomingRealtimeShim) :
  allowed v = false ->
  handleFunctionCall_validated f v a = Refused (JS.mkError (default "" (reason v))) a.
Proof.
  intros Hv. unfold handleFunctionCall_validated.
  rewrite (callService_resume_denied (fc_arguments f) None v (haBridge a) Hv).
  by rewrite with_haBridge_same.
Qed.

(** X15: a high-risk command that passes the allow-lists and arrives
    without confirmation is refused: the call changes nothing and stops
    with the confirmation-required verdict; when [callService] runs on it
    throws the fixed reason, in whatever state, and changes nothing, so
    nothing is sent to Home Assistant; and the [catch] block, in whatever
    state with the OpenAI socket open, hands back a function result that
    carries the fixed reason and, as the sentence for the user, the general
    error sentence around that reason.  The confirmation prompt of the
    verdict and the sentence asking for confirmation are not used, because
    the test for that sentence looks for [confirmation] in lower case and
    the reason starts with a capital. *)
Theorem confirmation_request_is_not_voiced
  (f : FunctionCall) (a : WyomingRealtimeShim) (sc : SecurityController) :
  fc_name f = "call_service" ->
  securityController (bridge (haBridge a)) = Some sc ->
  JS.includes (allowedDomains (config sc)) (domain (fc_arguments f)) = true ->
  first_entity_not_allowed (config sc) (fc_arguments f) = None ->
  gate_open (config sc) (fc_arguments f) = false ->
  let v := verdict (config sc) (fc_arguments f) in
  let error := JS.mkError "Confirmation required for high-risk action" in
  (handleFunctionCall f a = Validating v a /\
   confirmationPrompt v = Some (generateConfirmationPrompt (fc_arguments f))) /\
  (forall a2 : WyomingRealtimeShim,
     handleFunctionCall_validated f v a2 = Refused error a2) /\
  (forall a3 : WyomingRealtimeShim,
     openai_open (openaiClient a3) = true ->
     function_call_failed f error a3
     = {| haBridge := haBridge a3;
          openaiClient :=
            {| openai_open := true;
               function_outputs :=
                 function_outputs (openaiClient a3) ++
                 [(fc_call_id f,
                   function_failed "Confirmation required for high-risk action"
                     (generic_error_response "Confirmation required for high-risk action"))] |};
          voice_allowedDomains := voice_allowedDomains a3 |}) /\
  generic_error_response "Confirmation required for high-risk action"
  <> needs_confirmation_response /\
  generic_error_response "Confirmation required for high-risk action"
  <> generateConfirmationPrompt (fc_arguments f).
Proof.
  intros Hname Hsc Hd He Hg v error.
  assert (v = {| allowed := false;
                 reason := Some "Confirmation required for high-risk action";
                 requiresConfirmation := true;
                 confirmationPrompt := Some (generateConfirmationPrompt (fc_arguments f));
                 sanitizedEntityId := None |}) as Hv.
  { unfold v, verdict. by rewrite Hd, He, Hg. }
  split; [| split; [| split; [| split]]].
  - split; [| by rewrite Hv].
    rewrite (handleFunctionCall_validates f a sc Hname Hsc). fold v.
    rewrite (validate_confirmation_required (fc_arguments f)
               {| controller := sc; clock := sys_clock (haBridge a) |} Hd He Hg).
    cbn [snd]. by rewrite (validated_same (haBridge a) sc Hsc), with_haBridge_same.
  - intros a2. rewrite handleFunctionCall_validated_refused by (by rewrite Hv).
    by rewrite Hv.
  - intros a3 Hopen. unfold function_call_failed, sendFunctionResult, error. cbn.
    by rewrite Hopen.
  - discriminate.
  - unfold generateConfirmationPrompt. repeat case_match; discriminate.
Qed.

Lemma confirmation_request_is_not_voiced_witness :
  handleFunctionCall_validated
    {| fc_call_id := "call_1"; fc_name := "call_service"; fc_arguments := unlock_front_door |}
    (verdict (config sample_controller) unlock_front_door)
    (WyomingRealtimeShim_new sample_config "token" (ticking_clock 0) true)
  = Refused (JS.mkError "Confirmation required for high-risk action")
      (WyomingRealtimeShim_new sample_config "token" (ticking_clock 0) true).
Proof.
  exact (proj1 (proj2 (confirmation_request_is_not_voiced
                         {| fc_call_id := "call_1"; fc_name := "call_service";
                            fc_arguments := unlock_front_door |}
                         (WyomingRealtimeShim_new sample_config "token" (ticking_clock 0) true)
                         sample_controller eq_refl eq_refl eq_refl eq_refl eq_refl))
           (WyomingRealtimeShim_new sample_config "token" (ticking_clock 0) true)).
Defined.

(** X16: a command refused by an allow-list.  The call stops with the
    denial as its verdict and takes no request id; when [callService] runs
    on it throws the denial's reason, in whatever state, and changes
    nothing, so no request goes to Home Assistant; and the [catch] block
    hands back that reason.  Whether the domain is not allowed or, in an
    allowed domain, an entity is not on the whitelist, the sentence for the
    user is the one about domains: it names the command's domain (allowed
    or not) and lists the allowed domains.  The quoted name must not itself
    contain [not found], which would select the sentence about a missing
    device. *)
Theorem allow_list_refusals_are_voiced
  (f : FunctionCall) (a : WyomingRealtimeShim) (sc : SecurityController) :
  fc_name f = "call_service" ->
  securityController (bridge (haBridge a)) = Some sc ->
  let c := fc_arguments f in
  let v := verdict (config sc) c in
  let outcome (text : string) :=
    (exists a1,
       handleFunctionCall f a = Validating v a1 /\
       same_core (haBridge a) (haBridge a1) /\
       openaiClient a1 = openaiClient a) /\
    reason v = Some text /\
    (forall a2 : WyomingRealtimeShim,
       handleFunctionCall_validated f v a2 = Refused (JS.mkError text) a2) /\
    (forall a3 : WyomingRealtimeShim,
       openai_open (openaiClient a3) = true ->
       haBridge (function_call_failed f (JS.mkError text) a3) = haBridge a3 /\
       function_outputs (openaiClient (function_call_failed f (JS.mkError text) a3))
       = function_outputs (openaiClient a3) ++
         [(fc_call_id f,
           function_failed text (not_able_response (voice_allowedDomains a3) (domain c)))]) in
  (JS.includes (allowedDomains (config sc)) (domain c) = false ->
   string_includes "not found" (domain c) = false ->
   outcome (domain_denial c)) /\
  (forall x,
     JS.includes (allowedDomains (config sc)) (domain c) = true ->
     first_entity_not_allowed (config sc) c = Some x ->
     string_includes "not found" x = false ->
     outcome (entity_denial x)).
Proof.
  intros Hname Hsc c v outcome.
  assert (forall kind x,
            string_includes "not found" kind = false ->
            string_includes "not found" x = false ->
            v = set_reason (kind +:+ JS.dquote +:+ x +:+ JS.dquote +:+ " not allowed")
                  initial_validation ->
            outcome (kind +:+ JS.dquote +:+ x +:+ JS.dquote +:+ " not allowed")) as Hgen.
  { intros kind x Hkind Hx Hv.
    destruct (quoted_refusal_text kind x Hkind Hx) as [Hnf Hna].
    split; [| split; [| split]].
    - eexists. split; [apply (handleFunctionCall_validates f a sc Hname Hsc) |].
      split; [apply validated_same_core | reflexivity].
    - by rewrite Hv.
    - intros a2. rewrite handleFunctionCall_validated_refused by (by rewrite Hv).
      by rewrite Hv.
    - intros a3 Hopen. split; [reflexivity |].
      unfold function_call_failed, sendFunctionResult.
      cbn [openaiClient function_outputs voice_allowedDomains haBridge JS.message].
      rewrite Hopen. cbn [function_outputs].
      unfold generateErrorResponse. rewrite Hnf, Hna. reflexivity. }
  split.
  - intros Hd Hnf. apply (Hgen "Domain " (domain c)); [reflexivity | done |].
    unfold v, verdict. by rewrite Hd.
  - intros x Hd He Hnf. apply (Hgen "Entity " x); [reflexivity | done |].
    unfold v, verdict. by rewrite Hd, He.
Qed.

Lemma allow_list_refusals_are_voiced_witness :
  function_outputs
    (openaiClient
       (function_call_failed
          {| fc_call_id := "call_1"; fc_name := "call_service"; fc_arguments := switch_on |}
          (JS.mkError (domain_denial switch_on))
          (WyomingRealtimeShim_new sample_config "token" (ticking_clock 0) true)))
  = function_outputs
      (openaiClient (WyomingRealtimeShim_new sample_config "token" (ticking_clock 0) true)) ++
    [("call_1",
      function_failed (domain_denial switch_on)
        (not_able_response
           (voice_allowedDomains
              (WyomingRealtimeShim_new sample_config "token" (ticking_clock 0) true))
           (domain switch_on)))].
Proof.
  destruct (allow_list_refusals_are_voiced
              {| fc_call_id := "call_1"; fc_name := "call_service"; fc_arguments := switch_on |}
              (WyomingRealtimeShim_new sample_config "token" (ticking_clock 0) true)
              sample_controller eq_refl eq_refl) as [Hdomain _].
  destruct (Hdomain eq_refl eq_refl) as (_ & _ & _ & Hcatch).
  exact (proj2 (Hcatch (WyomingRealtimeShim_new sample_config "token" (ticking_clock 0) true)
                  eq_refl)).
Defined.

(** *** One result for every call *)

(** X17: whatever the call and the state, [handleFunctionCall] hands
    exactly one function result to the OpenAI client, or none when that
    client's socket is not open.  The call either sends its result at once
    or stops with nothing sent; the job in which [callService] runs on
    sends nothing, whether it throws or issues the request; the [catch]
    block sends one result and leaves the bridge as it is; and the job
    after the awaited promise sends nothing while the promise is
    unsettled and one result, with the bridge left as it is, once it is
    settled.  This includes a success sentence that cannot be built. *)
Theorem one_result_for_every_function_call
  (find : Payload -> option EntityId -> JS.Completion (option Payload)) (roll : nat)
  (f : FunctionCall) (a : WyomingRealtimeShim) :
  let sent (before after : WyomingRealtimeShim) :=
    exists r,
      openaiClient after
      = {| openai_open := openai_open (openaiClient before);
           function_outputs :=
             function_outputs (openaiClient before) ++
             (if openai_open (openaiClient before) then [(fc_call_id f, r)] else []) |} in
  match handleFunctionCall f a with
  | Finished a' => sent a a'
  | Suspended _ a' | Validating _ a' => openaiClient a' = openaiClient a
  | Refused _ _ => False
  end /\
  (forall (v : SecurityValidation) (a1 : WyomingRealtimeShim),
     match handleFunctionCall_validated f v a1 with
     | Refused _ a' => a' = a1 /\ allowed v = false
     | Suspended _ a' => openaiClient a' = openaiClient a1 /\ allowed v = true
     | Finished _ | Validating _ _ => False
     end) /\
  (forall (error : JS.Error) (a1 : WyomingRealtimeShim),
     sent a1 (function_call_failed f error a1) /\
     haBridge (function_call_failed f error a1) = haBridge a1) /\
  forall (p : nat) (a1 : WyomingRealtimeShim),
    match handleFunctionCall_resume find roll f p a1 with
    | Finished a' =>
        sent a1 a' /\ haBridge a' = haBridge a1 /\
        is_Some (promises (loop (haBridge a1)) !! p)
    | Suspended q a' =>
        q = p /\ a' = a1 /\ promises (loop (haBridge a1)) !! p = None
    | Validating _ _ | Refused _ _ => False
    end.
Proof.
  intros sent.
  assert (forall e a0, sent a0 (function_call_failed f e a0)) as Hfail.
  { intros e a0. eexists. unfold function_call_failed, sendFunctionResult. cbn.
    destruct (openaiClient a0) as [[] outs]; cbn; [reflexivity | by rewrite app_nil_r]. }
  assert (forall r a0, sent a0 (function_call_succeeded f r a0)) as Hok.
  { intros r a0. eexists. unfold function_call_succeeded, sendFunctionResult. cbn.
    destruct (openaiClient a0) as [[] outs]; cbn; [reflexivity | by rewrite app_nil_r]. }
  split; [| split; [| split]].
  - unfold handleFunctionCall.
    destruct (String.eqb (fc_name f) "call_service").
    + by destruct (callService (fc_arguments f) None (haBridge a)) as [[v | p] w].
    + destruct (String.eqb (fc_name f) "get_state").
      * destruct (getStates (haBridge a)) as [p w]. reflexivity.
      * apply Hfail.
  - intros v a1. unfold handleFunctionCall_validated, callService_resume.
    destruct (allowed v); cbn [negb].
    + by destruct (issue_call_service (fc_arguments f) None (haBridge a1)).
    + split; [apply with_haBridge_same | done].
  - intros error a1. split; [apply Hfail | reflexivity].
  - intros p a1. unfold handleFunctionCall_resume.
    destruct (promises (loop (haBridge a1)) !! p) as [[result | e] |] eqn:Hp.
    + destruct (String.eqb (fc_name f) "call_service").
      * destruct (generateSuccessResponse _ _ _ _); (split; [auto | split; [done | by eexists]]).
      * destruct (find result (entity_id (fc_arguments f))) as [[entity |] | e];
          (split; [auto | split; [done | by eexists]]).
    + split; [auto | split; [done | by eexists]].
    + done.
Qed.

(** *** Calls that wait for Home Assistant *)

Lemma generateSuccessResponse_normal (d s : string) (t : option EntityId) (roll : nat) :
  is_array t = false -> exists text, generateSuccessResponse d s t roll = JS.Normal text.
Proof.
  destruct t as [[x | l] |]; [by eexists | discriminate | by eexists].
Qed.

Lemma resume_unsettled
  (find : Payload -> option EntityId -> JS.Completion (option Payload)) (roll : nat)
  (f : FunctionCall) (p : nat) (a : WyomingRealtimeShim) :
  promises (loop (haBridge a)) !! p = None ->
  handleFunctionCall_resume find roll f p a = Suspended p a.
Proof. intros Hp. unfold handleFunctionCall_resume. by rewrite Hp. Qed.

Lemma resume_rejected
  (find : Payload -> option EntityId -> JS.Completion (option Payload)) (roll : nat)
  (f : FunctionCall) (p : nat) (a : WyomingRealtimeShim) (e : JS.Error) :
  promises (loop (haBridge a)) !! p = Some (Rejected e) ->
  handleFunctionCall_resume find roll f p a = Finished (function_call_failed f e a).
Proof. intros Hp. unfold handleFunctionCall_resume. by rewrite Hp. Qed.

(** X18: an allowed [call_service].  The call stops with the verdict and
    takes no request id.  Whatever the bridge goes through before
    [callService] runs on (the events [between], which may hold further
    calls that take ids of their own), the request is then recorded under
    the id [i] that is next at that moment, never below the counter at the
    time of the call, and [handleFunctionCall] is suspended on its promise
    and reports nothing while the request is outstanding.  When Home
    Assistant answers with a response citing [i], the result of a
    successful response is handed back as it is and a failed one is
    reported with the response's error text (or ['Unknown error']); when
    the timer runs out instead, the failure reported is
    ['Request timeout'], with the general error sentence for the user. *)
Theorem call_service_outcome_is_reported
  (find : Payload -> option EntityId -> JS.Completion (option Payload)) (roll : nat)
  (f : FunctionCall) (a : WyomingRealtimeShim) (sc : SecurityController)
  (between evs : list Event) (m : InboundMessage) :
  fc_name f = "call_service" ->
  securityController (bridge (haBridge a)) = Some sc ->
  openai_open (openaiClient a) = true ->
  well_formed (haBridge a) ->
  0 < messageId (bridge (haBridge a)) ->
  allowed (verdict (config sc) (fc_arguments f)) = true ->
  let c := fc_arguments f in
  let v := verdict (config sc) c in
  let a1 := with_haBridge (snd (callService c None (haBridge a))) a in
  let a2 := bridge_runs between a1 in
  let i := messageId (bridge (haBridge a2)) in
  let p := next_promise (loop (haBridge a2)) in
  let h := next_timer (loop (haBridge a2)) in
  let a3 := with_haBridge (snd (callService_resume c None v (haBridge a2))) a2 in
  Forall (fun ev => ~ cites i ev /\ ev <> timer_elapsed h) evs ->
  msg_type m = "result" -> msg_id m = Some i ->
  (handleFunctionCall f a = Validating v a1 /\
   same_core (haBridge a) (haBridge a1) /\
   openaiClient a1 = openaiClient a) /\
  (handleFunctionCall_validated f v a2 = Suspended p a3 /\
   messageId (bridge (haBridge a)) <= i /\
   pendingRequests (bridge (haBridge a3)) !! i = Some {| promise := p; timeout := h |} /\
   openaiClient a3 = openaiClient a) /\
  let a4 := bridge_runs evs a3 in
  handleFunctionCall_resume find roll f p a4 = Suspended p a4 /\
  (exists a5,
     handleFunctionCall_resume find roll f p (bridge_runs [ws_message (Some m)] a4)
     = Finished a5 /\
     function_outputs (openaiClient a5)
     = function_outputs (openaiClient a) ++
       [(fc_call_id f,
         if msg_success m then function_succeeded (msg_result m)
         else function_failed (error_text m)
                (generateErrorResponse (voice_allowedDomains a) (error_text m)
                   (domain c) (entity_id c)))]) /\
  (exists a5,
     handleFunctionCall_resume find roll f p (bridge_runs [timer_elapsed h] a4)
     = Finished a5 /\
     function_outputs (openaiClient a5)
     = function_outputs (openaiClient a) ++
       [(fc_call_id f,
         function_failed "Request timeout" (generic_error_response "Request timeout"))]).
Proof.
  intros Hname Hsc Hopen Hwf Hpos Hv c v a1 a2 i p h a3 Hevs Htype Hid.
  set (e := {| controller := sc; clock := sys_clock (haBridge a) |}).
  set (w1 := validated (snd (validateServiceCall c e)) (haBridge a)).
  assert (a1 = with_haBridge w1 a) as Ha1.
  { unfold a1. by rewrite (callService_validates c None (haBridge a) sc Hsc). }
  assert (same_core (haBridge a) w1) as Hcore by apply validated_same_core.
  assert (well_formed w1) as Hwf1 by (by apply (well_formed_same_core (haBridge a))).
  set (w2 := run w1 between).
  assert (haBridge a2 = w2) as Hw2 by (unfold a2; by rewrite Ha1).
  assert (well_formed w2) as Hwf2 by (by apply well_formed_run).
  assert (messageId (bridge (haBridge a)) <= messageId (bridge w2)) as Hle.
  { rewrite <- (messageId_same_core _ _ Hcore). apply messageId_run. }
  pose proof (outstanding_after_execute (call_service_body c) None w2 Hwf2) as Hout.
  set (w3 := snd (execute (call_service_body c) None w2)) in *.
  assert (callService_resume c None v (haBridge a2)
          = (Awaiting (next_promise (loop w2)), w3)) as Hresume.
  { rewrite Hw2. rewrite (callService_resume_execute c None v w2 Hv).
    by rewrite execute_promise. }
  assert (haBridge a3 = w3) as Hw3 by (unfold a3; by rewrite Hresume).
  unfold i, p, h in *. rewrite Hw2 in Hevs, Hid |- *.
  split; [| split].
  - split; [| split].
    + rewrite Ha1. apply (handleFunctionCall_validates f a sc Hname Hsc).
    + by rewrite Ha1.
    + by rewrite Ha1.
  - split; [| split; [exact Hle | split]].
    + unfold handleFunctionCall_validated. fold c. unfold a3. by rewrite Hresume.
    + rewrite Hw3. apply Hout.
    + unfold a3, a2. by rewrite Ha1.
  - cbv zeta.
    pose proof (outstanding_run _ _ _ _ evs _ Hevs Hout) as Hout2.
    assert (openaiClient a3 = openaiClient a) as Hclient by (unfold a3, a2; by rewrite Ha1).
    assert (voice_allowedDomains a3 = voice_allowedDomains a) as Hvoice
      by (unfold a3, a2; by rewrite Ha1).
    assert (haBridge (bridge_runs evs a3) = run w3 evs) as Hw4
      by (unfold bridge_runs; cbn [haBridge with_haBridge]; by rewrite Hw3).
    split; [| split].
    + apply resume_unsettled. rewrite Hw4. apply Hout2.
    + destruct (outstanding_answered _ _ _ _ _ m Hout2 Htype Hid) as [Hset _]; [lia |].
      destruct Hset as [_ _ Hp].
      unfold handleFunctionCall_resume.
      assert (haBridge (bridge_runs [ws_message (Some m)] (bridge_runs evs a3))
              = step (run w3 evs) (ws_message (Some m))) as ->
        by (unfold bridge_runs; cbn [haBridge with_haBridge run foldl]; by rewrite Hw3).
      rewrite Hp. unfold response_outcome.
      destruct (msg_success m).
      * rewrite Hname. change (String.eqb "call_service" "call_service") with true. cbv iota.
        destruct (generateSuccessResponse_normal (domain (fc_arguments f))
                    (service (fc_arguments f)) (entity_id (fc_arguments f)) roll)
          as [text ->].
        { by apply (verdict_allowed_not_array (config sc)). }
        eexists. split; [reflexivity |].
        unfold function_call_succeeded, sendFunctionResult.
        cbn [openaiClient bridge_runs with_haBridge function_outputs].
        by rewrite Hclient, Hopen.
      * eexists. split; [reflexivity |].
        unfold function_call_failed, sendFunctionResult.
        cbn [openaiClient bridge_runs with_haBridge function_outputs voice_allowedDomains
             JS.message].
        by rewrite Hclient, Hvoice, Hopen.
    + destruct (outstanding_times_out _ _ _ _ _ Hout2) as [[_ _ Hp] _].
      rewrite (resume_rejected find roll f _ _ request_timeout).
      * eexists. split; [reflexivity |].
        unfold function_call_failed, sendFunctionResult.
        cbn [openaiClient bridge_runs with_haBridge function_outputs voice_allowedDomains
             JS.message].
        rewrite Hclient, Hopen. reflexivity.
      * unfold bridge_runs. cbn [haBridge with_haBridge run foldl]. rewrite Hw3. exact Hp.
Qed.

(** A [get_states] issued in the turn of the call takes the lower id; the
    [call_service] gets the next one and is answered by the response that
    cites it. *)
Lemma call_service_outcome_is_reported_witness :
  exists a5,
    handleFunctionCall_resume (fun _ _ => JS.Normal None) 0
      {| fc_call_id := "call_1"; fc_name := "call_service"; fc_arguments := light_on |}
      (next_promise
         (loop (haBridge
            (bridge_runs [call_getStates]
               (with_haBridge
                  (snd (callService light_on None
                          (haBridge (WyomingRealtimeShim_new sample_config "token"
                                       (ticking_clock 0) true))))
                  (WyomingRealtimeShim_new sample_config "token" (ticking_clock 0) true))))))
      (bridge_runs [ws_message (Some (result_message 2 true "done"))]
         (bridge_runs []
            (with_haBridge
               (snd (callService_resume light_on None
                       (verdict (config sample_controller) light_on)
                       (haBridge
                          (bridge_runs [call_getStates]
                             (with_haBridge
                                (snd (callService light_on None
                                        (haBridge (WyomingRealtimeShim_new sample_config
                                                     "token" (ticking_clock 0) true))))
                                (WyomingRealtimeShim_new sample_config "token"
                                   (ticking_clock 0) true))))))
               (bridge_runs [call_getStates]
                  (with_haBridge
                     (snd (callService light_on None
                             (haBridge (WyomingRealtimeShim_new sample_config "token"
                                          (ticking_clock 0) true))))
                     (WyomingRealtimeShim_new sample_config "token"
                        (ticking_clock 0) true))))))
    = Finished a5 /\
    function_outputs (openaiClient a5)
    = function_outputs
        (openaiClient (WyomingRealtimeShim_new sample_config "token" (ticking_clock 0) true))
      ++ [("call_1", function_succeeded "done")].
Proof.
  destruct (call_service_outcome_is_reported (fun _ _ => JS.Normal None) 0
              {| fc_call_id := "call_1"; fc_name := "call_service"; fc_arguments := light_on |}
              (WyomingRealtimeShim_new sample_config "token" (ticking_clock 0) true)
              sample_controller [call_getStates] [] (result_message 2 true "done")
              eq_refl eq_refl eq_refl (well_formed_new _ _ _) eq_refl eq_refl
              (Forall_nil_2 _) eq_refl eq_refl)
    as (_ & _ & _ & (a5 & Hresume & Hout) & _).
  exists a5. split; [exact Hresume | exact Hout].
Defined.

(** X19: [get_state] is suspended on the promise of a [get_states]
    request, whatever the entity asked for.  When the states arrive and no
    entity matches, the failure reported is ['Entity not found'] and the
    sentence for the user is the one about a missing device, naming the
    entity asked for (or [device] when none was given); when an entity
    matches it is handed back as the result; an error while searching is
    reported with its own text. *)
Theorem get_state_outcome_is_reported
  (find : Payload -> option EntityId -> JS.Completion (option Payload)) (roll : nat)
  (f : FunctionCall) (a : WyomingRealtimeShim) (m : InboundMessage) :
  fc_name f = "get_state" ->
  openai_open (openaiClient a) = true ->
  well_formed (haBridge a) ->
  0 < messageId (bridge (haBridge a)) ->
  msg_type m = "result" -> msg_id m = Some (messageId (bridge (haBridge a))) ->
  msg_success m = true ->
  let args := fc_arguments f in
  let p := next_promise (loop (haBridge a)) in
  let a1 := with_haBridge (snd (execute get_states None (haBridge a))) a in
  handleFunctionCall f a = Suspended p a1 /\
  handleFunctionCall_resume find roll f p a1 = Suspended p a1 /\
  exists a3,
    handleFunctionCall_resume find roll f p (bridge_runs [ws_message (Some m)] a1)
    = Finished a3 /\
    function_outputs (openaiClient a3)
    = function_outputs (openaiClient a) ++
      [(fc_call_id f,
        match find (msg_result m) (entity_id args) with
        | JS.Normal (Some entity) => function_succeeded entity
        | JS.Normal None =>
            function_failed "Entity not found" (not_found_response (entity_id args))
        | JS.Throw error =>
            function_failed (JS.message error)
              (generateErrorResponse (voice_allowedDomains a) (JS.message error)
                 (domain args) (entity_id args))
        end)].
Proof.
  intros Hname Hopen Hwf Hpos Htype Hid Hok args p a1.
  pose proof (outstanding_after_execute get_states None (haBridge a) Hwf) as Hout.
  split; [| split].
  - unfold handleFunctionCall. rewrite Hname. reflexivity.
  - apply resume_unsettled. apply Hout.
  - destruct (outstanding_answered _ _ _ _ _ m Hout Htype Hid) as [[_ _ Hp] _]; [lia |].
    unfold handleFunctionCall_resume.
    change (haBridge (bridge_runs [ws_message (Some m)] a1))
      with (step (snd (execute get_states None (haBridge a))) (ws_message (Some m))).
    unfold p. rewrite Hp. unfold response_outcome. rewrite Hok, Hname.
    change (String.eqb "get_state" "call_service") with false. cbv iota.
    fold args.
    destruct (find (msg_result m) (entity_id args)) as [[entity |] | error].
    + eexists. split; [reflexivity |].
      unfold function_call_succeeded, sendFunctionResult. cbn. by rewrite Hopen.
    + eexists. split; [reflexivity |].
      unfold function_call_failed, sendFunctionResult. cbn. by rewrite Hopen.
    + eexists. split; [reflexivity |].
      unfold function_call_failed, sendFunctionResult. cbn. by rewrite Hopen.
Qed.

Lemma get_state_outcome_is_reported_witness :
  exists a3,
    handleFunctionCall_resume (fun _ _ => JS.Normal None) 0
      {| fc_call_id := "call_2"; fc_name := "get_state"; fc_arguments := light_on |}
      (next_promise (loop (haBridge
         (WyomingRealtimeShim_new sample_config "token" (ticking_clock 0) true))))
      (bridge_runs [ws_message (Some (result_message 1 true "states"))]
         (with_haBridge
            (snd (execute get_states None
                    (haBridge (WyomingRealtimeShim_new sample_config "token"
                                 (ticking_clock 0) true))))
            (WyomingRealtimeShim_new sample_config "token" (ticking_clock 0) true)))
    = Finished a3 /\
    function_outputs (openaiClient a3)
    = [("call_2", function_failed "Entity not found" (not_found_response (entity_id light_on)))].
Proof.
  destruct (get_state_outcome_is_reported (fun _ _ => JS.Normal None) 0
              {| fc_call_id := "call_2"; fc_name := "get_state"; fc_arguments := light_on |}
              (WyomingRealtimeShim_new sample_config "token" (ticking_clock 0) true)
              (result_message 1 true "states")
              eq_refl eq_refl (well_formed_new _ _ _) eq_refl eq_refl eq_refl eq_refl)
    as (_ & _ & a3 & Hresume & Hout).
  exists a3. split; [exact Hresume | exact Hout].
Defined.

(** ** The control API *)

Lemma respond_error_state (code : Z) (error message : string) (s : ControlAPI) :
  status_code (fst (respond_error code error message s)) = code /\
  currentSession (snd (respond_error code error message s)) = currentSession s /\
  vadEnabled (snd (respond_error code error message s)) = vadEnabled s /\
  api_uuids (snd (respond_error code error message s)) = api_uuids s /\
  reads (api_clock (snd (respond_error code error message s))) = S (reads (api_clock s)).
Proof. done. Qed.

Lemma session_invariant_handle (r : HttpRequest) (s : ControlAPI) :
  session_invariant s -> session_invariant (snd (handle r s)).
Proof.
  intros Hinv. destruct r as [[t |] | | |]; cbn [handle].
  - unfold start_ptt.
    destruct (invalid_timeout t); [exact Hinv |].
    destruct (session_active (currentSession s)); [exact Hinv |].
    intros session [= <-]. by split.
  - exact Hinv.
  - unfold stop_ptt. destruct (currentSession s) as [session |] eqn:Hs; [| exact Hinv].
    destruct (session_active (Some session)); [| exact Hinv].
    intros session' Hnone. discriminate.
  - unfold toggle_vad. cbn [Date_new].
    destruct (vadEnabled s) eqn:Hv; cbn [negb andb].
    + destruct (session_is_vad (currentSession s)) eqn:Hvad.
      * intros session' Hnone. discriminate.
      * intros session Hs. cbn in Hs. destruct (Hinv session Hs) as [Hact _].
        split; [done |]. intros Hm. unfold session_is_vad in Hvad.
        rewrite Hs, Hm in Hvad. discriminate.
    + destruct (bool_decide (is_Some (currentSession s))); cbn [negb].
      * intros session Hs. cbn in Hs. destruct (Hinv session Hs) as [Hact _]. by split.
      * intros session [= <-]. by split.
  - unfold get_status. cbn [Date_new].
    destruct (currentSession s) as [session |] eqn:Hs.
    + intros session' Hs'. cbn in Hs'. rewrite <- Hs in Hs'. exact (Hinv session' Hs').
    + intros session' Hs'. cbn in Hs'. congruence.
Qed.

(** X20: after any sequence of requests to a new control API, a session
    that is stored is active (an ended one is dropped at once), and a
    stored VAD session implies that VAD is switched on.  So [/start_ptt] is
    refused with [session_active] exactly while some session, of either
    mode, is stored. *)
Theorem stored_session_is_active (c : Clock) (u : UuidSource) (rs : list HttpRequest) :
  let s := serve (createControlAPI c u) rs in
  session_invariant s /\
  session_active (currentSession s) = bool_decide (is_Some (currentSession s)).
Proof.
  assert (forall s0, session_invariant s0 -> session_invariant (serve s0 rs)) as Hrun.
  { induction rs as [| r rs IH]; intros s0 H0; [exact H0 |].
    apply IH. by apply session_invariant_handle. }
  intros s.
  assert (session_invariant s) as Hinv.
  { apply Hrun. intros session Hs. discriminate. }
  split; [exact Hinv |].
  unfold session_active. destruct (currentSession s) as [session |] eqn:Hs; [| done].
  destruct (Hinv session Hs) as [-> _]. done.
Qed.

(** X21: a request that is not answered with status 200 has no effect on
    the sessions: [currentSession] and [vadEnabled] are as before, no
    identifier is drawn, and the clock is read once, for the time stamp of
    the error.  A [/start_ptt] whose [timeout_ms] is present and not a
    number from 1000 to 300000 is refused with [invalid_timeout], also while
    a session is active; a request without a body is answered with status
    503; and [/status] never changes the two variables. *)
Theorem refused_requests_change_nothing (r : HttpRequest) (s : ControlAPI) :
  let response := fst (handle r s) in
  let s' := snd (handle r s) in
  (status_code response <> 200 ->
   currentSession s' = currentSession s /\ vadEnabled s' = vadEnabled s /\
   api_uuids s' = api_uuids s /\
   reads (api_clock s') = S (reads (api_clock s)) /\
   exists error message,
     json response = error_response error message (now_at (api_clock s) (reads (api_clock s)))) /\
  (forall t, r = POST_start_ptt (Some t) -> invalid_timeout t = true ->
     response
     = {| status_code := 400;
          json := error_response "invalid_timeout" "Timeout must be between 1000 and 300000 ms"
                    (now_at (api_clock s) (reads (api_clock s))) |}) /\
  (r = POST_start_ptt None -> status_code response = 503) /\
  (r = GET_status -> currentSession s' = currentSession s /\ vadEnabled s' = vadEnabled s).
Proof.
  intros response s'. subst response s'.
  split; [| split; [| split]].
  - intros Hcode. destruct r as [[t |] | | |]; cbn [handle] in *.
    + unfold start_ptt in *.
      destruct (invalid_timeout t); [by repeat split; eauto |].
      destruct (session_active (currentSession s)); [by repeat split; eauto |].
      by destruct Hcode.
    + by repeat split; eauto.
    + unfold stop_ptt in *. destruct (currentSession s) as [session |] eqn:Hs.
      * destruct (session_active (Some session)).
        -- by destruct Hcode.
        -- cbn. rewrite Hs. by repeat split; eauto.
      * cbn. rewrite Hs. by repeat split; eauto.
    + unfold toggle_vad in *. cbn [Date_new] in *.
      repeat case_match; by destruct Hcode.
    + unfold get_status in *. cbn [Date_new] in *.
      repeat case_match; by destruct Hcode.
  - intros t -> Ht. cbn [handle]. unfold start_ptt. by rewrite Ht.
  - by intros ->.
  - intros ->. cbn [handle]. unfold get_status. cbn [Date_new]. by case_match.
Qed.

Lemma refused_requests_change_nothing_witness :
  fst (handle (POST_start_ptt (Some (timeout_number 500%float))) sample_api)
  = {| status_code := 400;
       json := error_response "invalid_timeout" "Timeout must be between 1000 and 300000 ms"
                 (now_at (api_clock sample_api) (reads (api_clock sample_api))) |}.
Proof.
  exact (proj1 (proj2 (refused_requests_change_nothing
                         (POST_start_ptt (Some (timeout_number 500%float))) sample_api))
           (timeout_number 500%float) eq_refl eq_refl).
Defined.

Lemma ptt_session_is_kept (session : SessionState) (r : HttpRequest) (s : ControlAPI) :
  currentSession s = Some session -> mode session = ptt -> status session = active ->
  r <> POST_stop_ptt ->
  currentSession (snd (handle r s)) = Some session /\
  (forall body, r = POST_start_ptt body -> status_code (fst (handle r s)) <> 200).
Proof.
  intros Hs Hm Hact Hr. destruct r as [[t |] | | |]; cbn [handle]; try done.
  - unfold start_ptt. destruct (invalid_timeout t); [by split |].
    unfold session_active. rewrite Hs, Hact. by split.
  - unfold toggle_vad. cbn [Date_new]. rewrite Hs. unfold session_is_vad. rewrite Hm.
    rewrite bool_decide_eq_true_2 by (by eexists).
    rewrite !andb_false_r. by split.
  - unfold get_status. cbn [Date_new]. rewrite Hs. by split.
Qed.

(** X22: a push-to-talk session from start to stop.  [/start_ptt] with an
    acceptable [timeout_ms], when no session is active, answers with a
    freshly drawn identifier; whatever requests other than [/stop_ptt]
    follow, the session stays as it is and every further [/start_ptt] is
    refused; [/stop_ptt] then answers with the same identifier and the
    status [ended], no session is stored any more, and a second
    [/stop_ptt] is refused with [no_active_session]. *)
Theorem ptt_session_from_start_to_stop
  (t : TimeoutField) (s : ControlAPI) (rs : list HttpRequest) :
  invalid_timeout t = false ->
  session_active (currentSession s) = false ->
  Forall (fun r => r <> POST_stop_ptt) rs ->
  let id := uuid_at (api_uuids s) (drawn (api_uuids s)) in
  let started := start_ptt (Some t) s in
  let s2 := serve (snd started) rs in
  let stopped := stop_ptt s2 in
  (status_code (fst started) = 200 /\
   exists ts, json (fst started) = session_response id ptt active ts (Some "Default Input")) /\
  (exists ts,
     currentSession s2
     = Some {| sessionId := id; mode := ptt; status := active; startTime := ts |}) /\
  (status_code (fst stopped) = 200 /\
   exists ts, json (fst stopped) = session_response id ptt ended ts None) /\
  currentSession (snd stopped) = None /\
  vadEnabled (snd stopped) = vadEnabled s2 /\
  (status_code (fst (stop_ptt (snd stopped))) = 400 /\
   exists ts,
     json (fst (stop_ptt (snd stopped)))
     = error_response "no_active_session" "No active PTT session to stop" ts).
Proof.
  intros Ht Hfree Hrs id started s2 stopped.
  assert (started
          = ({| status_code := 200;
                json := session_response id ptt active
                          (now_at (api_clock s) (S (reads (api_clock s))))
                          (Some "Default Input") |},
             {| currentSession :=
                  Some {| sessionId := id; mode := ptt; status := active;
                          startTime := now_at (api_clock s) (reads (api_clock s)) |};
                vadEnabled := vadEnabled s;
                api_clock := {| now_at := now_at (api_clock s);
                                reads := S (S (reads (api_clock s))) |};
                api_uuids := {| uuid_at := uuid_at (api_uuids s);
                                drawn := S (drawn (api_uuids s)) |} |})) as Hstart.
  { unfold started, start_ptt. by rewrite Ht, Hfree. }
  set (session := {| sessionId := id; mode := ptt; status := active;
                     startTime := now_at (api_clock s) (reads (api_clock s)) |}).
  assert (forall s0, currentSession s0 = Some session ->
                     currentSession (serve s0 rs) = Some session) as Hkeep.
  { clear s2 stopped. induction rs as [| r rs IH]; intros s0 H0; [exact H0 |].
    apply Forall_cons in Hrs as [Hr Hrs]. cbn [serve foldl].
    apply (IH Hrs). by apply (ptt_session_is_kept session r s0). }
  assert (currentSession s2 = Some session) as Hs2.
  { apply Hkeep. by rewrite Hstart. }
  assert (stopped
          = ({| status_code := 200;
                json := session_response id ptt ended
                          (now_at (api_clock s2) (reads (api_clock s2))) None |},
             {| currentSession := None; vadEnabled := vadEnabled s2;
                api_clock := {| now_at := now_at (api_clock s2);
                                reads := S (reads (api_clock s2)) |};
                api_uuids := api_uuids s2 |})) as Hstop.
  { unfold stopped, stop_ptt. by rewrite Hs2. }
  rewrite Hstart, Hstop. cbn [fst snd status_code json currentSession vadEnabled].
  split; [by eauto |]. split; [by eauto |]. split; [by eauto |].
  split; [done |]. split; [done |]. split; [done | by eauto].
Qed.

Lemma ptt_session_from_start_to_stop_witness :
  exists ts,
    json (fst (stop_ptt
                 (serve (snd (start_ptt (Some (timeout_number 5000%float)) sample_api))
                    [POST_toggle_vad; GET_status; POST_start_ptt (Some timeout_undefined);
                     POST_toggle_vad])))
    = session_response (uuid_at (api_uuids sample_api) (drawn (api_uuids sample_api)))
        ptt ended ts None.
Proof.
  assert (Forall (fun r => r <> POST_stop_ptt)
            [POST_toggle_vad; GET_status; POST_start_ptt (Some timeout_undefined);
             POST_toggle_vad]) as Hrs.
  { repeat constructor; discriminate. }
  destruct (ptt_session_from_start_to_stop (timeout_number 5000%float) sample_api
              [POST_toggle_vad; GET_status; POST_start_ptt (Some timeout_undefined);
               POST_toggle_vad] eq_refl eq_refl Hrs)
    as (_ & _ & (_ & Hstopped) & _).
  exact Hstopped.
Defined.

(** X23: [/stop_ptt] ends whatever session is stored.  When VAD is switched
    on with no session stored, a VAD session is created; [/stop_ptt] then
    answers with that session's identifier, naming the mode [ptt], and
    drops the session while VAD stays switched on.  The next [/toggle_vad]
    switches VAD off and creates nothing. *)
Theorem stop_ptt_ends_a_vad_session (s : ControlAPI) :
  currentSession s = None -> vadEnabled s = false ->
  let id := uuid_at (api_uuids s) (drawn (api_uuids s)) in
  let toggled := toggle_vad s in
  let stopped := stop_ptt (snd toggled) in
  let again := toggle_vad (snd stopped) in
  (exists ts, json (fst toggled) = vad_response true ts (Some id)) /\
  (exists ts,
     currentSession (snd toggled)
     = Some {| sessionId := id; mode := vad; status := active; startTime := ts |}) /\
  vadEnabled (snd toggled) = true /\
  (status_code (fst stopped) = 200 /\
   exists ts, json (fst stopped) = session_response id ptt ended ts None) /\
  currentSession (snd stopped) = None /\ vadEnabled (snd stopped) = true /\
  (exists ts, json (fst again) = vad_response false ts None) /\
  currentSession (snd again) = None /\ vadEnabled (snd again) = false /\
  api_uuids (snd again) = api_uuids (snd toggled).
Proof.
  intros Hs Hv id toggled stopped again.
  assert (toggled
          = ({| status_code := 200;
                json := vad_response true (now_at (api_clock s) (reads (api_clock s)))
                          (Some id) |},
             {| currentSession :=
                  Some {| sessionId := id; mode := vad; status := active;
                          startTime := now_at (api_clock s) (S (reads (api_clock s))) |};
                vadEnabled := true;
                api_clock := {| now_at := now_at (api_clock s);
                                reads := S (S (reads (api_clock s))) |};
                api_uuids := {| uuid_at := uuid_at (api_uuids s);
                                drawn := S (drawn (api_uuids s)) |} |})) as Htoggled.
  { unfold toggled, toggle_vad. cbn [Date_new]. by rewrite Hs, Hv. }
  subst again stopped. rewrite Htoggled. cbn.
  repeat split; eauto.
Qed.

Lemma stop_ptt_ends_a_vad_session_witness :
  currentSession (snd (stop_ptt (snd (toggle_vad sample_api)))) = None /\
  vadEnabled (snd (stop_ptt (snd (toggle_vad sample_api)))) = true.
Proof.
  destruct (stop_ptt_ends_a_vad_session sample_api eq_refl eq_refl)
    as (_ & _ & _ & _ & Hnone & Hon & _).
  split; [exact Hnone | exact Hon].
Defined.

(** X24: [/toggle_vad] always flips [vadEnabled], so two in a row restore
    it, and it never touches a push-to-talk session.  After one toggle of
    a state in which a stored VAD session implies that VAD is on, and no
    push-to-talk session is stored, a session is stored exactly when VAD
    is on. *)
Theorem toggle_vad_keeps_sessions_in_step (s : ControlAPI) :
  session_invariant s ->
  let s1 := snd (toggle_vad s) in
  let s2 := snd (toggle_vad s1) in
  vadEnabled s1 = negb (vadEnabled s) /\
  vadEnabled s2 = vadEnabled s /\
  status_code (fst (toggle_vad s)) = 200 /\
  (forall session, currentSession s = Some session -> mode session = ptt ->
     currentSession s1 = Some session /\ currentSession s2 = Some session) /\
  (session_is_vad (currentSession s) = bool_decide (is_Some (currentSession s)) ->
   bool_decide (is_Some (currentSession s1)) = vadEnabled s1 /\
   session_is_vad (currentSession s1) = vadEnabled s1).
Proof.
  intros Hinv s1 s2. subst s2 s1.
  assert (forall s0, vadEnabled (snd (toggle_vad s0)) = negb (vadEnabled s0)) as Hflip.
  { intros s0. unfold toggle_vad. cbn [Date_new]. by repeat case_match. }
  assert (forall s0 session, currentSession s0 = Some session -> mode session = ptt ->
            currentSession (snd (toggle_vad s0)) = Some session) as Hptt.
  { intros s0 session H0 Hm. unfold toggle_vad. cbn [Date_new]. rewrite H0.
    unfold session_is_vad. rewrite Hm.
    rewrite bool_decide_eq_true_2 by (by eexists). by rewrite !andb_false_r. }
  split; [apply Hflip |]. split; [by rewrite !Hflip, negb_involutive |].
  split; [unfold toggle_vad; cbn [Date_new]; by repeat case_match |].
  split.
  - intros session Hs Hm. split; [by apply Hptt |]. apply Hptt; [by apply Hptt | done].
  - intros Hsync. rewrite Hflip.
    destruct s as [[[id m st ts] |] v c u].
    + cbn in Hsync. destruct m; [discriminate |].
      assert (v = true) as -> by (by apply (Hinv _ eq_refl)).
      split; reflexivity.
    + destruct v; split; reflexivity.
Qed.

Lemma toggle_vad_keeps_sessions_in_step_witness :
  vadEnabled (snd (toggle_vad (snd (toggle_vad sample_api)))) = vadEnabled sample_api.
Proof.
  assert (session_invariant sample_api) as Hinv by (intros session Hs; discriminate).
  exact (proj1 (proj2 (toggle_vad_keeps_sessions_in_step sample_api Hinv))).
Defined.

(** ** Configuration checks *)

Lemma find_none_Forall {A : Type} (p : A -> bool) (l : list A) :
  List.find (fun x => negb (p x)) l = None <-> Forall (fun x => p x = true) l.
Proof.
  induction l as [| x l IH]; simpl; [split; [constructor | done] |].
  destruct (p x) eqn:Hp; simpl.
  - rewrite IH. split; [by constructor | by inversion 1].
  - split; [done |]. inversion 1; congruence.
Qed.

(** What an accepted configuration satisfies, and conversely. *)
Lemma performCustomValidations_normal
  (url_error : string -> option string) (c : Configuration) :
  performCustomValidations url_error c = JS.Normal tt <->
  String.prefix "sk-" (openaiApiKey c) = true /\
  url_error (realtimeApiUrl c) = None /\ url_error (haUrl c) = None /\
  Forall (fun d => validDomainPattern d = true) (conf_allowedDomains c) /\
  Forall (fun e => validEntityPattern e = true) (conf_entityWhitelist c) /\
  sessionSilenceTimeoutMs c < sessionMaxDurationMs c /\
  1024 <= httpPort c <= 65535.
Proof.
  unfold performCustomValidations.
  rewrite <- !find_none_Forall.
  destruct (String.prefix "sk-" (openaiApiKey c)); cbn [negb];
    [| split; [discriminate | intros (? & _); discriminate]].
  destruct (url_error (realtimeApiUrl c));
    [split; [discriminate | intros (_ & ? & _); discriminate] |].
  destruct (url_error (haUrl c));
    [split; [discriminate | intros (_ & _ & ? & _); discriminate] |].
  destruct (List.find _ (conf_allowedDomains c));
    [split; [discriminate | intros (_ & _ & _ & ? & _); discriminate] |].
  destruct (List.find _ (conf_entityWhitelist c));
    [split; [discriminate | intros (_ & _ & _ & _ & ? & _); discriminate] |].
  destruct (Z.leb_spec (sessionMaxDurationMs c) (sessionSilenceTimeoutMs c));
    [split; [discriminate | intros (_ & _ & _ & _ & _ & ? & _); lia] |].
  destruct (Z.ltb_spec (httpPort c) 1024); cbn [orb];
    [split; [discriminate | intros (_ & _ & _ & _ & _ & _ & ? & _); lia] |].
  destruct (Z.ltb_spec 65535 (httpPort c));
    [split; [discriminate | intros (_ & _ & _ & _ & _ & _ & _ & ?); lia] |].
  split; [intros _; repeat split; (done || lia) | done].
Qed.

Lemma find_first_failing {A : Type} (p : A -> bool) (before after : list A) (x : A) :
  Forall (fun y => p y = true) before -> p x = false ->
  List.find (fun y => negb (p y)) (before ++ x :: after) = Some x.
Proof.
  intros Hbefore Hx. induction Hbefore as [| y before Hy _ IH]; simpl.
  - by rewrite Hx.
  - by rewrite Hy.
Qed.

(** X25: [performCustomValidations] accepts a configuration exactly when
    the API key starts with [sk-], both URLs parse, every allowed domain
    is one or more of [a-z_], every whitelisted entity is such a name, a
    dot, and one or more of [a-z0-9_], the silence timeout is below the
    maximum duration, and the port is between 1024 and 65535.  The key is
    checked first, and when the key, the URLs and the domains pass, the
    error names the first whitelisted entity that does not match. *)
Theorem performCustomValidations_accepts
  (url_error : string -> option string) (c : Configuration) :
  (performCustomValidations url_error c = JS.Normal tt <->
   String.prefix "sk-" (openaiApiKey c) = true /\
   url_error (realtimeApiUrl c) = None /\ url_error (haUrl c) = None /\
   Forall (fun d => validDomainPattern d = true) (conf_allowedDomains c) /\
   Forall (fun e => validEntityPattern e = true) (conf_entityWhitelist c) /\
   sessionSilenceTimeoutMs c < sessionMaxDurationMs c /\
   1024 <= httpPort c <= 65535) /\
  (String.prefix "sk-" (openaiApiKey c) = false ->
   performCustomValidations url_error c
   = JS.Throw (JS.mkError ("OpenAI API key must start with " +:+ JS.dquote +:+ "sk-"
                           +:+ JS.dquote))) /\
  (forall (before after : list string) (e : string),
     String.prefix "sk-" (openaiApiKey c) = true ->
     url_error (realtimeApiUrl c) = None -> url_error (haUrl c) = None ->
     Forall (fun d => validDomainPattern d = true) (conf_allowedDomains c) ->
     conf_entityWhitelist c = before ++ e :: after ->
     Forall (fun x => validEntityPattern x = true) before ->
     validEntityPattern e = false ->
     performCustomValidations url_error c
     = JS.Throw (JS.mkError ("Invalid entity ID: " +:+ e))).
Proof.
  split; [apply performCustomValidations_normal |]. split.
  - intros Hkey. unfold performCustomValidations. by rewrite Hkey.
  - intros before after e Hkey Hu1 Hu2 Hdom Hlist Hbefore He.
    unfold performCustomValidations. rewrite Hkey, Hu1, Hu2. cbn [negb].
    apply find_none_Forall in Hdom. rewrite Hdom, Hlist.
    by rewrite (find_first_failing validEntityPattern before after e Hbefore He).
Qed.

Lemma split_at_dot_chars (s before after : string) :
  split_at_dot s = Some (before, after) ->
  list_ascii_of_string s
  = list_ascii_of_string before ++ "."%char :: list_ascii_of_string after.
Proof.
  revert before. induction s as [| a s IH]; intros before; simpl; [done |].
  destruct (Ascii.eqb_spec a "."%char) as [-> | _].
  - by intros [= <- <-].
  - destruct (split_at_dot s) as [[b t] |]; [| done].
    intros [= <- <-]. simpl. by rewrite (IH b eq_refl).
Qed.

Lemma name_character_is_harmless (a : ascii) :
  lower_digit_or_underscore a = true \/ a = "."%char -> a ∉ dangerous_characters.
Proof.
  intros Ha Hin. unfold dangerous_characters in Hin.
  repeat (apply elem_of_cons in Hin as [-> | Hin];
          [destruct Ha as [Ha | Ha]; vm_compute in Ha; discriminate |]).
  by apply elem_of_nil in Hin.
Qed.

Lemma one_or_more_chars (class : ascii -> bool) (s : string) (a : ascii) :
  one_or_more class s = true -> a ∈ list_ascii_of_string s -> class a = true.
Proof.
  unfold one_or_more. intros [_ Hall]%andb_true_iff Ha.
  rewrite forallb_forall in Hall. apply Hall. by apply list_elem_of_In.
Qed.

Lemma valid_entity_is_harmless (s : string) (a : ascii) :
  validEntityPattern s = true -> a ∈ list_ascii_of_string s -> a ∉ dangerous_characters.
Proof.
  unfold validEntityPattern.
  destruct (split_at_dot s) as [[before after] |] eqn:Hsplit; [| done].
  intros [Hb Ht]%andb_true_iff. rewrite (split_at_dot_chars s before after Hsplit).
  intros [Ha | Ha]%elem_of_app; apply name_character_is_harmless.
  - left. unfold lower_digit_or_underscore.
    by rewrite (one_or_more_chars _ before a Hb Ha).
  - apply elem_of_cons in Ha as [-> | Ha]; [by right | left].
    by apply (one_or_more_chars _ after a Ht Ha).
Qed.

(** X26: in a configuration that [performCustomValidations] accepts, no
    whitelisted entity holds a character that [sanitizeEntityId] removes.
    So under the [SecurityController] built from it, with a non-empty
    whitelist, every allowed command that names a single entity is let
    through with that entity's id unchanged. *)
Theorem accepted_whitelist_survives_sanitizing
  (url_error : string -> option string) (conf : Configuration) :
  performCustomValidations url_error conf = JS.Normal tt ->
  (forall e, e ∈ conf_entityWhitelist conf ->
     sanitizeEntityId (EntityString e) = JS.Normal e) /\
  (forall (c : HAServiceCallRequest) (s : string),
     conf_entityWhitelist conf <> [] ->
     entity_id c = Some (EntityString s) -> s <> "" ->
     allowed (verdict (security_config conf) c) = true ->
     s ∈ conf_entityWhitelist conf /\
     sanitizedEntityId (verdict (security_config conf) c) = Some s).
Proof.
  intros Hok. apply performCustomValidations_normal in Hok as (_ & _ & _ & _ & Hents & _).
  rewrite Forall_forall in Hents.
  assert (forall e, e ∈ conf_entityWhitelist conf ->
                    remove_characters dangerous_characters e = e) as Hclean.
  { intros e He. apply remove_characters_fixpoint. intros a Ha.
    by apply (valid_entity_is_harmless e a (Hents e He)). }
  split.
  - intros e He. simpl. by rewrite Hclean.
  - intros c s Hne Hid Hs Hallowed.
    assert (JS.string_truthy s = true) as Htruthy by (by destruct s).
    assert (s ∈ conf_entityWhitelist conf) as Hin.
    { unfold verdict in Hallowed.
      destruct (negb (JS.includes (allowedDomains (security_config conf)) (domain c)));
        [discriminate |].
      destruct (first_entity_not_allowed (security_config conf) c) as [x |] eqn:Hfirst;
        [discriminate |].
      unfold first_entity_not_allowed in Hfirst. rewrite Hid in Hfirst.
      cbn [entity_id_truthy security_config entityWhitelist entityIds] in Hfirst.
      rewrite Htruthy in Hfirst.
      destruct (conf_entityWhitelist conf) as [| e0 l] eqn:Hl; [done |].
      rewrite <- Hl in *. 
      replace (0 <? Z.of_nat (length (conf_entityWhitelist conf))) with true in Hfirst
        by (symmetry; apply Z.ltb_lt; rewrite Hl; cbn [length]; lia).
      cbn [andb List.find] in Hfirst.
      destruct (JS.includes (conf_entityWhitelist conf) s) eqn:Hinc; [| discriminate].
      by apply includes_spec. }
    split; [exact Hin |].
    unfold verdict in *.
    destruct (negb (JS.includes (allowedDomains (security_config conf)) (domain c)));
      [discriminate |].
    destruct (first_entity_not_allowed (security_config conf) c); [discriminate |].
    destruct (negb (gate_open (security_config conf) c)); [discriminate |].
    rewrite Hid. cbn [is_array sanitizedEntityId sanitized_target].
    rewrite Htruthy. by rewrite Hclean.
Qed.

Lemma accepted_whitelist_survives_sanitizing_witness :
  sanitizeEntityId (EntityString "switch.fan_2") = JS.Normal "switch.fan_2".
Proof.
  assert (performCustomValidations (fun _ => None) sample_configuration = JS.Normal tt)
    as Hok by reflexivity.
  apply (proj1 (accepted_whitelist_survives_sanitizing (fun _ => None)
                  sample_configuration Hok)).
  apply list_elem_of_further, list_elem_of_here.
Defined.

(** ** Correlation ids *)

(** X27: [getCorrelationId] returns the id that is set when it is set and
    not empty, and otherwise draws one and keeps it: asked again at once it
    gives the same id and draws nothing, provided the source never hands
    out the empty string.  [withCorrelationId] gives back what [fn] gives,
    with the previous id restored whatever [fn] did to it and whether it
    returned or threw; inside, a non-empty id is the id [fn] reads. *)
Theorem correlation_id_is_kept_and_restored (s : Correlation) :
  (forall n, uuid_at (correlation_uuids s) n <> "") ->
  let first := getCorrelationId s in
  let second := getCorrelationId (snd first) in
  (fst first <> "" /\ second = (fst first, snd first) /\
   currentCorrelationId (snd first) = Some (fst first)) /\
  (forall id, currentCorrelationId s = Some id -> id <> "" -> first = (id, s)) /\
  (forall (T : Type) (id : string) (fn : Correlation -> JS.Completion T * Correlation),
     fst (withCorrelationId id fn s) = fst (fn (setCorrelationId id s)) /\
     currentCorrelationId (snd (withCorrelationId id fn s)) = currentCorrelationId s) /\
  (forall id, id <> "" ->
     fst (withCorrelationId id
            (fun st => (JS.Normal (fst (getCorrelationId st)), snd (getCorrelationId st))) s)
     = JS.Normal id).
Proof.
  intros Hids first second.
  assert (forall id, id <> "" -> JS.string_truthy id = true) as Htruthy
    by (intros [| ? ?]; done).
  assert (forall st id, currentCorrelationId st = Some id -> id <> "" ->
            getCorrelationId st = (id, st)) as Hset.
  { intros st id Hst Hid. unfold getCorrelationId. by rewrite Hst, (Htruthy id Hid). }
  assert (fst first <> "" /\ currentCorrelationId (snd first) = Some (fst first)) as [Hne Hcur].
  { subst first. unfold getCorrelationId.
    destruct (currentCorrelationId s) as [id |] eqn:Hs.
    - destruct (JS.string_truthy id) eqn:Hid.
      + cbn [fst snd]. split; [by destruct id | done].
      + cbn. split; [apply Hids | done].
    - cbn. split; [apply Hids | done]. }
  split; [| split; [| split]].
  - split; [exact Hne |]. split; [| exact Hcur].
    subst second. by apply Hset.
  - intros id Hs Hid. subst first. unfold getCorrelationId.
    by rewrite Hs, (Htruthy id Hid).
  - intros T id fn. unfold withCorrelationId.
    by destruct (fn (setCorrelationId id s)).
  - intros id Hid. unfold withCorrelationId, getCorrelationId. cbn.
    by rewrite (Htruthy id Hid).
Qed.

Lemma correlation_id_is_kept_and_restored_witness :
  getCorrelationId
    (snd (getCorrelationId
            {| currentCorrelationId := None; correlation_uuids := counting_uuids |}))
  = (fst (getCorrelationId
            {| currentCorrelationId := None; correlation_uuids := counting_uuids |}),
     snd (getCorrelationId
            {| currentCorrelationId := None; correlation_uuids := counting_uuids |})).
Proof.
  assert (forall n, uuid_at counting_uuids n <> "") as Hids by (intros n; discriminate).
  exact (proj1 (proj2 (proj1 (correlation_id_is_kept_and_restored
                                {| currentCorrelationId := None;
                                   correlation_uuids := counting_uuids |} Hids)))).
Defined.
